(** * The response cache and metrics aggregator of the CodePush server

    A shallow embedding of [script/redis-manager.ts]: the [Utilities]
    module, the promisified Redis client and the [RedisManager] class,
    together with the fragment of JavaScript and of the Redis store that
    the class relies on.  Promises are computations on an explicit world
    that end resolved or rejected.  [close], which serves the unit tests,
    is taken over what [quit] does on a connection, and the constructor
    of the promisified client over the functions the client has. *)

From Stdlib Require Import ZArith String Ascii Decimal DecimalString DecimalZ QArith Lia.
From stdpp Require Import gmap strings list.

Open Scope string_scope.
Open Scope Z_scope.

(** ** The JavaScript fragment

    Strings are sequences of code units below 256.  A number is a
    double: [JsFinite q] is the double whose value is the rational [q],
    a reduced fraction, and the conversion of a string rounds the value
    it is written as to the nearest double, so that an integer beyond
    2^53 may come out as a neighbour and a value from 2^1024 on as an
    infinity; the sign of zero is not tracked. *)
Module Js.

Inductive JsNumber : Type :=
| JsNaN
| JsInfinity (negative : bool)
| JsFinite (q : Q).

#[warnings="-register-all"] Inductive JsValue : Type :=
| JsUndefined
| JsNull
| JsBoolean (b : bool)
| JsNum (n : JsNumber)
| JsStr (s : string)
| JsArray (items : list JsValue)
| JsObject (members : list (string * JsValue)).

(** [if (s)] on a string: every string but the empty one is truthy. *)
Definition truthy (s : string) : bool :=
  match s with
  | EmptyString => false
  | String _ _ => true
  end.

(** [if (s)] on a value that is a string, [null] or [undefined]. *)
Definition truthy_opt (s : option string) : bool :=
  match s with
  | Some s => truthy s
  | None => false
  end.

(** WhiteSpace and LineTerminator code units: TAB, LF, VT, FF, CR, SP and
    NBSP. *)
Definition isWhiteSpace (c : ascii) : bool :=
  let n := N_of_ascii c in
  ((9 <=? n) && (n <=? 13) || (n =? 32) || (n =? 160))%N.

Fixpoint skipWhiteSpace (s : string) : string :=
  match s with
  | EmptyString => EmptyString
  | String c s' => if isWhiteSpace c then skipWhiteSpace s' else s
  end.

Fixpoint allWhiteSpace (s : string) : bool :=
  match s with
  | EmptyString => true
  | String c s' => isWhiteSpace c && allWhiteSpace s'
  end.

Definition decimalDigit (c : ascii) : option (uint -> uint) :=
  match c with
  | "0" => Some D0 | "1" => Some D1 | "2" => Some D2 | "3" => Some D3
  | "4" => Some D4 | "5" => Some D5 | "6" => Some D6 | "7" => Some D7
  | "8" => Some D8 | "9" => Some D9
  | _ => None
  end%char.

(** The longest prefix of decimal digits, and what follows it. *)
Fixpoint spanDigits (s : string) : uint * string :=
  match s with
  | EmptyString => (Nil, EmptyString)
  | String c s' =>
      match decimalDigit c with
      | Some d => let (ds, rest) := spanDigits s' in (d ds, rest)
      | None => (Nil, s)
      end
  end.

Definition isNil (d : uint) : bool :=
  match d with Nil => true | _ => false end.

(** The value of a digit written in a radix up to 16. *)
Definition radixDigit (radix : Z) (c : ascii) : option Z :=
  let n := Z.of_N (N_of_ascii c) in
  let v := if (48 <=? n) && (n <=? 57) then Some (n - 48)
           else if (97 <=? n) && (n <=? 102) then Some (n - 87)
           else if (65 <=? n) && (n <=? 70) then Some (n - 55)
           else None in
  match v with
  | Some d => if d <? radix then Some d else None
  | None => None
  end.

(** The digits of a NonDecimalIntegerLiteral, most significant first:
    the accumulated value, whether a digit was read, and the rest. *)
Fixpoint spanRadix (radix : Z) (acc : Z) (seen : bool) (s : string) : Z * bool * string :=
  match s with
  | EmptyString => (acc, seen, EmptyString)
  | String c s' =>
      match radixDigit radix c with
      | Some d => spanRadix radix (acc * radix + d) true s'
      | None => (acc, seen, s)
      end
  end.

Definition nonDecimalIntegerLiteral (radix : Z) (s : string) : option (JsNumber * string) :=
  match spanRadix radix 0 false s with
  | (v, true, rest) => Some (JsFinite (Qred (inject_Z v)), rest)
  | (_, false, _) => None
  end.

(** ExponentPart, when the mantissa is followed by [e] or [E]; an
    ill-formed exponent makes the whole literal ill-formed. *)
Definition exponentPart (s : string) : option (Z * string) :=
  match s with
  | String c s' =>
      if (Ascii.eqb c "e" || Ascii.eqb c "E")%char then
        let '(negative, s'') :=
          match s' with
          | String "+"%char r => (false, r)
          | String "-"%char r => (true, r)
          | _ => (false, s')
          end in
        let (ds, rest) := spanDigits s'' in
        if isNil ds then None
        else Some (if negative then - Z.of_uint ds else Z.of_uint ds, rest)
      else Some (0, s)
  | EmptyString => Some (0, s)
  end.

Definition stripPrefix (p s : string) : option string :=
  if String.prefix p s then Some (String.substring (String.length p) (String.length s - String.length p) s)
  else None.

(** StrUnsignedDecimalLiteral: [Infinity], or digits with an optional
    fraction and exponent. *)
Definition strUnsignedDecimalLiteral (s : string) : option (JsNumber * string) :=
  match stripPrefix "Infinity" s with
  | Some rest => Some (JsInfinity false, rest)
  | None =>
      let (int_part, r1) := spanDigits s in
      let (frac_part, r2) :=
        match r1 with
        | String "."%char r => spanDigits r
        | _ => (Nil, r1)
        end in
      if isNil int_part && isNil frac_part then None
      else
        match exponentPart r2 with
        | None => None
        | Some (e, rest) =>
            let scale := Z.of_nat (nb_digits frac_part) in
            let mantissa := Z.of_uint int_part * 10 ^ scale + Z.of_uint frac_part in
            Some (JsFinite (Qred (inject_Z mantissa * Qpower (inject_Z 10) (e - scale))), rest)
        end
  end.

Definition negate (n : JsNumber) : JsNumber :=
  match n with
  | JsNaN => JsNaN
  | JsInfinity b => JsInfinity (negb b)
  | JsFinite q => JsFinite (Qred (- q))
  end.

Definition strNumericLiteral (s : string) : option (JsNumber * string) :=
  match s with
  | String "0"%char (String c r) =>
      if (Ascii.eqb c "x" || Ascii.eqb c "X")%char then nonDecimalIntegerLiteral 16 r
      else if (Ascii.eqb c "o" || Ascii.eqb c "O")%char then nonDecimalIntegerLiteral 8 r
      else if (Ascii.eqb c "b" || Ascii.eqb c "B")%char then nonDecimalIntegerLiteral 2 r
      else strUnsignedDecimalLiteral s
  | String "+"%char r => strUnsignedDecimalLiteral r
  | String "-"%char r =>
      match strUnsignedDecimalLiteral r with
      | Some (n, rest) => Some (negate n, rest)
      | None => None
      end
  | _ => strUnsignedDecimalLiteral s
  end.

(** The binade of a positive rational [n/d]: the [k] with
    2^k <= n/d < 2^(k+1). *)
Definition binade (n d : positive) : Z :=
  let k := Z.log2 (Z.pos n) - Z.log2 (Z.pos d) in
  if Z.pos n * 2 ^ Z.log2 (Z.pos d) <? Z.pos d * 2 ^ Z.log2 (Z.pos n) then k - 1 else k.

(** The double nearest to a positive rational [n/d]: a significand of 53
    bits, fewer for a subnormal, at the exponent of the binade; a tie
    goes to the even significand, and what rounds to 2^1024 is an
    infinity. *)
Definition roundPositive (n d : positive) : JsNumber :=
  let e := Z.max (binade n d - 52) (-1074) in
  let num := Z.pos n * 2 ^ Z.max 0 (- e) in
  let den := Z.pos d * 2 ^ Z.max 0 e in
  let q := num / den in
  let r := num mod den in
  let m := if 2 * r <? den then q
           else if den <? 2 * r then q + 1
           else if Z.even q then q else q + 1 in
  if 2 ^ 1024 <=? m * 2 ^ e then JsInfinity false
  else JsFinite (Qred (Qmake (m * 2 ^ Z.max 0 e) (Z.to_pos (2 ^ Z.max 0 (- e))))).

(** The Number value of a rational. *)
Definition toDouble (q : Q) : JsNumber :=
  match Qnum q with
  | Z0 => JsFinite (Qred 0)
  | Z.pos n => roundPositive n (Qden q)
  | Z.neg n => negate (roundPositive n (Qden q))
  end.

(** The mathematical value of a literal, rounded to a Number. *)
Definition roundMVResult (n : JsNumber) : JsNumber :=
  match n with
  | JsFinite q => toDouble q
  | _ => n
  end.

(** ToNumber applied to a string (StringToNumber): white space around a
    StrNumericLiteral, whose value is rounded to a double; the empty and
    the blank string are 0. *)
Definition ToNumber (s : string) : JsNumber :=
  match skipWhiteSpace s with
  | EmptyString => JsFinite (Qred 0)
  | s1 =>
      match strNumericLiteral s1 with
      | Some (n, rest) => if allWhiteSpace rest then roundMVResult n else JsNaN
      | None => JsNaN
      end
  end.

(** The global [isNaN], on a string argument. *)
Definition isNaN (s : string) : bool :=
  match ToNumber s with
  | JsNaN => true
  | _ => false
  end.

(** The decimal form of an integer, as [String(n)] and Redis write it. *)
Definition decimal (n : Z) : string := NilEmpty.string_of_int (Z.to_int n).

End Js.

(** ** [Utilities] *)

Definition DEPLOYMENT_SUCCEEDED : string := "DeploymentSucceeded".
Definition DEPLOYMENT_FAILED : string := "DeploymentFailed".
Definition ACTIVE : string := "Active".
Definition DOWNLOADED : string := "Downloaded".

Module Utilities.

Definition isValidDeploymentStatus (status : string) : bool :=
  String.eqb status DEPLOYMENT_SUCCEEDED
  || String.eqb status DEPLOYMENT_FAILED
  || String.eqb status DOWNLOADED.

(** [None] is the [null] the source returns. *)
Definition getLabelStatusField (label status : string) : option string :=
  if isValidDeploymentStatus status then Some (label ++ ":" ++ status)
  else None.

Definition getLabelActiveCountField (label : string) : option string :=
  if Js.truthy label then Some (label ++ ":" ++ ACTIVE)
  else None.

Definition getDeploymentKeyHash (deploymentKey : string) : string :=
  "deploymentKey:" ++ deploymentKey.

Definition getDeploymentKeyLabelsHash (deploymentKey : string) : string :=
  "deploymentKeyLabels:" ++ deploymentKey.

Definition getDeploymentKeyClientsHash (deploymentKey : string) : string :=
  "deploymentKeyClients:" ++ deploymentKey.

End Utilities.

(** ** The Redis store

    Each of the two connections of the manager addresses one logical
    database of the same server.  The key space is flat: an entry is
    found under the pair of its database index and its key, holds a
    string or a hash and carries an optional time to live in seconds.
    The passing of time, and with it the expiry of keys, is not part of
    the model; nor is the signed 64-bit bound of Redis counters. *)
Module Redis.

Inductive Value : Type :=
| VString (s : string)
| VHash (h : gmap string string).

Record Entry : Type := { value : Value; ttl : option Z }.

Abbreviation Keyspace := (gmap (Z * string) Entry).

(** The commands the promisified client binds.  The field of [HINCRBY]
    is the one argument the manager may pass as [null]. *)
Inductive Command : Type :=
| DEL (keys : list string)
| EXISTS (key : string)
| EXPIRE (key : string) (seconds : Z)
| HDEL (key field : string)
| HGET (key field : string)
| HGETALL (key : string)
| HINCRBY (key : string) (field : option string) (increment : Z)
| HSET (key field value : string)
| PING
| SELECT (index : Z)
| SET (key value : string).

#[warnings="-register-all"] Inductive Reply : Type :=
| Integer (n : Z)
| Bulk (s : option string)
| Fields (h : option (gmap string string))
| Status (s : string)
| Error (message : string)
| Replies (rs : list Reply).

(** A request is what one call of the client hands to the connection:
    one command, or the queue of a batch handed over by [exec]. *)
Inductive Request : Type :=
| Single (cmd : Command)
| Batch (cmds : list Command).

Definition DATABASES : Z := 16.

(** The integer a hash field holds, as Redis reads it: a canonical
    decimal, without sign [+], leading zeros or blanks. *)
Definition integer_of_string (s : string) : option Z :=
  match NilEmpty.int_of_string s with
  | Some d =>
      let n := Z.of_int d in
      if String.eqb (Js.decimal n) s then Some n else None
  | None => None
  end.

Definition del_key (db : Z) (ks : Keyspace) (key : string) : Keyspace :=
  delete (db, key) ks.

Definition count_existing (db : Z) (ks : Keyspace) (keys : list string) : Z :=
  Z.of_nat (length (filter (fun key => is_Some (ks !! (db, key))) keys)).

(** The effect of a command on the database [db] and its reply.
    [SELECT] is left to the connection. *)
Definition exec (db : Z) (cmd : Command) (ks : Keyspace) : Reply * Keyspace :=
  match cmd with
  | DEL keys =>
      (Integer (count_existing db ks keys), foldl (del_key db) ks keys)
  | EXISTS key =>
      (Integer (match ks !! (db, key) with Some _ => 1 | None => 0 end), ks)
  | EXPIRE key seconds =>
      match ks !! (db, key) with
      | Some e =>
          if seconds <=? 0 then (Integer 1, delete (db, key) ks)
          else (Integer 1, <[(db, key) := {| value := value e; ttl := Some seconds |}]> ks)
      | None => (Integer 0, ks)
      end
  | HDEL key field =>
      match ks !! (db, key) with
      | Some {| value := VHash h; ttl := t |} =>
          match h !! field with
          | Some _ =>
              let h' := delete field h in
              (Integer 1,
               if decide (h' = ∅) then delete (db, key) ks
               else <[(db, key) := {| value := VHash h'; ttl := t |}]> ks)
          | None => (Integer 0, ks)
          end
      | Some {| value := VString _ |} => (Error "WRONGTYPE", ks)
      | None => (Integer 0, ks)
      end
  | HGET key field =>
      match ks !! (db, key) with
      | Some {| value := VHash h |} => (Bulk (h !! field), ks)
      | Some {| value := VString _ |} => (Error "WRONGTYPE", ks)
      | None => (Bulk None, ks)
      end
  | HGETALL key =>
      match ks !! (db, key) with
      | Some {| value := VHash h |} => (Fields (Some h), ks)
      | Some {| value := VString _ |} => (Error "WRONGTYPE", ks)
      | None => (Fields None, ks)
      end
  | HINCRBY key (Some field) increment =>
      match ks !! (db, key) with
      | Some {| value := VHash h; ttl := t |} =>
          match h !! field with
          | Some s =>
              match integer_of_string s with
              | Some n =>
                  (Integer (n + increment),
                   <[(db, key) := {| value := VHash (<[field := Js.decimal (n + increment)]> h); ttl := t |}]> ks)
              | None => (Error "ERR hash value is not an integer", ks)
              end
          | None =>
              (Integer increment,
               <[(db, key) := {| value := VHash (<[field := Js.decimal increment]> h); ttl := t |}]> ks)
          end
      | Some {| value := VString _ |} => (Error "WRONGTYPE", ks)
      | None =>
          (Integer increment,
           <[(db, key) := {| value := VHash {[field := Js.decimal increment]}; ttl := None |}]> ks)
      end
  | HINCRBY _ None _ => (Error "ERR wrong number of arguments", ks)
  | HSET key field v =>
      match ks !! (db, key) with
      | Some {| value := VHash h; ttl := t |} =>
          (Integer (match h !! field with Some _ => 0 | None => 1 end),
           <[(db, key) := {| value := VHash (<[field := v]> h); ttl := t |}]> ks)
      | Some {| value := VString _ |} => (Error "WRONGTYPE", ks)
      | None =>
          (Integer 1, <[(db, key) := {| value := VHash {[field := v]}; ttl := None |}]> ks)
      end
  | PING => (Status "PONG", ks)
  | SELECT _ => (Status "OK", ks)
  | SET key v =>
      (Status "OK", <[(db, key) := {| value := VString v; ttl := None |}]> ks)
  end.

(** The count a hash field stands for: an absent key or field counts as
    0; [None] when the key is not a hash or the field not an integer. *)
Definition counter (ks : Keyspace) (db : Z) (key field : string) : option Z :=
  match ks !! (db, key) with
  | Some {| value := VHash h |} =>
      match h !! field with
      | Some s => integer_of_string s
      | None => Some 0
      end
  | Some {| value := VString _ |} => None
  | None => Some 0
  end.

(** The hash stored under a key, if the key holds one. *)
Definition hash_at (ks : Keyspace) (db : Z) (key : string) : option (gmap string string) :=
  match ks !! (db, key) with
  | Some {| value := VHash h |} => Some h
  | _ => None
  end.

Definition ttl_at (ks : Keyspace) (db : Z) (key : string) : option Z :=
  match ks !! (db, key) with
  | Some e => ttl e
  | None => None
  end.

Definition is_error (r : Reply) : bool :=
  match r with Error _ => true | _ => false end.

End Redis.

(** ** Promises

    A promise-returning computation runs on the world: the manager
    object, the key space of the server, the faults the transport is
    going to suffer, one entry for each command sent in turn, and two
    ghost records, of the requests handed to a connection and of the
    failures raised.  It ends resolved with a value or rejected with a
    failure. *)

Inductive Failure : Type :=
| NotEnabled
| MetricsClientNotReady
| ClientNotReady
| TransportError
| ReplyError (message : string)
| SyntaxError
| TypeError.

Inductive Outcome (A : Type) : Type :=
| Resolved (a : A)
| Rejected (e : Failure).
Arguments Resolved {A} a.
Arguments Rejected {A} e.

Record RedisConfig : Type := {
  host : string;
  port : string;
  auth_pass : option string;
  enable_offline_queue : bool;
  retry_max_delay : Z;
  max_attempts : Z;
  tls_rejectUnauthorized : option bool
}.

(** [redis.RedisClient]: the options it was created with, whether the
    connection is ready, and the database it has selected. *)
Record RedisClient : Type := {
  options : RedisConfig;
  ready : bool;
  selected : Z
}.

(** The fields of the class.  The promisified clients wrap the clients
    and have no state of their own.  The memoized promise is kept as
    what it settles to; a promise that is going to be rejected stands
    for an attempt in flight that fails. *)
Record RedisManager : Type := {
  _opsClient : option RedisClient;
  _metricsClient : option RedisClient;
  _setupMetricsClientPromise : option (Outcome unit)
}.

Inductive Handle : Type := Ops | Metrics.

Record World : Type := {
  manager : RedisManager;
  keyspace : Redis.Keyspace;
  faults : list bool;
  issued : list (Handle * Redis.Request);
  raised : list Failure
}.

Definition Promise (A : Type) : Type := World -> Outcome A * World.

Definition resolve {A : Type} (a : A) : Promise A :=
  fun w => (Resolved a, w).

(** [q.reject(err)], or [throw err] inside a handler. *)
Definition reject {A : Type} (e : Failure) : Promise A :=
  fun w => (Rejected e,
            {| manager := manager w; keyspace := keyspace w; faults := faults w;
               issued := issued w; raised := (raised w ++ [e])%list |}).

(** [throw err] of a failure that was caught: nothing new is raised. *)
Definition rethrow {A : Type} (e : Failure) : Promise A :=
  fun w => (Rejected e, w).

(** [p.then(f)] *)
Definition then_ {A B : Type} (p : Promise A) (f : A -> Promise B) : Promise B :=
  fun w =>
    match p w with
    | (Resolved a, w') => f a w'
    | (Rejected e, w') => (Rejected e, w')
    end.

(** [p.catch(h)] *)
Definition catch {A : Type} (p : Promise A) (h : Failure -> Promise A) : Promise A :=
  fun w =>
    match p w with
    | (Resolved a, w') => (Resolved a, w')
    | (Rejected e, w') => h e w'
    end.

Notation "x <- p ;; q" := (then_ p (fun x => q))
  (at level 100, p at next level, right associativity).
Notation "p >> q" := (then_ p (fun _ => q))
  (at level 100, q at level 200, right associativity).

Definition DEFAULT_EXPIRY : Z := 3600.
Definition METRICS_DB : Z := 1.

Definition client_of (h : Handle) (m : RedisManager) : option RedisClient :=
  match h with
  | Ops => _opsClient m
  | Metrics => _metricsClient m
  end.

Definition with_client (h : Handle) (c : RedisClient) (m : RedisManager) : RedisManager :=
  match h with
  | Ops => {| _opsClient := Some c; _metricsClient := _metricsClient m;
              _setupMetricsClientPromise := _setupMetricsClientPromise m |}
  | Metrics => {| _opsClient := _opsClient m; _metricsClient := Some c;
                  _setupMetricsClientPromise := _setupMetricsClientPromise m |}
  end.

Definition with_setup (p : option (Outcome unit)) (m : RedisManager) : RedisManager :=
  {| _opsClient := _opsClient m; _metricsClient := _metricsClient m;
     _setupMetricsClientPromise := p |}.

(** [get isEnabled()] *)
Definition isEnabled (m : RedisManager) : bool :=
  bool_decide (is_Some (_opsClient m)) && bool_decide (is_Some (_metricsClient m)).

(** The process environment the constructor reads. *)
Record Env : Type := {
  REDIS_HOST : option string;
  REDIS_PORT : option string;
  REDIS_KEY : option string;
  REDIS_TLS : option string
}.

(** [redis.createClient]: a client that has yet to connect. *)
Definition createClient (config : RedisConfig) : RedisClient :=
  {| options := config; ready := false; selected := 0 |}.

Definition constructor (env : Env) : RedisManager :=
  match REDIS_HOST env, REDIS_PORT env with
  | Some h, Some p =>
      if Js.truthy h && Js.truthy p then
        let redisConfig :=
          {| host := h; port := p; auth_pass := REDIS_KEY env;
             enable_offline_queue := true; retry_max_delay := 5000; max_attempts := 5;
             tls_rejectUnauthorized :=
               match REDIS_TLS env with
               | Some t => if String.eqb t "true" then Some true else None
               | None => None
               end |} in
        {| _opsClient := Some (createClient redisConfig);
           _metricsClient := Some (createClient redisConfig);
           _setupMetricsClientPromise := None |}
      else
        {| _opsClient := None; _metricsClient := None; _setupMetricsClientPromise := None |}
  | _, _ =>
      {| _opsClient := None; _metricsClient := None; _setupMetricsClientPromise := None |}
  end.

Definition client_ready (c : option RedisClient) : bool :=
  match c with
  | Some c => ready c
  | None => false
  end.

Definition set_manager (m : RedisManager) (w : World) : World :=
  {| manager := m; keyspace := keyspace w; faults := faults w;
     issued := issued w; raised := raised w |}.

(** What a reply is read as by the caller that awaits it; a reply of
    another shape does not arise for the command it answers. *)
Definition as_number (r : Redis.Reply) : Z :=
  match r with Redis.Integer n => n | _ => 0 end.

Definition as_string (r : Redis.Reply) : option string :=
  match r with Redis.Bulk s => s | _ => None end.

Definition as_object (r : Redis.Reply) : option (gmap string string) :=
  match r with Redis.Fields h => h | _ => None end.

(** [interface CacheableResponse] *)
Record CacheableResponse : Type := {
  statusCode : Z;
  body : Js.JsValue
}.

(** The object a response is. *)
Definition response_object (r : CacheableResponse) : Js.JsValue :=
  Js.JsObject [("statusCode", Js.JsNum (Js.JsFinite (inject_Z (statusCode r))));
               ("body", body r)].

(** [interface DeploymentMetrics], with the values the conversion of
    [getMetricsWithDeploymentKey] leaves in it. *)
Abbreviation DeploymentMetrics := (gmap string Js.JsValue).

Section Manager.

(** What the client sends for an argument that is [null]: the text
    node-redis 2 converts it to, or nothing when the client refuses the
    command, as node-redis 3 does. *)
Context (null_argument : option string).

(** [JSON.stringify] and [JSON.parse]; the latter throws on [None]. *)
Context (JSON_stringify : Js.JsValue -> string).
Context (JSON_parse : string -> option Js.JsValue).

Definition encode (cmd : Redis.Command) : option Redis.Command :=
  match cmd with
  | Redis.HINCRBY key None increment =>
      match null_argument with
      | Some field => Some (Redis.HINCRBY key (Some field) increment)
      | None => None
      end
  | _ => Some cmd
  end.

(** One command on a connection. *)
Definition send (c : RedisClient) (cmd : Redis.Command) (ks : Redis.Keyspace)
  : Redis.Reply * RedisClient * Redis.Keyspace :=
  match encode cmd with
  | None => (Redis.Error "invalid argument type", c, ks)
  | Some (Redis.SELECT index) =>
      if (0 <=? index) && (index <? Redis.DATABASES) then
        (Redis.Status "OK", {| options := options c; ready := ready c; selected := index |}, ks)
      else (Redis.Error "ERR DB index is out of range", c, ks)
  | Some cmd' =>
      let (r, ks') := Redis.exec (selected c) cmd' ks in (r, c, ks')
  end.

(** The queue of a batch, in order; a command that fails leaves its
    error among the replies and does not stop the others. *)
Fixpoint send_all (c : RedisClient) (cmds : list Redis.Command) (ks : Redis.Keyspace)
  : list Redis.Reply * RedisClient * Redis.Keyspace :=
  match cmds with
  | [] => ([], c, ks)
  | cmd :: rest =>
      let '(r, c1, ks1) := send c cmd ks in
      let '(rs, c2, ks2) := send_all c1 rest ks1 in
      (r :: rs, c2, ks2)
  end.

(** A request on a connection, when nothing fails on the way.  The queue
    of a batch is a pipeline: [client.batch()] sends its commands one
    after another, without [MULTI] and [EXEC] around them, and the store
    takes them one at a time. *)
Definition perform (c : RedisClient) (req : Redis.Request) (ks : Redis.Keyspace)
  : Redis.Reply * RedisClient * Redis.Keyspace :=
  match req with
  | Redis.Single cmd => send c cmd ks
  | Redis.Batch cmds =>
      let '(rs, c', ks') := send_all c cmds ks in (Redis.Replies rs, c', ks')
  end.


(** The commands of a queue that reach the store under the faults of the
    transport, one entry of which stands for each command sent: a fault
    cuts the pipeline at the command it falls on, which is lost with
    those behind it.  With them, the entries that are left. *)
Fixpoint delivered (cmds : list Redis.Command) (fs : list bool)
  : list Redis.Command * list bool :=
  match cmds with
  | [] => ([], fs)
  | cmd :: rest =>
      match fs with
      | true :: fs' => ([], fs')
      | _ => let (done, fs') := delivered rest (tail fs) in (cmd :: done, fs')
      end
  end.

(** The replies [exec] gives for the commands of a queue that were lost. *)
Definition aborted (cmds done : list Redis.Command) : list Redis.Reply :=
  map (fun _ => Redis.Error "command aborted") (drop (length done) cmds).

(** A method of [PromisifiedRedisClient].  A single command is rejected
    by a fault of the transport, which leaves the store as it is, and by
    an error reply.  [execBatch] is not rejected: [exec] of a batch calls
    back with the replies of its commands, the errors among them, and
    the commands sent before a fault have taken effect. *)
Definition call (h : Handle) (req : Redis.Request) : Promise Redis.Reply :=
  fun w =>
    match client_of h (manager w) with
    | None => reject TypeError w
    | Some c =>
        match req with
        | Redis.Single cmd =>
            match faults w with
            | true :: fs =>
                (Rejected TransportError,
                 {| manager := manager w; keyspace := keyspace w; faults := fs;
                    issued := (issued w ++ [(h, req)])%list;
                    raised := (raised w ++ [TransportError])%list |})
            | fs =>
                let '(r, c', ks') := send c cmd (keyspace w) in
                match r with
                | Redis.Error message =>
                    (Rejected (ReplyError message),
                     {| manager := with_client h c' (manager w); keyspace := ks';
                        faults := tail fs; issued := (issued w ++ [(h, req)])%list;
                        raised := (raised w ++ [ReplyError message])%list |})
                | _ =>
                    (Resolved r,
                     {| manager := with_client h c' (manager w); keyspace := ks';
                        faults := tail fs; issued := (issued w ++ [(h, req)])%list;
                        raised := raised w |})
                end
            end
        | Redis.Batch cmds =>
            let (done, fs) := delivered cmds (faults w) in
            let '(rs, c', ks') := send_all c done (keyspace w) in
            (Resolved (Redis.Replies (rs ++ aborted cmds done)),
             {| manager := with_client h c' (manager w); keyspace := ks'; faults := fs;
                issued := (issued w ++ [(h, req)])%list; raised := raised w |})
        end
    end.

Definition _safeCall (h : Handle) (req : Redis.Request) : Promise Redis.Reply :=
  fun w =>
    if negb (isEnabled (manager w)) || negb (client_ready (client_of h (manager w)))
    then reject ClientNotReady w
    else call h req w.

(** The assignment of the memoized promise. *)
Definition assign_setup (p : option (Outcome unit)) : Promise unit :=
  fun w => (Resolved tt, set_manager (with_setup p (manager w)) w).

Definition ensureMetricsSetup : Promise unit :=
  fun w =>
    if negb (isEnabled (manager w)) then reject NotEnabled w
    else
      match _setupMetricsClientPromise (manager w) with
      | Some (Resolved _) => resolve tt w
      | Some (Rejected e) =>
          (* the attempt in flight fails; its handler clears the memo *)
          reject e (set_manager (with_setup None (manager w)) w)
      | None =>
          if negb (client_ready (_metricsClient (manager w)))
          then reject MetricsClientNotReady w
          else
            (catch
               (call Metrics (Redis.Single (Redis.SELECT METRICS_DB)) >>
                call Metrics (Redis.Single (Redis.SET "health" "health")) >>
                assign_setup (Some (Resolved tt)))
               (fun err => assign_setup None >> rethrow err)) w
      end.

(** [checkHealth] is the one method that surfaces a failure. *)
Definition checkHealth : Promise unit :=
  fun w =>
    if negb (isEnabled (manager w)) then reject NotEnabled w
    else
      match call Ops (Redis.Single Redis.PING) w with
      | (r1, w1) =>
          match call Metrics (Redis.Single Redis.PING) w1 with
          | (r2, w2) =>
              match r1, r2 with
              | Resolved _, Resolved _ => (Resolved tt, w2)
              | Rejected e, _ => (Rejected e, w2)
              | _, Rejected e => (Rejected e, w2)
              end
          end
      end.

Definition getCachedResponse (expiryKey url : string) : Promise Js.JsValue :=
  catch
    (serializedResponse <- _safeCall Ops (Redis.Single (Redis.HGET expiryKey url)) ;;
     match as_string serializedResponse with
     | Some s =>
         if Js.truthy s then
           match JSON_parse s with
           | Some response => resolve response
           | None => reject SyntaxError
           end
         else resolve Js.JsNull
     | None => resolve Js.JsNull
     end)
    (fun _ => resolve Js.JsNull).

Definition setCachedResponse (expiryKey url : string) (response : CacheableResponse)
  : Promise unit :=
  let serializedResponse := JSON_stringify (response_object response) in
  catch
    (isExisting <- _safeCall Ops (Redis.Single (Redis.EXISTS expiryKey)) ;;
     let isNewKey := as_number isExisting =? 0 in
     _safeCall Ops (Redis.Single (Redis.HSET expiryKey url serializedResponse)) >>
     (if isNewKey
      then _safeCall Ops (Redis.Single (Redis.EXPIRE expiryKey DEFAULT_EXPIRY)) >> resolve tt
      else resolve tt) >>
     resolve tt)
    (fun _ => resolve tt).

Definition incrementLabelStatusCount (deploymentKey label status : string) : Promise unit :=
  let hash := Utilities.getDeploymentKeyLabelsHash deploymentKey in
  let field := Utilities.getLabelStatusField label status in
  catch
    (ensureMetricsSetup >>
     _safeCall Metrics (Redis.Single (Redis.HINCRBY hash field 1)) >>
     resolve tt)
    (fun _ => resolve tt).

Definition clearMetricsForDeploymentKey (deploymentKey : string) : Promise unit :=
  catch
    (ensureMetricsSetup >>
     _safeCall Metrics
       (Redis.Single (Redis.DEL [Utilities.getDeploymentKeyLabelsHash deploymentKey;
                                 Utilities.getDeploymentKeyClientsHash deploymentKey])) >>
     resolve tt)
    (fun _ => resolve tt).

(** The conversion applied to each field of the reply: a value that is
    not [NaN] as a number is replaced by that number. *)
Definition parseMetric (v : string) : Js.JsValue :=
  if negb (Js.isNaN v) then Js.JsNum (Js.ToNumber v) else Js.JsStr v.

(** [None] is the [null] the promise resolves to. *)
Definition getMetricsWithDeploymentKey (deploymentKey : string)
  : Promise (option DeploymentMetrics) :=
  catch
    (ensureMetricsSetup >>
     metrics <- _safeCall Metrics
                  (Redis.Single (Redis.HGETALL (Utilities.getDeploymentKeyLabelsHash deploymentKey))) ;;
     match as_object metrics with
     | Some fields => resolve (Some (parseMetric <$> fields))
     | None => resolve None
     end)
    (fun _ => resolve None).

Definition recordUpdate (currentDeploymentKey currentLabel : string)
    (previousDeploymentKey previousLabel : option string) : Promise unit :=
  catch
    (ensureMetricsSetup >>
     (let currentDeploymentKeyLabelsHash := Utilities.getDeploymentKeyLabelsHash currentDeploymentKey in
      let currentLabelActiveField := Utilities.getLabelActiveCountField currentLabel in
      let currentLabelDeploymentSucceededField :=
        Utilities.getLabelStatusField currentLabel DEPLOYMENT_SUCCEEDED in
      let batchClient :=
        ([Redis.HINCRBY currentDeploymentKeyLabelsHash currentLabelActiveField 1;
          Redis.HINCRBY currentDeploymentKeyLabelsHash currentLabelDeploymentSucceededField 1] ++
         match previousDeploymentKey, previousLabel with
         | Some previousKey, Some previous =>
             if Js.truthy previousKey && Js.truthy previous then
               [Redis.HINCRBY (Utilities.getDeploymentKeyLabelsHash previousKey)
                  (Utilities.getLabelActiveCountField previous) (-1)]
             else []
         | _, _ => []
         end)%list in
      _safeCall Metrics (Redis.Batch batchClient)) >>
     resolve tt)
    (fun _ => resolve tt).

Definition removeDeploymentKeyClientActiveLabel (deploymentKey clientUniqueId : string)
  : Promise unit :=
  catch
    (ensureMetricsSetup >>
     _safeCall Metrics
       (Redis.Single (Redis.HDEL (Utilities.getDeploymentKeyClientsHash deploymentKey) clientUniqueId)) >>
     resolve tt)
    (fun _ => resolve tt).

Definition invalidateCache (expiryKey : string) : Promise unit :=
  fun w =>
    if negb (isEnabled (manager w)) then resolve tt w
    else
      catch
        (_safeCall Ops (Redis.Single (Redis.DEL [expiryKey])) >> resolve tt)
        (fun _ => resolve tt) w.

(** [None] is the [null] the promise resolves to. *)
Definition getCurrentActiveLabel (deploymentKey clientUniqueId : string)
  : Promise (option string) :=
  catch
    (ensureMetricsSetup >>
     label <- _safeCall Metrics
                (Redis.Single (Redis.HGET (Utilities.getDeploymentKeyClientsHash deploymentKey)
                                 clientUniqueId)) ;;
     resolve (as_string label))
    (fun _ => resolve None).

Definition updateActiveAppForClient (deploymentKey clientUniqueId toLabel : string)
    (fromLabel : option string) : Promise unit :=
  catch
    (ensureMetricsSetup >>
     (let deploymentKeyLabelsHash := Utilities.getDeploymentKeyLabelsHash deploymentKey in
      let deploymentKeyClientsHash := Utilities.getDeploymentKeyClientsHash deploymentKey in
      let toLabelActiveField := Utilities.getLabelActiveCountField toLabel in
      let batchClient :=
        ([Redis.HSET deploymentKeyClientsHash clientUniqueId toLabel;
          Redis.HINCRBY deploymentKeyLabelsHash toLabelActiveField 1] ++
         match fromLabel with
         | Some from =>
             if Js.truthy from then
               [Redis.HINCRBY deploymentKeyLabelsHash (Utilities.getLabelActiveCountField from) (-1)]
             else []
         | None => []
         end)%list in
      _safeCall Metrics (Redis.Batch batchClient)) >>
     resolve tt)
    (fun _ => resolve tt).

(** The public methods of the cache and of the aggregator, as one type
    of calls, and what a call resolves to. *)
Inductive Call : Type :=
| GetCachedResponse (expiryKey url : string)
| SetCachedResponse (expiryKey url : string) (response : CacheableResponse)
| InvalidateCache (expiryKey : string)
| IncrementLabelStatusCount (deploymentKey label status : string)
| RecordUpdate (currentDeploymentKey currentLabel : string)
    (previousDeploymentKey previousLabel : option string)
| GetMetricsWithDeploymentKey (deploymentKey : string)
| ClearMetricsForDeploymentKey (deploymentKey : string)
| RemoveDeploymentKeyClientActiveLabel (deploymentKey clientUniqueId : string)
| GetCurrentActiveLabel (deploymentKey clientUniqueId : string)
| UpdateActiveAppForClient (deploymentKey clientUniqueId toLabel : string)
    (fromLabel : option string).

Inductive Answer : Type :=
| Void
| Response (v : Js.JsValue)
| MetricsOf (m : option DeploymentMetrics)
| Label (l : option string).

Definition map_promise {A B : Type} (f : A -> B) (p : Promise A) : Promise B :=
  a <- p ;; resolve (f a).

Definition invoke (c : Call) : Promise Answer :=
  match c with
  | GetCachedResponse k u => map_promise Response (getCachedResponse k u)
  | SetCachedResponse k u r => map_promise (fun _ => Void) (setCachedResponse k u r)
  | InvalidateCache k => map_promise (fun _ => Void) (invalidateCache k)
  | IncrementLabelStatusCount d l st =>
      map_promise (fun _ => Void) (incrementLabelStatusCount d l st)
  | RecordUpdate d l pd pl => map_promise (fun _ => Void) (recordUpdate d l pd pl)
  | GetMetricsWithDeploymentKey d => map_promise MetricsOf (getMetricsWithDeploymentKey d)
  | ClearMetricsForDeploymentKey d =>
      map_promise (fun _ => Void) (clearMetricsForDeploymentKey d)
  | RemoveDeploymentKeyClientActiveLabel d c =>
      map_promise (fun _ => Void) (removeDeploymentKeyClientActiveLabel d c)
  | GetCurrentActiveLabel d c => map_promise Label (getCurrentActiveLabel d c)
  | UpdateActiveAppForClient d c t f =>
      map_promise (fun _ => Void) (updateActiveAppForClient d c t f)
  end.

(** The benign default of a call: [null] for the three reads, completion
    without a value for the writes. *)
Definition benign (c : Call) : Answer :=
  match c with
  | GetCachedResponse _ _ => Response Js.JsNull
  | GetMetricsWithDeploymentKey _ => MetricsOf None
  | GetCurrentActiveLabel _ _ => Label None
  | _ => Void
  end.

End Manager.

(** ** The memoized setup, call by call

    [ensureMetricsSetup] above runs an attempt to its end.  Here the
    calls and the replies of the store are separate events, so that a
    call may arrive while an attempt is in flight.  A promise of the
    setup is named by the number of the attempt that created it. *)
Module Setup.

Inductive Stage : Type :=
| AwaitSelect
| AwaitSet
| Fulfilled
| Failed.

Record State : Type := {
  enabled : bool;
  memo : option nat;
  attempts : list Stage;
  sent : list (nat * Redis.Command)
}.

Inductive Event : Type :=
| CallSetup (metrics_ready : bool)
| SelectReply (attempt : nat) (ok : bool)
| SetReply (attempt : nat) (ok : bool).

(** What a call of [ensureMetricsSetup] returns: the memoized promise
    of an attempt, or a promise rejected on the spot. *)
Inductive Returned : Type :=
| PromiseOf (attempt : nat)
| RejectedNow (e : Failure).

Definition init (is_enabled : bool) : State :=
  {| enabled := is_enabled; memo := None; attempts := []; sent := [] |}.

Definition set_stage (i : nat) (st : Stage) (s : State) : State :=
  {| enabled := enabled s; memo := memo s;
     attempts := <[i := st]> (attempts s); sent := sent s |}.

(** The handler of the attempt's [catch]: it clears the memo, whatever
    the memo holds, and the promise of the attempt is rejected. *)
Definition fail (i : nat) (s : State) : State :=
  {| enabled := enabled s; memo := None;
     attempts := <[i := Failed]> (attempts s); sent := sent s |}.

Definition ensureMetricsSetup (metrics_ready : bool) (s : State) : Returned * State :=
  if negb (enabled s) then (RejectedNow NotEnabled, s)
  else
    match memo s with
    | Some i => (PromiseOf i, s)
    | None =>
        if negb metrics_ready then (RejectedNow MetricsClientNotReady, s)
        else
          let i := length (attempts s) in
          (PromiseOf i,
           {| enabled := enabled s; memo := Some i;
              attempts := (attempts s ++ [AwaitSelect])%list;
              sent := (sent s ++ [(i, Redis.SELECT METRICS_DB)])%list |})
    end.

(** A reply is taken by the attempt that awaits it and by no other. *)
Definition step (s : State) (ev : Event) : State :=
  match ev with
  | CallSetup metrics_ready => snd (ensureMetricsSetup metrics_ready s)
  | SelectReply i ok =>
      match attempts s !! i with
      | Some AwaitSelect =>
          if ok then
            {| enabled := enabled s; memo := memo s;
               attempts := <[i := AwaitSet]> (attempts s);
               sent := (sent s ++ [(i, Redis.SET "health" "health")])%list |}
          else fail i s
      | _ => s
      end
  | SetReply i ok =>
      match attempts s !! i with
      | Some AwaitSet => if ok then set_stage i Fulfilled s else fail i s
      | _ => s
      end
  end.

Definition run (s : State) (evs : list Event) : State := foldl step s evs.

Definition in_flight (st : Stage) : bool :=
  match st with
  | AwaitSelect | AwaitSet => true
  | _ => false
  end.

Definition stage_in_flight (s : State) (i : nat) : bool :=
  match attempts s !! i with
  | Some st => in_flight st
  | None => false
  end.

Definition stage_fulfilled (s : State) (i : nat) : bool :=
  match attempts s !! i with
  | Some Fulfilled => true
  | _ => false
  end.

(** The attempts in flight, by number. *)
Definition pending (s : State) : list nat :=
  List.filter (stage_in_flight s) (seq 0 (length (attempts s))).

Definition fulfilled (s : State) : list nat :=
  List.filter (stage_fulfilled s) (seq 0 (length (attempts s))).

Definition is_select (c : nat * Redis.Command) : bool :=
  match snd c with
  | Redis.SELECT _ => true
  | _ => false
  end.

(** The number of times the setup was started. *)
Definition selects (s : State) : nat := length (List.filter is_select (sent s)).

(** An attempt is live while it is in flight and once it is fulfilled. *)
Definition live (st : Stage) : bool :=
  match st with
  | Failed => false
  | _ => true
  end.

(** The memo holds the one live attempt, if there is one. *)
Definition invariant (s : State) : Prop :=
  (forall i st, attempts s !! i = Some st -> live st = true -> memo s = Some i)
  /\ (forall i, memo s = Some i ->
                enabled s = true /\ exists st, attempts s !! i = Some st /\ live st = true).

End Setup.

(** ** A JSON codec for the examples

    The manager is stated over any [JSON.stringify] and [JSON.parse].
    This one covers the documents whose numbers are integers and whose
    strings need no escape but that of the quote and the backslash; it
    writes [null] for every other number, as [JSON.stringify] does for
    [NaN] and the infinities. *)
Module Json.

Definition quote : ascii := "034"%char.
Definition backslash : ascii := "092"%char.

Fixpoint escape (s : string) : string :=
  match s with
  | EmptyString => EmptyString
  | String c s' =>
      if (Ascii.eqb c quote || Ascii.eqb c backslash)%char
      then String backslash (String c (escape s'))
      else String c (escape s')
  end.

Definition quoted (s : string) : string :=
  String quote (escape s ++ String quote EmptyString).

Fixpoint join (sep : string) (l : list string) : string :=
  match l with
  | [] => EmptyString
  | [x] => x
  | x :: rest => x ++ sep ++ join sep rest
  end.

Definition is_undefined (v : Js.JsValue) : bool :=
  match v with Js.JsUndefined => true | _ => false end.

Fixpoint stringify (v : Js.JsValue) : string :=
  match v with
  | Js.JsUndefined => "null"
  | Js.JsNull => "null"
  | Js.JsBoolean b => if b then "true" else "false"
  | Js.JsNum (Js.JsFinite q) =>
      if (Qden q =? 1)%positive then Js.decimal (Qnum q) else "null"
  | Js.JsNum _ => "null"
  | Js.JsStr s => quoted s
  | Js.JsArray items => "[" ++ join "," (map stringify items) ++ "]"
  | Js.JsObject members =>
      "{" ++ join ","
               ((fix each (l : list (string * Js.JsValue)) : list string :=
                   match l with
                   | [] => []
                   | (k, x) :: rest =>
                       if is_undefined x then each rest
                       else (quoted k ++ ":" ++ stringify x) :: each rest
                   end) members)
          ++ "}"
  end.

Definition isJsonWhiteSpace (c : ascii) : bool :=
  let n := N_of_ascii c in ((n =? 9) || (n =? 10) || (n =? 13) || (n =? 32))%N.

Fixpoint skip (s : string) : string :=
  match s with
  | EmptyString => EmptyString
  | String c s' => if isJsonWhiteSpace c then skip s' else s
  end.

(** The body of a string literal, after its opening quote. *)
Fixpoint string_body (s : string) : option (string * string) :=
  match s with
  | EmptyString => None
  | String c s' =>
      if Ascii.eqb c quote then Some (EmptyString, s')
      else if Ascii.eqb c backslash then
        match s' with
        | String e s'' =>
            if (Ascii.eqb e quote || Ascii.eqb e backslash)%char then
              match string_body s'' with
              | Some (body, rest) => Some (String e body, rest)
              | None => None
              end
            else None
        | EmptyString => None
        end
      else
        match string_body s' with
        | Some (body, rest) => Some (String c body, rest)
        | None => None
        end
  end.

Definition keyword (k : string) (v : Js.JsValue) (s : string) : option (Js.JsValue * string) :=
  match Js.stripPrefix k s with
  | Some rest => Some (v, rest)
  | None => None
  end.

Definition integer (s : string) : option (Js.JsValue * string) :=
  let '(negative, s') :=
    match s with
    | String "-"%char r => (true, r)
    | _ => (false, s)
    end in
  let (ds, rest) := Js.spanDigits s' in
  if Js.isNil ds then None
  else
    match rest with
    | String c _ =>
        if (Ascii.eqb c "." || Ascii.eqb c "e" || Ascii.eqb c "E")%char then None
        else Some (Js.JsNum (Js.JsFinite (inject_Z (if negative then - Z.of_uint ds else Z.of_uint ds))), rest)
    | EmptyString =>
        Some (Js.JsNum (Js.JsFinite (inject_Z (if negative then - Z.of_uint ds else Z.of_uint ds))), rest)
    end.

Fixpoint value (fuel : nat) (s : string) : option (Js.JsValue * string) :=
  match fuel with
  | O => None
  | S n =>
      match skip s with
      | String c r =>
          if Ascii.eqb c "n" then keyword "null" Js.JsNull (String c r)
          else if Ascii.eqb c "t" then keyword "true" (Js.JsBoolean true) (String c r)
          else if Ascii.eqb c "f" then keyword "false" (Js.JsBoolean false) (String c r)
          else if Ascii.eqb c quote then
            match string_body r with
            | Some (body, rest) => Some (Js.JsStr body, rest)
            | None => None
            end
          else if Ascii.eqb c "[" then
            match skip r with
            | String "]"%char rest => Some (Js.JsArray [], rest)
            | _ =>
                (fix items (k : nat) (acc : list Js.JsValue) (r : string) :=
                   match k with
                   | O => None
                   | S k' =>
                       match value n r with
                       | Some (v, r1) =>
                           match skip r1 with
                           | String ","%char r2 => items k' (acc ++ [v])%list r2
                           | String "]"%char r2 => Some (Js.JsArray (acc ++ [v])%list, r2)
                           | _ => None
                           end
                       | None => None
                       end
                   end) n [] r
            end
          else if Ascii.eqb c "{" then
            match skip r with
            | String "}"%char rest => Some (Js.JsObject [], rest)
            | _ =>
                (fix members (k : nat) (acc : list (string * Js.JsValue)) (r : string) :=
                   match k with
                   | O => None
                   | S k' =>
                       match skip r with
                       | String q r0 =>
                           if Ascii.eqb q quote then
                             match string_body r0 with
                             | Some (key, r1) =>
                                 match skip r1 with
                                 | String ":"%char r2 =>
                                     match value n r2 with
                                     | Some (v, r3) =>
                                         match skip r3 with
                                         | String ","%char r4 => members k' (acc ++ [(key, v)])%list r4
                                         | String "}"%char r4 =>
                                             Some (Js.JsObject (acc ++ [(key, v)])%list, r4)
                                         | _ => None
                                         end
                                     | None => None
                                     end
                                 | _ => None
                                 end
                             | None => None
                             end
                           else None
                       | EmptyString => None
                       end
                   end) n [] r
            end
          else integer (String c r)
      | EmptyString => None
      end
  end.

Definition parse (s : string) : option Js.JsValue :=
  match value (S (String.length s)) s with
  | Some (v, rest) =>
      match skip rest with
      | EmptyString => Some v
      | _ => None
      end
  | None => None
  end.

End Json.

(** ** Worlds and counter updates, for the statements *)

(** The memoized setup agrees with the connection it was made on: a
    setup that is done has selected the metrics database. *)
Definition consistent (w : World) : Prop :=
  match _setupMetricsClientPromise (manager w), _metricsClient (manager w) with
  | Some (Resolved _), Some c => selected c = METRICS_DB
  | _, _ => True
  end.

(** The store is available: the manager is configured, both handles are
    ready, no fault of the transport is due, and the setup of the
    metrics handle is done or yet to be attempted. *)
Definition available (w : World) : Prop :=
  isEnabled (manager w) = true
  /\ client_ready (_opsClient (manager w)) = true
  /\ client_ready (_metricsClient (manager w)) = true
  /\ faults w = []
  /\ consistent w
  /\ (forall e, _setupMetricsClientPromise (manager w) <> Some (Rejected e)).

(** An update of a counter: the key of the hash, the field, and what is
    added to it. *)
Definition Update : Type := string * string * Z.

Definition hincrby_of (u : Update) : Redis.Command :=
  Redis.HINCRBY (fst (fst u)) (Some (snd (fst u))) (snd u).

(** The sum of what a list of updates adds to one counter. *)
Fixpoint net (us : list Update) (key field : string) : Z :=
  match us with
  | [] => 0
  | (k, f, d) :: rest =>
      (if String.eqb k key && String.eqb f field then d else 0) + net rest key field
  end.

Definition readable (ks : Redis.Keyspace) (us : list Update) : Prop :=
  Forall (fun u => is_Some (Redis.counter ks METRICS_DB (fst (fst u)) (snd (fst u)))) us.



(** A variable of the environment is absent when it is unset or empty. *)
Definition absent (v : option string) : Prop := v = None \/ v = Some EmptyString.

Definition is_expire (r : Handle * Redis.Request) : bool :=
  match snd r with
  | Redis.Single (Redis.EXPIRE _ _) => true
  | _ => false
  end.

(** The handle a call goes through. *)
Definition handle_of {A : Type} (cache metrics : A) (c : Call) : A :=
  match c with
  | GetCachedResponse _ _ | SetCachedResponse _ _ _ | InvalidateCache _ => cache
  | _ => metrics
  end.

(** A call is blocked when the manager is not configured, when its
    handle is not ready, or when the transport fails on the next
    command sent. *)
Definition blocked (h : Handle) (w : World) : Prop :=
  isEnabled (manager w) = false
  \/ client_ready (client_of h (manager w)) = false
  \/ exists fs, faults w = true :: fs.

(** The part of a request that reaches the store under the faults due,
    the entries its commands leave, and what the call settles to on the
    reply of that part. *)
Definition reaching (req : Redis.Request) (fs : list bool) : Redis.Request :=
  match req with
  | Redis.Single _ => req
  | Redis.Batch cmds => Redis.Batch (fst (delivered cmds fs))
  end.

Definition left_over (req : Redis.Request) (fs : list bool) : list bool :=
  match req with
  | Redis.Single _ => tail fs
  | Redis.Batch cmds => snd (delivered cmds fs)
  end.

Definition settled (req : Redis.Request) (fs : list bool) (r : Redis.Reply)
  : Outcome Redis.Reply :=
  match req with
  | Redis.Single _ =>
      match r with
      | Redis.Error m => Rejected (ReplyError m)
      | _ => Resolved r
      end
  | Redis.Batch cmds =>
      match r with
      | Redis.Replies rs =>
          Resolved (Redis.Replies (rs ++ aborted cmds (fst (delivered cmds fs))))
      | _ => Resolved r
      end
  end.

(** The world once requests were performed without fault: the key space
    they led to and the requests, after those issued before. *)
Definition after (w : World) (ks : Redis.Keyspace) (reqs : list (Handle * Redis.Request))
  : World :=
  {| manager := manager w; keyspace := ks; faults := [];
     issued := (issued w ++ reqs)%list; raised := raised w |}.

(** What the cache answers for a url under a key, read off the store. *)
Definition cached (JSON_parse : string -> option Js.JsValue)
    (ks : Redis.Keyspace) (db : Z) (expiryKey url : string) : Js.JsValue :=
  match Redis.hash_at ks db expiryKey with
  | Some h =>
      match h !! url with
      | Some s => if Js.truthy s then default Js.JsNull (JSON_parse s) else Js.JsNull
      | None => Js.JsNull
      end
  | None => Js.JsNull
  end.

Definition holds_string (ks : Redis.Keyspace) (db : Z) (key : string) : bool :=
  match ks !! (db, key) with
  | Some {| Redis.value := Redis.VString _ |} => true
  | _ => false
  end.

Definition is_select_command (cmd : Redis.Command) : bool :=
  match cmd with
  | Redis.SELECT _ => true
  | _ => false
  end.

(** A request that leaves the selected database as it is. *)
Definition no_select (req : Redis.Request) : bool :=
  match req with
  | Redis.Single cmd => negb (is_select_command cmd)
  | Redis.Batch cmds => forallb (fun cmd => negb (is_select_command cmd)) cmds
  end.

(** A computation keeps the memoized setup and the connection in
    agreement. *)
Definition keeps_consistent {A : Type} (p : Promise A) : Prop :=
  forall w, consistent w -> consistent (snd (p w)).

(** The requests of the metrics setup. *)
Definition is_setup_request (q : Handle * Redis.Request) : Prop :=
  q = (Metrics, Redis.Single (Redis.SELECT METRICS_DB))
  \/ q = (Metrics, Redis.Single (Redis.SET "health" "health")).

(** A computation is clean when it raises nothing unless it is rejected. *)
Definition clean {A : Type} (p : Promise A) : Prop :=
  forall w a w', p w = (Resolved a, w') -> raised w' = raised w.

(** The three requests of [setCachedResponse]. *)
Definition set_requests (expiryKey url serialized : string) : list (Handle * Redis.Request) :=
  [(Ops, Redis.Single (Redis.EXISTS expiryKey));
   (Ops, Redis.Single (Redis.HSET expiryKey url serialized));
   (Ops, Redis.Single (Redis.EXPIRE expiryKey DEFAULT_EXPIRY))].

(** ** Worlds for the examples *)
Module Example.

Definition env : Env :=
  {| REDIS_HOST := Some "redis"; REDIS_PORT := Some "6379";
     REDIS_KEY := None; REDIS_TLS := Some "true" |}.

Definition no_env : Env :=
  {| REDIS_HOST := None; REDIS_PORT := Some "6379";
     REDIS_KEY := None; REDIS_TLS := None |}.

(** A client once its connection is up. *)
Definition connected (c : RedisClient) : RedisClient :=
  {| options := options c; ready := true; selected := selected c |}.

Definition connect (m : RedisManager) : RedisManager :=
  {| _opsClient := connected <$> _opsClient m;
     _metricsClient := connected <$> _metricsClient m;
     _setupMetricsClientPromise := _setupMetricsClientPromise m |}.

Definition world_of (m : RedisManager) (fs : list bool) : World :=
  {| manager := m; keyspace := ∅; faults := fs; issued := []; raised := [] |}.

(** A configured manager with both connections up, on an empty store. *)
Definition fresh : World := world_of (connect (constructor env)) [].

(** The same manager before its connections are up. *)
Definition connecting : World := world_of (constructor env) [].

(** A manager without configuration. *)
Definition unconfigured : World := world_of (constructor no_env) [].

Definition ok_response : CacheableResponse :=
  {| statusCode := 200; body := Js.JsObject [("ok", Js.JsBoolean true)] |}.

Definition other_response : CacheableResponse :=
  {| statusCode := 304; body := Js.JsNull |}.

(** The options and the client the constructor arrives at for [env]. *)
Definition config : RedisConfig :=
  {| host := "redis"; port := "6379"; auth_pass := None;
     enable_offline_queue := true; retry_max_delay := 5000; max_attempts := 5;
     tls_rejectUnauthorized := Some true |}.

Definition client : RedisClient := connected (createClient config).

(** The store once a response was cached for another url. *)
Definition warm : World :=
  snd (setCachedResponse None Json.stringify "v1" "https://host/other" other_response fresh).

(** The store once a download of [v3] was reported three times. *)
Definition counted : World :=
  snd ((incrementLabelStatusCount None "dep1" "v3" "Downloaded" >>
        incrementLabelStatusCount None "dep1" "v3" "Downloaded" >>
        incrementLabelStatusCount None "dep1" "v3" "Downloaded") fresh).

(** A store in which a counter was overwritten with a blank. *)
Definition blanked : World :=
  {| manager := manager fresh;
     keyspace :=
       {[ (METRICS_DB, "deploymentKeyLabels:dep1") :=
            {| Redis.value := Redis.VHash {[ "v1:Active" := " " ]}; Redis.ttl := None |} ]};
     faults := []; issued := []; raised := [] |}.

(** A store whose counters of [dep1] were overwritten with texts of
    several kinds. *)
Definition mixed : World :=
  {| manager := manager fresh;
     keyspace :=
       {[ (METRICS_DB, "deploymentKeyLabels:dep1") :=
            {| Redis.value :=
                 Redis.VHash
                   (list_to_map
                      [("v1:Active", "12"); ("v2:Active", "+5"); ("v3:Active", "007");
                       ("v4:Active", " 5 "); ("v5:Active", "n/a");
                       ("v6:Active", "9007199254740993"); ("v7:Active", "1e400");
                       ("v8:Active", " ")]);
               Redis.ttl := None |} ]};
     faults := []; issued := []; raised := [] |}.


End Example.

(** ** Relations between worlds, and the keys a call names *)

(** A handle is on a database when its connection, if there is one, has
    that database selected. *)
Definition on_database (h : Handle) (db : Z) (w : World) : Prop :=
  forall c, client_of h (manager w) = Some c -> selected c = db.

(** Two key spaces that agree on every database but one. *)
Definition same_outside (db : Z) (ks ks' : Redis.Keyspace) : Prop :=
  forall db' key, db' <> db -> ks' !! (db', key) = ks !! (db', key).

(** A computation respects a relation on worlds when every run of it
    takes a world to one that is related to it. *)
Definition respects {A : Type} (R : World -> World -> Prop) (p : Promise A) : Prop :=
  forall w, R w (snd (p w)).

(** The setup of the metrics handle is done. *)
Definition setup_done (w : World) : Prop :=
  exists u, _setupMetricsClientPromise (manager w) = Some (Resolved u).

(** The manager is as it was, and the requests handed over since are
    none of the setup. *)
Definition no_setup_since (w w' : World) : Prop :=
  manager w' = manager w
  /\ exists new, issued w' = (issued w ++ new)%list
                 /\ Forall (fun q => ~ is_setup_request q) new.

(** The manager is as it was, and a handle on a database has left the
    other databases alone. *)
Definition kept_to (h : Handle) (db : Z) (w w' : World) : Prop :=
  manager w' = manager w
  /\ (on_database h db w -> same_outside db (keyspace w) (keyspace w')).

(** A store that was available is available still. *)
Definition stays_available (w w' : World) : Prop := available w -> available w'.

(** The keys a command names. *)
Definition keys_of (cmd : Redis.Command) : list string :=
  match cmd with
  | Redis.DEL keys => keys
  | Redis.EXISTS key | Redis.EXPIRE key _ | Redis.HDEL key _ | Redis.HGET key _
  | Redis.HGETALL key | Redis.HINCRBY key _ _ | Redis.HSET key _ _ | Redis.SET key _ => [key]
  | Redis.PING | Redis.SELECT _ => []
  end.

Definition request_keys (req : Redis.Request) : list string :=
  match req with
  | Redis.Single cmd => keys_of cmd
  | Redis.Batch cmds => concat (map keys_of cmds)
  end.

(** The label the aggregator has recorded for a client, read off the
    store. *)
Definition active_label (ks : Redis.Keyspace) (deploymentKey clientUniqueId : string)
  : option string :=
  match Redis.hash_at ks METRICS_DB (Utilities.getDeploymentKeyClientsHash deploymentKey) with
  | Some h => h !! clientUniqueId
  | None => None
  end.

(** The key a call of the cache names. *)
Definition cache_key (c : Call) : list string :=
  match c with
  | GetCachedResponse k _ | SetCachedResponse k _ _ | InvalidateCache k => [k]
  | _ => []
  end.

(** A computation run a number of times, one run after the other. *)
Fixpoint times (n : nat) (p : Promise unit) : Promise unit :=
  match n with
  | O => resolve tt
  | S n' => then_ p (fun _ => times n' p)
  end.

(** The deployment keys a call of the aggregator names. *)
Definition deployments_of (c : Call) : list string :=
  match c with
  | IncrementLabelStatusCount d _ _ | GetMetricsWithDeploymentKey d
  | ClearMetricsForDeploymentKey d | RemoveDeploymentKeyClientActiveLabel d _
  | GetCurrentActiveLabel d _ | UpdateActiveAppForClient d _ _ _ => [d]
  | RecordUpdate d _ previous _ =>
      d :: match previous with Some p => [p] | None => [] end
  | _ => []
  end.

(** The updates of the active counts that [updateActiveAppForClient]
    queues: the label the client moves to and, when it is given and
    non-empty, the label it moves from. *)
Definition switch_updates (deploymentKey toLabel : string) (fromLabel : option string)
  : list Update :=
  (Utilities.getDeploymentKeyLabelsHash deploymentKey, toLabel ++ ":" ++ ACTIVE, 1)
  :: match fromLabel with
     | Some from =>
         if Js.truthy from then
           [(Utilities.getDeploymentKeyLabelsHash deploymentKey, from ++ ":" ++ ACTIVE, -1)]
         else []
     | None => []
     end.

(** ** [PromisifiedRedisClient]

    An instance starts with its thirteen properties set to [null], in
    the order of their declaration.  The constructor sets [execBatch] to
    the function that invokes [exec] on a batch, then goes through the
    properties: one that is still [null] is bound to the function of
    that name of the client, which has to exist or the assertion
    fails. *)
Module Promisified.

Definition properties : list string :=
  ["del"; "execBatch"; "exists"; "expire"; "hdel"; "hget"; "hgetall"; "hincrby"; "hset";
   "ping"; "quit"; "select"; "set"].

(** What a property holds besides [null]. *)
Inductive Function : Type :=
| InvokeExec
| Bound (functionName : string).

(** An instance, property by property; [None] is [null]. *)
Abbreviation Instance := (list (string * option Function)).

Definition initial : Instance := map (fun name => (name, None)) properties.

Fixpoint assign (name : string) (f : Function) (this : Instance) : Instance :=
  match this with
  | [] => []
  | (n, v) :: rest =>
      if String.eqb n name then (n, Some f) :: rest else (n, v) :: assign name f rest
  end.

Fixpoint get (name : string) (this : Instance) : option Function :=
  match this with
  | [] => None
  | (n, v) :: rest => if String.eqb n name then v else get name rest
  end.

(** The loop over the properties: [inl] is the message of the assertion
    that failed. *)
Fixpoint bind (redisClient : string -> bool) (names : list string) (this : Instance)
  : string + Instance :=
  match names with
  | [] => inr this
  | functionName :: rest =>
      match get functionName this with
      | None =>
          if redisClient functionName
          then bind redisClient rest (assign functionName (Bound functionName) this)
          else inl ("Binding a function that does not exist: " ++ functionName)
      | Some _ => bind redisClient rest this
      end
  end.

(** [redisClient] tells which names are functions of the client. *)
Definition constructor (redisClient : string -> bool) : string + Instance :=
  let this := assign "execBatch" InvokeExec initial in
  bind redisClient (map fst this) this.

(** The name of the method a request goes through. *)
Definition methodName (req : Redis.Request) : string :=
  match req with
  | Redis.Batch _ => "execBatch"
  | Redis.Single cmd =>
      match cmd with
      | Redis.DEL _ => "del"
      | Redis.EXISTS _ => "exists"
      | Redis.EXPIRE _ _ => "expire"
      | Redis.HDEL _ _ => "hdel"
      | Redis.HGET _ _ => "hget"
      | Redis.HGETALL _ => "hgetall"
      | Redis.HINCRBY _ _ _ => "hincrby"
      | Redis.HSET _ _ _ => "hset"
      | Redis.PING => "ping"
      | Redis.SELECT _ => "select"
      | Redis.SET _ _ => "set"
      end
  end.

(** The commands of the client that the constructor binds. *)
Definition commands : list string :=
  List.filter (fun name => negb (String.eqb name "execBatch")) properties.

End Promisified.

(** ** [close]

    Whether a connection is up and what [quit] does on it are not part
    of the world above; [close] is taken over both. *)
Section Close.

Context (connected : Handle -> World -> bool).
Context (quit : Handle -> Promise unit).

Definition close : Promise unit :=
  fun w =>
    match _opsClient (manager w), _metricsClient (manager w) with
    | None, None => resolve tt w
    | _, _ =>
        catch
          ((fun w1 =>
              if bool_decide (is_Some (_opsClient (manager w1))) && connected Ops w1
              then quit Ops w1 else resolve tt w1) >>
           (fun w2 =>
              if bool_decide (is_Some (_metricsClient (manager w2))) && connected Metrics w2
              then quit Metrics w2 else resolve tt w2) >>
           resolve tt)
          (fun _ => resolve tt) w
    end.

End Close.

(** ** More worlds for the examples *)
Module Sample.

(** A store in which the count of downloads of [v1] was overwritten
    with a blank. *)
Definition garbled : World :=
  {| manager := manager Example.fresh;
     keyspace :=
       {[ (METRICS_DB, "deploymentKeyLabels:dep1") :=
            {| Redis.value := Redis.VHash {[ "v1:Downloaded" := " " ]}; Redis.ttl := None |} ]};
     faults := []; issued := []; raised := [] |}.

(** The store once a client of [dep1] was recorded on [v1]. *)
Definition recorded : World :=
  snd (updateActiveAppForClient None "dep1" "client1" "v1" None Example.fresh).

(** A client that answers to the commands the manager uses. *)
Definition redisClient (name : string) : bool :=
  bool_decide (name ∈ Promisified.commands).

End Sample.

(** * Properties *)

(** ** Numbers and their decimal form *)

Lemma Qred_inject_Z (n : Z) : Qred (inject_Z n) = inject_Z n.
Proof.
  unfold Qred, inject_Z.
  pose proof (Z.ggcd_gcd n 1) as Hg.
  pose proof (Z.ggcd_correct_divisors n 1) as Hd.
  destruct (Z.ggcd n 1) as [g [a b]]. simpl in *.
  rewrite Z.gcd_1_r in Hg. subst g.
  destruct Hd as [Ha Hb].
  rewrite Z.mul_1_l in Ha, Hb. subst a b. reflexivity.
Qed.

Lemma spanDigits_string_of_uint (d : uint) :
  Js.spanDigits (NilEmpty.string_of_uint d) = (d, EmptyString).
Proof.
  induction d; simpl; try rewrite IHd; reflexivity.
Qed.

Lemma of_uint_to_uint (p : positive) : Z.of_uint (Pos.to_uint p) = Z.pos p.
Proof. exact (DecimalZ.of_to (Z.pos p)). Qed.

Lemma unsigned_literal_of_uint (d : uint) :
  d <> Nil ->
  Js.strUnsignedDecimalLiteral (NilEmpty.string_of_uint d)
  = Some (Js.JsFinite (inject_Z (Z.of_uint d)), EmptyString).
Proof.
  intros Hd.
  assert (Hp : Js.stripPrefix "Infinity" (NilEmpty.string_of_uint d) = None).
  { destruct d; reflexivity. }
  unfold Js.strUnsignedDecimalLiteral. rewrite Hp, spanDigits_string_of_uint.
  assert (Hn : Js.isNil d = false) by (destruct d; try reflexivity; congruence).
  rewrite Hn. cbn [andb Js.exponentPart nb_digits Z.of_nat].
  do 3 f_equal.
  rewrite <- (Qred_inject_Z (Z.of_uint d)). apply Qred_complete.
  change (Z.of_nat 0) with 0. change (Z.of_uint Nil) with 0.
  change (0 - 0) with 0. change (10 ^ 0) with 1.
  change (Qpower (inject_Z 10) 0) with 1%Q.
  replace (Z.of_uint d * 1 + 0) with (Z.of_uint d) by lia.
  unfold Qeq, Qmult, inject_Z. cbn [Qnum Qden]. lia.
Qed.

Lemma numeric_literal_of_uint (d : uint) :
  d <> Nil ->
  Js.strNumericLiteral (NilEmpty.string_of_uint d)
  = Js.strUnsignedDecimalLiteral (NilEmpty.string_of_uint d).
Proof.
  intros Hd. destruct d as [|d|d|d|d|d|d|d|d|d|d]; try reflexivity; try congruence.
  destruct d; reflexivity.
Qed.

Lemma skipWhiteSpace_of_uint (d : uint) :
  Js.skipWhiteSpace (NilEmpty.string_of_uint d) = NilEmpty.string_of_uint d.
Proof. destruct d; reflexivity. Qed.

Lemma ToNumber_literal (s : string) (n : Js.JsNumber) :
  Js.skipWhiteSpace s = s -> s <> EmptyString ->
  Js.strNumericLiteral s = Some (n, EmptyString) ->
  Js.ToNumber s = Js.roundMVResult n.
Proof.
  intros Hs Hne Hl. unfold Js.ToNumber. rewrite Hs.
  destruct s; [congruence|]. rewrite Hl. reflexivity.
Qed.

Lemma string_of_uint_nonempty (d : uint) :
  d <> Nil -> NilEmpty.string_of_uint d <> EmptyString.
Proof. destruct d; simpl; congruence. Qed.

(** ** Doubles *)

Lemma binade_integer (p : positive) : Js.binade p 1 = Z.log2 (Z.pos p).
Proof.
  unfold Js.binade. change (Z.log2 1) with 0. rewrite Z.sub_0_r.
  change (2 ^ 0) with 1. rewrite Z.mul_1_r, Z.mul_1_l.
  pose proof (Z.log2_spec (Z.pos p) ltac:(lia)) as [Hl _].
  destruct (Z.ltb_spec (Z.pos p) (2 ^ Z.log2 (Z.pos p))); [lia | reflexivity].
Qed.

Lemma Qred_scaled (n k : Z) :
  0 <= k -> Qred (Qmake (n * 2 ^ k) (Z.to_pos (2 ^ k))) = inject_Z n.
Proof.
  intros Hk. rewrite <- (Qred_inject_Z n). apply Qred_complete.
  unfold Qeq, inject_Z. cbn [Qnum Qden].
  rewrite Z2Pos.id by (apply Z.pow_pos_nonneg; lia). lia.
Qed.

(** An integer of at most 53 bits is a double. *)
Lemma roundPositive_integer (p : positive) :
  Z.pos p <= 2 ^ 53 -> Js.roundPositive p 1 = Js.JsFinite (inject_Z (Z.pos p)).
Proof.
  intros Hp.
  pose proof (Z.log2_spec (Z.pos p) ltac:(lia)) as [Hlo Hhi].
  pose proof (Z.log2_nonneg (Z.pos p)) as Hl0.
  assert (Hl53 : Z.log2 (Z.pos p) <= 53).
  { destruct (Z.le_gt_cases (Z.log2 (Z.pos p)) 53) as [H|H]; [exact H|].
    exfalso. assert (2 ^ 54 <= 2 ^ Z.log2 (Z.pos p)) by (apply Z.pow_le_mono_r; lia).
    assert (2 ^ 53 < 2 ^ 54) by (apply Z.pow_lt_mono_r; lia). lia. }
  unfold Js.roundPositive. rewrite binade_integer.
  set (L := Z.log2 (Z.pos p)) in *.
  rewrite (Z.max_l (L - 52) (-1074)) by lia.
  rewrite Z.mul_1_l.
  destruct (Z.le_gt_cases L 52) as [Hle|Hgt].
  - (* the scaling is by 2^(52-L) *)
    rewrite (Z.max_r 0 (- (L - 52))) by lia.
    rewrite (Z.max_l 0 (L - 52)) by lia.
    change (2 ^ 0) with 1. rewrite Z.div_1_r, Z.mod_1_r.
    change (2 * 0 <? 1) with true. cbv iota.
    assert (Hno : (2 ^ 1024 <=? Z.pos p * 2 ^ (- (L - 52)) * 2 ^ (L - 52)) = false).
    { apply Z.leb_gt.
      destruct (Z.eq_dec L 52) as [->|Hne].
      - change (2 ^ (52 - 52)) with 1. change (2 ^ (- (52 - 52))) with 1.
        assert (2 ^ 53 < 2 ^ 1024) by (apply Z.pow_lt_mono_r; lia). lia.
      - rewrite (Z.pow_neg_r 2 (L - 52)) by lia.
        rewrite Z.mul_0_r. apply Z.pow_pos_nonneg; lia. }
    rewrite Hno. rewrite Z.mul_1_r. f_equal. apply Qred_scaled. lia.
  - assert (HL : L = 53) by lia.
    assert (Hp53 : Z.pos p = 2 ^ 53).
    { rewrite HL in Hlo. lia. }
    clearbody L. subst L.
    injection Hp53 as ->. vm_compute. reflexivity.
Qed.

Lemma toDouble_integer (n : Z) :
  Z.abs n <= 2 ^ 53 -> Js.toDouble (inject_Z n) = Js.JsFinite (inject_Z n).
Proof.
  intros Hn. destruct n as [|p|p]; unfold Js.toDouble; cbn [Qnum Qden inject_Z].
  - reflexivity.
  - apply roundPositive_integer. lia.
  - rewrite roundPositive_integer by lia. cbn [Js.negate].
    change (- inject_Z (Z.pos p))%Q with (inject_Z (Z.neg p)).
    rewrite Qred_inject_Z. reflexivity.
Qed.

(** Rounding gives a number or an infinity. *)
Lemma roundPositive_number (n d : positive) : Js.roundPositive n d <> Js.JsNaN.
Proof.
  unfold Js.roundPositive. cbv zeta.
  match goal with |- (if ?b then _ else _) <> _ => destruct b end; discriminate.
Qed.

Lemma toDouble_number (q : Q) : Js.toDouble q <> Js.JsNaN.
Proof.
  unfold Js.toDouble. destruct (Qnum q) as [|n|n]; [discriminate| |].
  - apply roundPositive_number.
  - pose proof (roundPositive_number n (Qden q)) as H.
    destruct (Js.roundPositive n (Qden q)); [congruence | discriminate | discriminate].
Qed.

(** [+s] on the decimal form of an integer is the double nearest to the
    integer. *)
Lemma ToNumber_decimal_rounded (n : Z) :
  Js.ToNumber (Js.decimal n) = Js.toDouble (inject_Z n).
Proof.
  destruct n as [|p|p].
  - reflexivity.
  - pose proof (DecimalPos.Unsigned.to_uint_nonnil p) as Hnil.
    rewrite (ToNumber_literal _ (Js.JsFinite (inject_Z (Z.pos p)))); [reflexivity| | |].
    + apply skipWhiteSpace_of_uint.
    + apply string_of_uint_nonempty, Hnil.
    + unfold Js.decimal. simpl Z.to_int. simpl NilEmpty.string_of_int.
      rewrite numeric_literal_of_uint, unsigned_literal_of_uint by assumption.
      rewrite of_uint_to_uint. reflexivity.
  - pose proof (DecimalPos.Unsigned.to_uint_nonnil p) as Hnil.
    rewrite (ToNumber_literal _ (Js.JsFinite (inject_Z (Z.neg p)))); [reflexivity| | |].
    + reflexivity.
    + discriminate.
    + unfold Js.decimal. simpl Z.to_int. simpl NilEmpty.string_of_int.
      cbn [Js.strNumericLiteral].
      rewrite unsigned_literal_of_uint by assumption.
      rewrite of_uint_to_uint. cbn [Js.negate].
      change (- inject_Z (Z.pos p))%Q with (inject_Z (Z.neg p)).
      rewrite Qred_inject_Z. reflexivity.
Qed.

(** [+s] on the decimal form of an integer of magnitude up to 2^53 is
    that integer. *)
Lemma ToNumber_decimal (n : Z) :
  Z.abs n <= 2 ^ 53 -> Js.ToNumber (Js.decimal n) = Js.JsFinite (inject_Z n).
Proof.
  intros Hn. rewrite ToNumber_decimal_rounded. apply toDouble_integer, Hn.
Qed.

Lemma isNaN_decimal (n : Z) : Js.isNaN (Js.decimal n) = false.
Proof.
  unfold Js.isNaN. rewrite ToNumber_decimal_rounded.
  pose proof (toDouble_number (inject_Z n)) as H.
  destruct (Js.toDouble (inject_Z n)); [congruence | reflexivity | reflexivity].
Qed.

Lemma integer_of_decimal (n : Z) : Redis.integer_of_string (Js.decimal n) = Some n.
Proof.
  unfold Redis.integer_of_string, Js.decimal.
  rewrite NilEmpty.isi, DecimalZ.of_to.
  unfold Js.decimal. rewrite String.eqb_refl. reflexivity.
Qed.

Lemma skipWhiteSpace_blank (s : string) :
  Js.allWhiteSpace s = true -> Js.skipWhiteSpace s = EmptyString.
Proof.
  induction s as [|c s IH]; simpl; [reflexivity|].
  destruct (Js.isWhiteSpace c); simpl; [exact IH | discriminate].
Qed.

Lemma ToNumber_blank (s : string) :
  Js.allWhiteSpace s = true -> Js.ToNumber s = Js.JsFinite 0.
Proof.
  intros H. unfold Js.ToNumber. rewrite (skipWhiteSpace_blank s H). reflexivity.
Qed.

Example tonumber_samples :
  Js.ToNumber "42" = Js.JsFinite (Qred 42)
  /\ Js.ToNumber " -7 " = Js.JsFinite (Qred (-7))
  /\ Js.ToNumber "1.5e1" = Js.JsFinite (Qred 15)
  /\ Js.ToNumber "0x1F" = Js.JsFinite (Qred 31)
  /\ Js.ToNumber ".5" = Js.JsFinite (Qred (1 # 2))
  /\ Js.ToNumber "-Infinity" = Js.JsInfinity true
  /\ Js.ToNumber EmptyString = Js.JsFinite (Qred 0)
  /\ Js.ToNumber "v1" = Js.JsNaN
  /\ Js.ToNumber "1e" = Js.JsNaN
  /\ Js.ToNumber "." = Js.JsNaN
  /\ Js.ToNumber "0x" = Js.JsNaN
  /\ Js.ToNumber "12 3" = Js.JsNaN
  /\ Js.ToNumber "-0x10" = Js.JsNaN
  /\ Js.ToNumber "+5" = Js.JsFinite (inject_Z 5)
  /\ Js.ToNumber "007" = Js.JsFinite (inject_Z 7)
  /\ Js.ToNumber "0.1" = Js.JsFinite (Qred (3602879701896397 # 36028797018963968))
  /\ Js.ToNumber "9007199254740992" = Js.JsFinite (inject_Z 9007199254740992)
  /\ Js.ToNumber "9007199254740993" = Js.JsFinite (inject_Z 9007199254740992)
  /\ Js.ToNumber "9007199254740995" = Js.JsFinite (inject_Z 9007199254740996)
  /\ Js.ToNumber "1.7976931348623158e308" = Js.JsFinite (inject_Z ((2 ^ 53 - 1) * 2 ^ 971))
  /\ Js.ToNumber "1.7976931348623159e308" = Js.JsInfinity false
  /\ Js.ToNumber "1e400" = Js.JsInfinity false
  /\ Js.ToNumber "-1e400" = Js.JsInfinity true
  /\ Js.ToNumber "5e-324" = Js.JsFinite (Qred (1 # Z.to_pos (2 ^ 1074)))
  /\ Js.ToNumber "2e-324" = Js.JsFinite 0.
Proof. repeat split; vm_compute; reflexivity. Qed.

(** ** The store *)

Lemma counter_lookup_eq (ks ks' : Redis.Keyspace) (db : Z) (key : string) :
  ks' !! (db, key) = ks !! (db, key) ->
  forall field, Redis.counter ks' db key field = Redis.counter ks db key field.
Proof. intros H field. unfold Redis.counter. rewrite H. reflexivity. Qed.

(** [HINCRBY] on a counter that can be read adds the increment to it and
    touches nothing else. *)
Lemma hincrby_counter (db : Z) (key field : string) (d : Z) (ks : Redis.Keyspace) (n : Z) :
  Redis.counter ks db key field = Some n ->
  exists ks',
    Redis.exec db (Redis.HINCRBY key (Some field) d) ks = (Redis.Integer (n + d), ks')
    /\ Redis.counter ks' db key field = Some (n + d)
    /\ (forall field', field' <> field ->
          Redis.counter ks' db key field' = Redis.counter ks db key field')
    /\ (forall db' key', (db', key') <> (db, key) -> ks' !! (db', key') = ks !! (db', key')).
Proof.
  unfold Redis.counter, Redis.exec. intros H.
  destruct (ks !! (db, key)) as [[[s|h] t]|] eqn:E; [discriminate| |].
  - destruct (h !! field) as [s|] eqn:F.
    + rewrite H. eexists. split; [reflexivity|].
      rewrite lookup_insert_eq. rewrite lookup_insert_eq.
      split; [apply integer_of_decimal|].
      split.
      * intros f' Hf. rewrite lookup_insert_ne by congruence. reflexivity.
      * intros db' key' Hne. rewrite lookup_insert_ne by congruence. reflexivity.
    + injection H as <-. eexists. split; [reflexivity|].
      rewrite lookup_insert_eq. rewrite lookup_insert_eq.
      split; [apply integer_of_decimal|].
      split.
      * intros f' Hf. rewrite lookup_insert_ne by congruence. reflexivity.
      * intros db' key' Hne. rewrite lookup_insert_ne by congruence. reflexivity.
  - injection H as <-. eexists. split; [reflexivity|].
    rewrite lookup_insert_eq. rewrite lookup_singleton_eq.
    split; [apply integer_of_decimal|].
    split.
    + intros f' Hf. rewrite lookup_singleton_ne by congruence. reflexivity.
    + intros db' key' Hne. rewrite lookup_insert_ne by congruence. reflexivity.
Qed.

(** ** The manager *)

Lemma isEnabled_clients (m : RedisManager) :
  isEnabled m = true ->
  exists o c, _opsClient m = Some o /\ _metricsClient m = Some c.
Proof.
  unfold isEnabled. intros H. apply andb_true_iff in H as [H1 H2].
  apply bool_decide_eq_true in H1 as [o Ho]. apply bool_decide_eq_true in H2 as [c Hc].
  eauto.
Qed.

Lemma isEnabled_false (m : RedisManager) :
  isEnabled m = false <-> _opsClient m = None \/ _metricsClient m = None.
Proof.
  unfold isEnabled. destruct (_opsClient m), (_metricsClient m); simpl; split;
    intros H; try discriminate; try reflexivity; eauto; destruct H; discriminate.
Qed.

Lemma hincrby_counter_all (db : Z) (u : Update) (ks : Redis.Keyspace) :
  is_Some (Redis.counter ks db (fst (fst u)) (snd (fst u))) ->
  exists r ks',
    Redis.exec db (hincrby_of u) ks = (r, ks')
    /\ Redis.is_error r = false
    /\ (forall key field,
          Redis.counter ks' db key field
          = (fun m => m + net [u] key field) <$> Redis.counter ks db key field)
    /\ (forall db' key', db' <> db -> ks' !! (db', key') = ks !! (db', key')).
Proof.
  destruct u as [[k f] d]. simpl. intros [n Hn].
  destruct (hincrby_counter db k f d ks n Hn) as (ks' & Hex & Hsame & Hfield & Hother).
  exists (Redis.Integer (n + d)), ks'. split; [exact Hex|]. split; [reflexivity|]. split.
  - intros key field.
    destruct (String.eqb_spec k key) as [->|Hk].
    + destruct (String.eqb_spec f field) as [->|Hf]; simpl.
      * rewrite Hsame, Hn. simpl. f_equal. lia.
      * rewrite Hfield by congruence.
        destruct (Redis.counter ks db key field); simpl; [f_equal; lia | reflexivity].
    + simpl. rewrite (counter_lookup_eq ks ks' db key) by (apply Hother; congruence).
      destruct (Redis.counter ks db key field); simpl; [f_equal; lia | reflexivity].
  - intros db' key' Hne. apply Hother. congruence.
Qed.

Section Properties.

Context (null_argument : option string).
Context (JSON_stringify : Js.JsValue -> string).
Context (JSON_parse : string -> option Js.JsValue).

Lemma send_hincrby (c : RedisClient) (u : Update) (ks : Redis.Keyspace) :
  send null_argument c (hincrby_of u) ks
  = (fst (Redis.exec (selected c) (hincrby_of u) ks), c,
     snd (Redis.exec (selected c) (hincrby_of u) ks)).
Proof.
  destruct u as [[k f] d]. unfold send, hincrby_of, encode. cbn [fst snd].
  destruct (Redis.exec (selected c) (Redis.HINCRBY k (Some f) d) ks). reflexivity.
Qed.

(** A batch of updates of readable counters adds to every counter the
    net of the batch, and to nothing else. *)
Lemma send_all_updates (c : RedisClient) (us : list Update) :
  forall ks : Redis.Keyspace,
    Forall (fun u => is_Some (Redis.counter ks (selected c) (fst (fst u)) (snd (fst u)))) us ->
    exists rs ks',
      send_all null_argument c (map hincrby_of us) ks = (rs, c, ks')
      /\ (forall key field,
            Redis.counter ks' (selected c) key field
            = (fun m => m + net us key field) <$> Redis.counter ks (selected c) key field)
      /\ (forall db' key', db' <> selected c -> ks' !! (db', key') = ks !! (db', key')).
Proof.
  induction us as [|u us IH]; intros ks Hread.
  - exists [], ks. split; [reflexivity|]. split; [|reflexivity].
    intros key field. simpl. destruct (Redis.counter ks (selected c) key field); simpl;
      [f_equal; lia | reflexivity].
  - inversion Hread as [|? ? Hu Hus]; subst.
    destruct (hincrby_counter_all (selected c) u ks Hu) as (r & ks1 & Hex & _ & Hc1 & Ho1).
    assert (Hread1 : Forall (fun u0 => is_Some (Redis.counter ks1 (selected c) (fst (fst u0)) (snd (fst u0)))) us).
    { eapply Forall_impl; [exact Hus|]. intros u0 [m Hm]. simpl. rewrite Hc1, Hm. simpl. eauto. }
    destruct (IH ks1 Hread1) as (rs & ks' & Hall & Hc & Ho).
    exists (r :: rs), ks'. split.
    + cbn [map send_all]. rewrite send_hincrby, Hex. cbn [fst snd]. rewrite Hall. reflexivity.
    + split.
      * intros key field. rewrite Hc, Hc1.
        destruct u as [[k f] d].
        destruct (Redis.counter ks (selected c) key field); simpl; [f_equal; lia | reflexivity].
      * intros db' key' Hne. rewrite Ho, Ho1 by assumption. reflexivity.
Qed.


(** ** Promises that never reject *)

Lemma clean_resolve {A : Type} (a : A) : clean (resolve a).
Proof. intros w a' w' H. injection H as _ <-. reflexivity. Qed.

Lemma clean_reject {A : Type} (e : Failure) : clean (@reject A e).
Proof. intros w a w' H. discriminate. Qed.

Lemma clean_then {A B : Type} (p : Promise A) (f : A -> Promise B) :
  clean p -> (forall a, clean (f a)) -> clean (then_ p f).
Proof.
  intros Hp Hf w b w' H. unfold then_ in H.
  destruct (p w) as [[a|e] w1] eqn:E; [|discriminate].
  rewrite (Hf a w1 b w' H). exact (Hp w a w1 E).
Qed.

(** ** The commands of a queue that reach the store *)

Lemma delivered_no_fault (cmds : list Redis.Command) : delivered cmds [] = (cmds, []).
Proof.
  induction cmds as [|cmd cmds IH]; [reflexivity|].
  cbn [delivered tail]. rewrite IH. reflexivity.
Qed.

Lemma delivered_fault (cmds : list Redis.Command) (fs : list bool) :
  fst (delivered cmds (true :: fs)) = [].
Proof. destruct cmds; reflexivity. Qed.

Lemma delivered_take (cmds : list Redis.Command) :
  forall fs, exists k, fst (delivered cmds fs) = take k cmds.
Proof.
  induction cmds as [|cmd cmds IH]; intros fs.
  - exists 0%nat. reflexivity.
  - destruct fs as [|[] fs]; cbn [delivered tail].
    + destruct (IH []) as [k Hk]. destruct (delivered cmds []) as [done fs'].
      exists (S k). cbn [fst take] in *. rewrite Hk. reflexivity.
    + exists 0%nat. reflexivity.
    + destruct (IH fs) as [k Hk]. destruct (delivered cmds fs) as [done fs'].
      exists (S k). cbn [fst take] in *. rewrite Hk. reflexivity.
Qed.

Lemma aborted_none (cmds : list Redis.Command) : aborted cmds cmds = [].
Proof. unfold aborted. rewrite drop_all. reflexivity. Qed.

Lemma reaching_no_fault (req : Redis.Request) : reaching req [] = req.
Proof. destruct req as [cmd|cmds]; cbn; [|rewrite delivered_no_fault]; reflexivity. Qed.

Lemma delivered_split (cmds : list Redis.Command) (fs : list bool) :
  exists rest, cmds = (fst (delivered cmds fs) ++ rest)%list.
Proof.
  destruct (delivered_take cmds fs) as [k ->]. exists (drop k cmds).
  symmetry. apply take_drop.
Qed.

Lemma no_select_reaching (req : Redis.Request) (fs : list bool) :
  no_select req = true -> no_select (reaching req fs) = true.
Proof.
  destruct req as [cmd|cmds]; cbn [no_select reaching]; [exact (fun H => H)|].
  destruct (delivered_split cmds fs) as [rest Hs]. intros H.
  rewrite Hs, forallb_app in H. apply andb_true_iff in H as [H _]. exact H.
Qed.

Lemma request_keys_reaching (req : Redis.Request) (fs : list bool) (key : string) :
  key ∉ request_keys req -> key ∉ request_keys (reaching req fs).
Proof.
  destruct req as [cmd|cmds]; cbn [request_keys reaching]; [exact (fun H => H)|].
  destruct (delivered_split cmds fs) as [rest Hs]. intros H.
  rewrite Hs, map_app, concat_app in H. apply not_elem_of_app in H as [H _]. exact H.
Qed.

Lemma clean_call (h : Handle) (req : Redis.Request) : clean (call null_argument h req).
Proof.
  intros w a w' H. unfold call in H.
  destruct (client_of h (manager w)); [|discriminate].
  destruct req as [cmd|cmds].
  - destruct (faults w) as [|[] fs]; try discriminate;
      destruct (send null_argument r cmd (keyspace w)) as [[rep c'] ks'];
      destruct rep; try discriminate; injection H as _ <-; reflexivity.
  - destruct (delivered cmds (faults w)) as [done fs].
    destruct (send_all null_argument r done (keyspace w)) as [[rs c'] ks'].
    injection H as _ <-. reflexivity.
Qed.

Lemma clean_safeCall (h : Handle) (req : Redis.Request) :
  clean (_safeCall null_argument h req).
Proof.
  intros w a w' H. unfold _safeCall in H.
  destruct (negb (isEnabled (manager w)) || negb (client_ready (client_of h (manager w))));
    [discriminate|].
  exact (clean_call h req w a w' H).
Qed.

Lemma clean_assign_setup (p : option (Outcome unit)) : clean (assign_setup p).
Proof. intros w a w' H. injection H as _ <-. reflexivity. Qed.

Lemma clean_ensureMetricsSetup : clean (ensureMetricsSetup null_argument).
Proof.
  intros w a w' H. unfold ensureMetricsSetup in H.
  destruct (negb (isEnabled (manager w))); [discriminate|].
  destruct (_setupMetricsClientPromise (manager w)) as [[u|e]|].
  - injection H as _ <-. reflexivity.
  - discriminate.
  - destruct (negb (client_ready (_metricsClient (manager w)))); [discriminate|].
    unfold catch in H.
    match type of H with
    | match ?p w with _ => _ end = _ => destruct (p w) as [[u|e] w1] eqn:E
    end.
    + injection H as _ <-.
      revert E. apply clean_then; [apply clean_call|].
      intros _. apply clean_then; [apply clean_call|].
      intros _. apply clean_assign_setup.
    + discriminate.
Qed.

(** A chain closed by [.catch(() => d)] resolves, and to [d] once a
    failure was raised in it. *)
Lemma catch_default {A : Type} (p : Promise A) (d : A) :
  clean p ->
  forall w, exists a w',
    catch p (fun _ => resolve d) w = (Resolved a, w')
    /\ (raised w' <> raised w -> a = d).
Proof.
  intros Hp w. unfold catch.
  destruct (p w) as [[a|e] w1] eqn:E.
  - exists a, w1. split; [reflexivity|]. intros Hr. destruct Hr. exact (Hp w a w1 E).
  - exists d, w1. split; [reflexivity|]. reflexivity.
Qed.

Lemma map_promise_resolved {A B : Type} (f : A -> B) (p : Promise A) (w w' : World) (a : A) :
  p w = (Resolved a, w') -> map_promise f p w = (Resolved (f a), w').
Proof. intros H. unfold map_promise, then_. rewrite H. reflexivity. Qed.

Lemma clean_getCachedResponse_chain (k u : string) :
  clean (serializedResponse <- _safeCall null_argument Ops (Redis.Single (Redis.HGET k u)) ;;
         match as_string serializedResponse with
         | Some s =>
             if Js.truthy s then
               match JSON_parse s with
               | Some response => resolve response
               | None => reject SyntaxError
               end
             else resolve Js.JsNull
         | None => resolve Js.JsNull
         end).
Proof.
  apply clean_then; [apply clean_safeCall|].
  intros r. destruct (as_string r) as [s|]; [|apply clean_resolve].
  destruct (Js.truthy s); [|apply clean_resolve].
  destruct (JSON_parse s); [apply clean_resolve | apply clean_reject].
Qed.

Ltac clean_chain :=
  repeat first
    [ apply clean_resolve
    | apply clean_safeCall
    | apply clean_ensureMetricsSetup
    | apply clean_then
    | intros ? ].


(** ** Blocked calls leave the store alone *)

(** A blocked call leaves the key space as it is; it is rejected,
    unless it is the [exec] of a batch, none of whose commands has then
    reached the store. *)
Lemma safeCall_blocked (h : Handle) (req : Redis.Request) (w : World) :
  blocked h w ->
  exists o w',
    _safeCall null_argument h req w = (o, w')
    /\ keyspace w' = keyspace w
    /\ (isEnabled (manager w) = false -> issued w' = issued w)
    /\ ((exists e, o = Rejected e) \/ (exists cmds, req = Redis.Batch cmds)).
Proof.
  intros Hb. unfold _safeCall.
  destruct (isEnabled (manager w)) eqn:En; simpl.
  - destruct (client_of h (manager w)) as [c|] eqn:Hc; simpl.
    + destruct (ready c) eqn:Hr; simpl.
      * destruct Hb as [Hb|[Hb|[fs Hf]]];
          [congruence | rewrite Hc in Hb; simpl in Hb; congruence |].
        unfold call. rewrite Hc. destruct req as [cmd|cmds].
        -- rewrite Hf. eexists _, _. split; [reflexivity|]. split; [reflexivity|].
           split; [discriminate|]. left. eauto.
        -- rewrite Hf. pose proof (delivered_fault cmds fs) as Hd.
           destruct (delivered cmds (true :: fs)) as [done fs']. cbn [fst] in Hd. subst done.
           cbn [send_all]. eexists _, _. split; [reflexivity|]. split; [reflexivity|].
           split; [discriminate|]. right. eauto.
      * eexists _, _. split; [reflexivity|]. split; [reflexivity|].
        split; [discriminate|]. left. eauto.
    + eexists _, _. split; [reflexivity|]. split; [reflexivity|].
      split; [discriminate|]. left. eauto.
  - eexists _, _. split; [reflexivity|]. split; [reflexivity|].
    split; [reflexivity|]. left. eauto.
Qed.

Lemma ensureMetricsSetup_blocked (w : World) :
  blocked Metrics w ->
  exists o w',
    ensureMetricsSetup null_argument w = (o, w')
    /\ keyspace w' = keyspace w
    /\ (isEnabled (manager w) = false -> issued w' = issued w /\ exists e, o = Rejected e)
    /\ (forall u, o = Resolved u -> w' = w).
Proof.
  intros Hb. unfold ensureMetricsSetup.
  destruct (isEnabled (manager w)) eqn:En; simpl.
  - destruct (_setupMetricsClientPromise (manager w)) as [[u|e]|] eqn:Hm.
    + eexists _, _. split; [reflexivity|]. repeat split; try discriminate. 
    + eexists _, _. split; [reflexivity|]. repeat split; discriminate.
    + destruct (client_ready (_metricsClient (manager w))) eqn:Hr; simpl.
      * destruct Hb as [Hb|[Hb|[fs Hf]]]; [congruence | simpl in Hb; congruence |].
        destruct (_metricsClient (manager w)) as [c|] eqn:Hc; [|discriminate].
        unfold catch, then_, call. simpl client_of. rewrite Hc, Hf.
        eexists _, _. split; [reflexivity|]. repeat split; discriminate.
      * eexists _, _. split; [reflexivity|]. repeat split; discriminate.
  - eexists _, _. split; [reflexivity|]. repeat split; eauto; discriminate.
Qed.

Lemma metrics_chain_blocked {B : Type} (req : Redis.Request)
    (k : Redis.Reply -> Promise B) (d : B) (w : World) :
  (forall cmds, req = Redis.Batch cmds -> forall r w0, k r w0 = (Resolved d, w0)) ->
  blocked Metrics w ->
  exists w',
    catch (ensureMetricsSetup null_argument >>
           r <- _safeCall null_argument Metrics req ;; k r)
          (fun _ => resolve d) w = (Resolved d, w')
    /\ keyspace w' = keyspace w
    /\ (isEnabled (manager w) = false -> issued w' = issued w).
Proof.
  intros Hbatch Hb.
  destruct (ensureMetricsSetup_blocked w Hb) as (o & w1 & He & Hk & Hdis & Hsame).
  unfold catch, then_. rewrite He.
  destruct o as [u|e].
  - rewrite (Hsame u eq_refl).
    destruct (safeCall_blocked Metrics req w Hb) as (o & w2 & Hs & Hk2 & Hi2 & Ho).
    rewrite Hs. destruct o as [r|e].
    + destruct Ho as [(e & He')|(cmds & Hreq)]; [discriminate|].
      rewrite (Hbatch cmds Hreq r w2). exists w2. split; [reflexivity|]. split; assumption.
    + exists w2. split; [reflexivity|]. split; assumption.
  - exists w1. split; [reflexivity|]. split; [assumption|].
    intros Hd. apply Hdis, Hd.
Qed.

Lemma ops_chain_blocked {B : Type} (cmd : Redis.Command)
    (k : Redis.Reply -> Promise B) (d : B) (w : World) :
  blocked Ops w ->
  exists w',
    catch (r <- _safeCall null_argument Ops (Redis.Single cmd) ;; k r) (fun _ => resolve d) w
    = (Resolved d, w')
    /\ keyspace w' = keyspace w
    /\ (isEnabled (manager w) = false -> issued w' = issued w).
Proof.
  intros Hb.
  destruct (safeCall_blocked Ops (Redis.Single cmd) w Hb) as (o & w2 & Hs & Hk2 & Hi2 & Ho).
  destruct Ho as [(e & ->)|(cmds & Hreq)]; [|discriminate].
  unfold catch, then_. rewrite Hs. exists w2. split; [reflexivity|]. split; assumption.
Qed.

Lemma map_promise_wrap {A B : Type} (f : A -> B) (p : Promise A) (w : World) (d : A)
    (Q : World -> Prop) :
  (exists w', p w = (Resolved d, w') /\ Q w') ->
  exists w', map_promise f p w = (Resolved (f d), w') /\ Q w'.
Proof.
  intros (w' & H & HQ). exists w'. split; [|exact HQ].
  apply map_promise_resolved, H.
Qed.

(** Every public method, when blocked, resolves to its benign default
    and leaves the key space as it is; when the manager is not
    configured it hands nothing to a connection either. *)
Lemma invoke_blocked (c : Call) (w : World) :
  blocked (handle_of Ops Metrics c) w ->
  exists w',
    invoke null_argument JSON_stringify JSON_parse c w = (Resolved (benign c), w')
    /\ (keyspace w' = keyspace w
        /\ (isEnabled (manager w) = false -> issued w' = issued w)).
Proof.
  intros Hb.
  destruct c; simpl handle_of in Hb; unfold invoke, benign.
  - apply (map_promise_wrap Response _ w Js.JsNull).
    unfold getCachedResponse. apply ops_chain_blocked, Hb.
  - apply (map_promise_wrap (fun _ => Void) _ w tt).
    unfold setCachedResponse. apply ops_chain_blocked, Hb.
  - apply (map_promise_wrap (fun _ => Void) _ w tt).
    unfold invalidateCache.
    destruct (ops_chain_blocked (Redis.DEL [expiryKey])
                (fun _ => resolve tt) tt w Hb) as (w' & He & Hk & Hi).
    destruct (isEnabled (manager w)) eqn:En; simpl.
    + exists w'. split; [exact He|]. split; [exact Hk|discriminate].
    + exists w. split; [reflexivity|]. split; reflexivity.
  - apply (map_promise_wrap (fun _ => Void) _ w tt).
    unfold incrementLabelStatusCount. apply metrics_chain_blocked; [discriminate | exact Hb].
  - apply (map_promise_wrap (fun _ => Void) _ w tt).
    unfold recordUpdate. apply metrics_chain_blocked; [reflexivity | exact Hb].
  - apply (map_promise_wrap MetricsOf _ w None).
    unfold getMetricsWithDeploymentKey. apply metrics_chain_blocked; [discriminate | exact Hb].
  - apply (map_promise_wrap (fun _ => Void) _ w tt).
    unfold clearMetricsForDeploymentKey. apply metrics_chain_blocked; [discriminate | exact Hb].
  - apply (map_promise_wrap (fun _ => Void) _ w tt).
    unfold removeDeploymentKeyClientActiveLabel. apply metrics_chain_blocked; [discriminate | exact Hb].
  - apply (map_promise_wrap Label _ w None).
    unfold getCurrentActiveLabel. apply metrics_chain_blocked; [discriminate | exact Hb].
  - apply (map_promise_wrap (fun _ => Void) _ w tt).
    unfold updateActiveAppForClient. apply metrics_chain_blocked; [reflexivity | exact Hb].
Qed.

(** Every public method resolves; a write resolves without a value, and
    a read resolves to [null] once a failure was raised in it. *)
Lemma invoke_resolves (c : Call) (w : World) :
  exists a w',
    invoke null_argument JSON_stringify JSON_parse c w = (Resolved a, w')
    /\ (benign c = Void -> a = Void)
    /\ (raised w' <> raised w -> a = benign c).
Proof.
  assert (Hwrap : forall (A : Type) (f : A -> Answer) (p : Promise A) (d : A) (b : Answer),
             (b = Void -> forall x, f x = Void) -> f d = b ->
             (exists a w', p w = (Resolved a, w') /\ (raised w' <> raised w -> a = d)) ->
             exists a w', map_promise f p w = (Resolved a, w')
                          /\ (b = Void -> a = Void) /\ (raised w' <> raised w -> a = b)).
  { intros A f p d b Hv Hd (a & w' & H & Hr). exists (f a), w'.
    split; [apply map_promise_resolved, H|]. split.
    - intros Hb. apply Hv, Hb.
    - intros Hne. rewrite (Hr Hne). exact Hd. }
  destruct c; unfold invoke, benign.
  - apply (Hwrap _ Response _ Js.JsNull); [discriminate | reflexivity |].
    unfold getCachedResponse. apply catch_default, clean_getCachedResponse_chain.
  - apply (Hwrap _ (fun _ => Void) _ tt); [reflexivity | reflexivity |].
    unfold setCachedResponse. apply catch_default.
    apply clean_then; [apply clean_safeCall|]. intros r.
    apply clean_then; [apply clean_safeCall|]. intros _.
    apply clean_then; [|intros; apply clean_resolve].
    destruct (as_number r =? 0); clean_chain.
  - apply (Hwrap _ (fun _ => Void) _ tt); [reflexivity | reflexivity |].
    unfold invalidateCache.
    destruct (negb (isEnabled (manager w))).
    + exists tt, w. split; [reflexivity|]. intros H. destruct H. reflexivity.
    + apply catch_default. clean_chain.
  - apply (Hwrap _ (fun _ => Void) _ tt); [reflexivity | reflexivity |].
    unfold incrementLabelStatusCount. apply catch_default. clean_chain.
  - apply (Hwrap _ (fun _ => Void) _ tt); [reflexivity | reflexivity |].
    unfold recordUpdate. apply catch_default. clean_chain.
  - apply (Hwrap _ MetricsOf _ None); [discriminate | reflexivity |].
    unfold getMetricsWithDeploymentKey. apply catch_default.
    apply clean_then; [apply clean_ensureMetricsSetup|]. intros _.
    apply clean_then; [apply clean_safeCall|]. intros r.
    destruct (as_object r); apply clean_resolve.
  - apply (Hwrap _ (fun _ => Void) _ tt); [reflexivity | reflexivity |].
    unfold clearMetricsForDeploymentKey. apply catch_default. clean_chain.
  - apply (Hwrap _ (fun _ => Void) _ tt); [reflexivity | reflexivity |].
    unfold removeDeploymentKeyClientActiveLabel. apply catch_default. clean_chain.
  - apply (Hwrap _ Label _ None); [discriminate | reflexivity |].
    unfold getCurrentActiveLabel. apply catch_default. clean_chain.
  - apply (Hwrap _ (fun _ => Void) _ tt); [reflexivity | reflexivity |].
    unfold updateActiveAppForClient. apply catch_default. clean_chain.
Qed.


(** ** One request at a time *)

Lemma with_client_same (h : Handle) (c : RedisClient) (m : RedisManager) :
  client_of h m = Some c -> with_client h c m = m.
Proof. destruct m, h; simpl; intros ->; reflexivity. Qed.

(** What a safe call comes to: either the request does not reach the
    store, or the part of it that the transport lets through is
    performed there and its reply decides the outcome. *)
Lemma safeCall_spec (h : Handle) (req : Redis.Request) (w : World) :
  exists o w',
    _safeCall null_argument h req w = (o, w')
    /\ ((blocked h w /\ keyspace w' = keyspace w /\ manager w' = manager w
         /\ (exists e, o = Rejected e)
         /\ (issued w' = issued w \/ issued w' = (issued w ++ [(h, req)])%list))
        \/ (exists c r c' ks',
              client_of h (manager w) = Some c
              /\ isEnabled (manager w) = true /\ ready c = true
              /\ perform null_argument c (reaching req (faults w)) (keyspace w) = (r, c', ks')
              /\ keyspace w' = ks'
              /\ manager w' = with_client h c' (manager w)
              /\ issued w' = (issued w ++ [(h, req)])%list
              /\ faults w' = left_over req (faults w)
              /\ o = settled req (faults w) r)).
Proof.
  unfold _safeCall, blocked.
  destruct (isEnabled (manager w)) eqn:En; simpl.
  2:{ eexists _, _. split; [reflexivity|]. left. simpl. eauto 10. }
  destruct (client_of h (manager w)) as [c|] eqn:Hc; simpl.
  2:{ eexists _, _. split; [reflexivity|]. left. simpl. eauto 10. }
  destruct (ready c) eqn:Hr; simpl.
  2:{ eexists _, _. split; [reflexivity|]. left. simpl. eauto 10. }
  unfold call. rewrite Hc. destruct req as [cmd|cmds].
  - cbn [reaching perform left_over settled].
    destruct (faults w) as [|[] fs] eqn:Hf.
    + destruct (send null_argument c cmd (keyspace w)) as [[r c'] ks'] eqn:Hp.
      destruct r; eexists _, _; (split; [reflexivity|]); right;
        exists c; eexists _, c', ks'; simpl; repeat split; eauto.
    + eexists _, _. split; [reflexivity|]. left. simpl. eauto 10.
    + destruct (send null_argument c cmd (keyspace w)) as [[r c'] ks'] eqn:Hp.
      destruct r; eexists _, _; (split; [reflexivity|]); right;
        exists c; eexists _, c', ks'; simpl; repeat split; eauto.
  - cbn [reaching perform left_over settled].
    destruct (delivered cmds (faults w)) as [done fs] eqn:Hd. cbn [fst snd].
    destruct (send_all null_argument c done (keyspace w)) as [[rs c'] ks'] eqn:Hp.
    eexists _, _. split; [reflexivity|]. right.
    exists c, (Redis.Replies rs), c', ks'. simpl. rewrite Hp. repeat split; eauto.
Qed.

(** The same for a single command, which the transport takes or drops
    whole. *)
Lemma safeCall_single (h : Handle) (cmd : Redis.Command) (w : World) :
  exists o w',
    _safeCall null_argument h (Redis.Single cmd) w = (o, w')
    /\ ((blocked h w /\ keyspace w' = keyspace w /\ manager w' = manager w
         /\ (exists e, o = Rejected e)
         /\ (issued w' = issued w
             \/ issued w' = (issued w ++ [(h, Redis.Single cmd)])%list))
        \/ (exists c r c' ks',
              client_of h (manager w) = Some c
              /\ isEnabled (manager w) = true /\ ready c = true
              /\ perform null_argument c (Redis.Single cmd) (keyspace w) = (r, c', ks')
              /\ keyspace w' = ks'
              /\ manager w' = with_client h c' (manager w)
              /\ issued w' = (issued w ++ [(h, Redis.Single cmd)])%list
              /\ faults w' = tail (faults w)
              /\ o = match r with
                     | Redis.Error m => Rejected (ReplyError m)
                     | _ => Resolved r
                     end)).
Proof. exact (safeCall_spec h (Redis.Single cmd) w). Qed.

(** In an available world the request is performed. *)
Lemma safeCall_available (h : Handle) (req : Redis.Request) (w : World) (c : RedisClient) :
  isEnabled (manager w) = true ->
  client_of h (manager w) = Some c -> ready c = true -> faults w = [] ->
  _safeCall null_argument h req w
  = (let '(r, c', ks') := perform null_argument c req (keyspace w) in
     (match r with
      | Redis.Error m => Rejected (ReplyError m)
      | _ => Resolved r
      end,
      {| manager := with_client h c' (manager w); keyspace := ks';
         faults := []; issued := (issued w ++ [(h, req)])%list;
         raised := match r with
                   | Redis.Error m => (raised w ++ [ReplyError m])%list
                   | _ => raised w
                   end |})).
Proof.
  intros En Hc Hr Hf. unfold _safeCall, call. rewrite En, Hc. simpl. rewrite Hr. simpl.
  destruct req as [cmd|cmds]; rewrite Hf; cbn [perform].
  - destruct (send null_argument c cmd (keyspace w)) as [[r c'] ks'].
    destruct r; reflexivity.
  - rewrite delivered_no_fault.
    destruct (send_all null_argument c cmds (keyspace w)) as [[rs c'] ks'].
    rewrite aborted_none, app_nil_r. reflexivity.
Qed.

End Properties.

(** ** The response cache *)

Section Cache.

Context (null_argument : option string).
Context (JSON_stringify : Js.JsValue -> string).
Context (JSON_parse : string -> option Js.JsValue).

Lemma perform_exists (c : RedisClient) (k : string) (ks : Redis.Keyspace) :
  perform null_argument c (Redis.Single (Redis.EXISTS k)) ks
  = (Redis.Integer (match ks !! (selected c, k) with Some _ => 1 | None => 0 end), c, ks).
Proof. reflexivity. Qed.

Lemma perform_hset (c : RedisClient) (k f v : string) (ks : Redis.Keyspace) :
  perform null_argument c (Redis.Single (Redis.HSET k f v)) ks
  = (fst (Redis.exec (selected c) (Redis.HSET k f v) ks), c,
     snd (Redis.exec (selected c) (Redis.HSET k f v) ks)).
Proof.
  unfold perform, send, encode.
  destruct (Redis.exec (selected c) (Redis.HSET k f v) ks). reflexivity.
Qed.

Lemma hset_keeps_ttl (db : Z) (k f v : string) (ks : Redis.Keyspace) :
  is_Some (ks !! (db, k)) ->
  Redis.ttl_at (snd (Redis.exec db (Redis.HSET k f v) ks)) db k = Redis.ttl_at ks db k.
Proof.
  intros [[[s|h] t] E]; unfold Redis.exec, Redis.ttl_at; rewrite E; simpl.
  - rewrite E. reflexivity.
  - rewrite lookup_insert_eq. reflexivity.
Qed.

Lemma setCachedResponse_existing (w : World) (expiryKey url : string)
    (response : CacheableResponse) (c : RedisClient) :
  _opsClient (manager w) = Some c ->
  is_Some (keyspace w !! (selected c, expiryKey)) ->
  exists w' new,
    setCachedResponse null_argument JSON_stringify expiryKey url response w = (Resolved tt, w')
    /\ issued w' = (issued w ++ new)%list
    /\ Forall (fun q => is_expire q = false) new
    /\ Redis.ttl_at (keyspace w') (selected c) expiryKey
       = Redis.ttl_at (keyspace w) (selected c) expiryKey.
Proof.
  intros Hops Hex.
  unfold setCachedResponse, catch, then_.
  destruct (safeCall_single null_argument Ops (Redis.EXISTS expiryKey) w)
    as (o1 & w1 & E1 & [(_ & Hk & Hm & (e & ->) & Hi) |
                        (c0 & r & c' & ks' & Hc & En & Hr & Hp & Hk & Hm & Hi & Hf & ->)]);
    rewrite E1.
  - exists w1. destruct Hi as [Hi|Hi].
    + exists []. rewrite Hi, Hk, app_nil_r. repeat split; constructor.
    + eexists. rewrite Hi, Hk. repeat split. repeat constructor.
  - simpl in Hc. rewrite Hops in Hc. injection Hc as <-.
    rewrite perform_exists in Hp. destruct Hex as [e0 He0]. rewrite He0 in Hp.
    injection Hp as <- <- <-.
    rewrite with_client_same in Hm by exact Hops.
    simpl as_number. change (1 =? 0) with false. cbv iota.
    destruct (safeCall_single null_argument Ops
                (Redis.HSET expiryKey url (JSON_stringify (response_object response))) w1)
      as (o2 & w2 & E2 & [(_ & Hk2 & Hm2 & (e & ->) & Hi2) |
                          (c0 & r & c' & ks' & Hc2 & En2 & Hr2 & Hp2 & Hk2 & Hm2 & Hi2 & Hf2 & ->)]);
      rewrite E2.
    + exists w2. destruct Hi2 as [Hi2|Hi2].
      * eexists. rewrite Hi2, Hi, Hk2, Hk. repeat split. repeat constructor.
      * eexists. rewrite Hi2, Hi, Hk2, Hk, <- app_assoc. repeat split. repeat constructor.
    + rewrite Hm in Hc2. simpl in Hc2. rewrite Hops in Hc2. injection Hc2 as <-.
      rewrite perform_hset in Hp2.
      pose proof (hset_keeps_ttl (selected c) expiryKey url
                    (JSON_stringify (response_object response)) (keyspace w1)) as Httl.
      destruct (Redis.exec (selected c)
                  (Redis.HSET expiryKey url (JSON_stringify (response_object response)))
                  (keyspace w1)) as [r2 ks2].
      cbn [fst snd] in Hp2, Httl. injection Hp2 as <- <- <-.
      rewrite Hk in Httl. specialize (Httl (ex_intro _ e0 He0)).
      rewrite <- Hk2 in Httl.
      destruct r2; exists w2; eexists; (split; [reflexivity|]);
        rewrite Hi2, Hi, <- app_assoc; repeat split; try exact Httl; repeat constructor.
Qed.


Lemma after_start (w : World) : faults w = [] -> w = after w (keyspace w) [].
Proof. destruct w; unfold after; simpl; intros ->. rewrite app_nil_r. reflexivity. Qed.

(** A request performed in a world without fault to come. *)
Lemma safeCall_after (h : Handle) (req : Redis.Request) (w : World) (c : RedisClient)
    (ks ks' : Redis.Keyspace) (reqs : list (Handle * Redis.Request)) (r : Redis.Reply) :
  isEnabled (manager w) = true ->
  client_of h (manager w) = Some c -> ready c = true ->
  perform null_argument c req ks = (r, c, ks') ->
  _safeCall null_argument h req (after w ks reqs)
  = (match r with
     | Redis.Error m => Rejected (ReplyError m)
     | _ => Resolved r
     end,
     {| manager := manager w; keyspace := ks'; faults := [];
        issued := (issued w ++ reqs ++ [(h, req)])%list;
        raised := match r with
                  | Redis.Error m => (raised w ++ [ReplyError m])%list
                  | _ => raised w
                  end |}).
Proof.
  intros En Hc Hr Hp.
  rewrite (safeCall_available null_argument h req (after w ks reqs) c) by assumption || reflexivity.
  cbn [keyspace after manager issued raised]. rewrite Hp.
  rewrite with_client_same by exact Hc. rewrite <- app_assoc. reflexivity.
Qed.

Lemma getCachedResponse_after (w : World) (c : RedisClient) (ks : Redis.Keyspace)
    (reqs : list (Handle * Redis.Request)) (expiryKey url : string) :
  isEnabled (manager w) = true ->
  _opsClient (manager w) = Some c -> ready c = true ->
  fst (getCachedResponse null_argument JSON_parse expiryKey url (after w ks reqs))
  = Resolved (cached JSON_parse ks (selected c) expiryKey url).
Proof.
  intros En Hc Hr. unfold getCachedResponse, catch, then_.
  assert (Hp : perform null_argument c (Redis.Single (Redis.HGET expiryKey url)) ks
               = (fst (Redis.exec (selected c) (Redis.HGET expiryKey url) ks), c, ks)).
  { unfold perform, send, encode, Redis.exec.
    destruct (ks !! (selected c, expiryKey)) as [[[s|h] t]|]; reflexivity. }
  rewrite (safeCall_after Ops _ w c ks ks reqs _ En Hc Hr Hp).
  unfold cached, Redis.hash_at, Redis.exec.
  destruct (ks !! (selected c, expiryKey)) as [[[s|h] t]|]; cbn [fst]; try reflexivity.
  cbn [as_string]. destruct (h !! url) as [s|]; [|reflexivity].
  destruct (Js.truthy s); [|reflexivity].
  destruct (JSON_parse s); reflexivity.
Qed.

(** [setCachedResponse] in an available world: the three requests when
    the key is new, two when it holds a hash already. *)
Lemma setCachedResponse_after (w : World) (c : RedisClient) (ks : Redis.Keyspace)
    (reqs : list (Handle * Redis.Request)) (expiryKey url : string)
    (response : CacheableResponse) :
  isEnabled (manager w) = true ->
  _opsClient (manager w) = Some c -> ready c = true ->
  holds_string ks (selected c) expiryKey = false ->
  let s := JSON_stringify (response_object response) in
  setCachedResponse null_argument JSON_stringify expiryKey url response (after w ks reqs)
  = (Resolved tt,
     match ks !! (selected c, expiryKey) with
     | Some e =>
         after w
           (<[(selected c, expiryKey) :=
                {| Redis.value :=
                     Redis.VHash (<[url := s]> (default ∅ (Redis.hash_at ks (selected c) expiryKey)));
                   Redis.ttl := Redis.ttl e |}]> ks)
           (reqs ++ [(Ops, Redis.Single (Redis.EXISTS expiryKey));
                     (Ops, Redis.Single (Redis.HSET expiryKey url s))])
     | None =>
         after w
           (<[(selected c, expiryKey) :=
                {| Redis.value := Redis.VHash {[url := s]}; Redis.ttl := Some DEFAULT_EXPIRY |}]> ks)
           (reqs ++ [(Ops, Redis.Single (Redis.EXISTS expiryKey));
                     (Ops, Redis.Single (Redis.HSET expiryKey url s));
                     (Ops, Redis.Single (Redis.EXPIRE expiryKey DEFAULT_EXPIRY))])
     end).
Proof.
  intros En Hc Hr Hs s. unfold setCachedResponse, catch. fold s.
  unfold then_ at 1.
  rewrite (safeCall_after Ops _ w c ks ks reqs _ En Hc Hr (perform_exists c expiryKey ks)).
  unfold holds_string in Hs.
  destruct (ks !! (selected c, expiryKey)) as [[[v|h] t]|] eqn:E; [discriminate| |].
  - cbn [as_number]. change (1 =? 0) with false. cbv iota.
    change {| manager := manager w; keyspace := ks; faults := [];
              issued := (issued w ++ reqs ++ [(Ops, Redis.Single (Redis.EXISTS expiryKey))])%list;
              raised := raised w |}
      with (after w ks (reqs ++ [(Ops, Redis.Single (Redis.EXISTS expiryKey))])).
    unfold then_ at 1.
    erewrite (safeCall_after Ops _ w c ks _ _ _ En Hc Hr).
    2:{ unfold perform, send, encode, Redis.exec. rewrite E. reflexivity. }
    unfold then_, resolve, after. cbn [Redis.ttl]. unfold Redis.hash_at. rewrite E.
    cbn [default]. rewrite <- !app_assoc. reflexivity.
  - cbn [as_number]. change (0 =? 0) with true. cbv iota.
    change {| manager := manager w; keyspace := ks; faults := [];
              issued := (issued w ++ reqs ++ [(Ops, Redis.Single (Redis.EXISTS expiryKey))])%list;
              raised := raised w |}
      with (after w ks (reqs ++ [(Ops, Redis.Single (Redis.EXISTS expiryKey))])).
    unfold then_ at 1.
    erewrite (safeCall_after Ops _ w c ks _ _ _ En Hc Hr).
    2:{ unfold perform, send, encode, Redis.exec. rewrite E. reflexivity. }
    cbv iota.
    match goal with
    | |- context [{| manager := manager w; keyspace := ?k; faults := [];
                     issued := (issued w ++ ?r)%list; raised := raised w |}] =>
        change {| manager := manager w; keyspace := k; faults := [];
                  issued := (issued w ++ r)%list; raised := raised w |}
          with (after w k r)
    end.
    unfold then_ at 1. unfold then_ at 1.
    erewrite (safeCall_after Ops _ w c _ _ _ _ En Hc Hr).
    2:{ unfold perform, send, encode, Redis.exec. rewrite lookup_insert_eq.
        change (DEFAULT_EXPIRY <=? 0) with false. cbv iota. reflexivity. }
    unfold then_, resolve, after. cbn [Redis.value].
    rewrite insert_insert_eq. rewrite <- !app_assoc. reflexivity.
Qed.

End Cache.

(** ** The metrics aggregator *)

Section Metrics.

Context (null_argument : option string).

Lemma labels_hash_not_health (deploymentKey : string) :
  Utilities.getDeploymentKeyLabelsHash deploymentKey <> "health".
Proof. unfold Utilities.getDeploymentKeyLabelsHash. simpl. discriminate. Qed.

Lemma perform_select (c : RedisClient) (ks : Redis.Keyspace) :
  perform null_argument c (Redis.Single (Redis.SELECT METRICS_DB)) ks
  = (Redis.Status "OK",
     {| options := options c; ready := ready c; selected := METRICS_DB |}, ks).
Proof. reflexivity. Qed.

Lemma perform_set_health (c : RedisClient) (ks : Redis.Keyspace) :
  perform null_argument c (Redis.Single (Redis.SET "health" "health")) ks
  = (Redis.Status "OK", c,
     <[(selected c, "health") := {| Redis.value := Redis.VString "health"; Redis.ttl := None |}]> ks).
Proof. reflexivity. Qed.

(** What [ensureMetricsSetup] comes to in any world: it touches no key
    but [health], hands over nothing but the two requests of the setup,
    and once it is resolved in a consistent world the metrics handle has
    the metrics database selected. *)
Lemma ensureMetricsSetup_spec (w : World) :
  exists o w1 setup,
    ensureMetricsSetup null_argument w = (o, w1)
    /\ (forall db key, key <> "health" -> keyspace w1 !! (db, key) = keyspace w !! (db, key))
    /\ issued w1 = (issued w ++ setup)%list
    /\ Forall is_setup_request setup
    /\ (consistent w -> consistent w1)
    /\ client_ready (_metricsClient (manager w1)) = client_ready (_metricsClient (manager w))
    /\ (forall u, o = Resolved u ->
          isEnabled (manager w1) = true
          /\ exists c1, _metricsClient (manager w1) = Some c1
                        /\ (consistent w -> selected c1 = METRICS_DB))
    /\ (available w -> o = Resolved tt /\ faults w1 = []).
Proof.
  unfold ensureMetricsSetup, available.
  destruct w as [[ops met memo] ks fs iss rs]. unfold consistent in *. cbn in *.
  destruct (isEnabled _) eqn:En; cbn.
  2:{ eexists _, _, []. split; [reflexivity|]. cbn. rewrite app_nil_r.
      repeat apply conj; try reflexivity; try apply Forall_nil_2;
        try (intros H; exact H); try (intros; discriminate).
      intros [H _]. discriminate. }
  destruct (isEnabled_clients _ En) as (o & c & Ho & Hc). cbn in Ho, Hc. subst ops met.
  destruct memo as [[[]|e]|].
  - eexists _, _, []. split; [reflexivity|]. cbn. rewrite app_nil_r.
    repeat apply conj; try reflexivity; try apply Forall_nil_2; try (intros H; exact H).
    + intros u _. split; [reflexivity|]. exists c. split; [reflexivity|]. intros H; exact H.
    + intros (_ & _ & _ & Hf & _). split; [reflexivity | exact Hf].
  - eexists _, _, []. split; [reflexivity|]. cbn. rewrite app_nil_r.
    repeat apply conj; try reflexivity; try apply Forall_nil_2;
      try (intros; discriminate); try (intros _; exact I).
    intros (_ & _ & _ & _ & _ & H). exfalso. eapply H. reflexivity.
  - cbn [client_ready _metricsClient manager].
    destruct (ready c) eqn:Hr; cbn.
    2:{ eexists _, _, []. split; [reflexivity|]. cbn. rewrite app_nil_r.
        repeat apply conj; try reflexivity; try apply Forall_nil_2;
          try assumption; try (intros; discriminate); try (intros _; exact I).
        intros (_ & _ & H & _). discriminate. }
    unfold catch, then_, call. cbn.
    destruct fs as [|[] [|[] fs]]; cbn;
      eexists _, _, _; (split; [reflexivity|]); cbn;
      (split; [intros db key Hne; try reflexivity;
               rewrite lookup_insert_ne by congruence; reflexivity|]);
      (split; [first [reflexivity | rewrite <- app_assoc; reflexivity]|]);
      (split; [cbn [app];
               repeat (apply Forall_cons_2; [first [left; reflexivity | right; reflexivity]|]);
               apply Forall_nil_2|]);
      (split; [intros _; try exact I; reflexivity|]);
      (split; [try assumption; reflexivity|]);
      (split; [intros u Hu;
               first [discriminate
                     | split; [reflexivity | eexists; split; [reflexivity | intros _; reflexivity]]]|]);
      intros (_ & _ & _ & Hf & _); first [discriminate | split; reflexivity].
Qed.

Lemma counter_frame (ks ks1 : Redis.Keyspace) (deploymentKey field : string) :
  (forall db key, key <> "health" -> ks1 !! (db, key) = ks !! (db, key)) ->
  Redis.counter ks1 METRICS_DB (Utilities.getDeploymentKeyLabelsHash deploymentKey) field
  = Redis.counter ks METRICS_DB (Utilities.getDeploymentKeyLabelsHash deploymentKey) field.
Proof.
  intros H. apply counter_lookup_eq, H, labels_hash_not_health.
Qed.




Lemma not_setup_request (cmds : list Redis.Command) :
  ~ is_setup_request (Metrics, Redis.Batch cmds).
Proof. intros [H|H]; discriminate. Qed.







(** With the store available the setup is ensured. *)
Lemma ensureMetricsSetup_available (w : World) :
  available w ->
  exists w1 c1 setup,
    ensureMetricsSetup null_argument w = (Resolved tt, w1)
    /\ (forall db key, key <> "health" -> keyspace w1 !! (db, key) = keyspace w !! (db, key))
    /\ issued w1 = (issued w ++ setup)%list
    /\ Forall is_setup_request setup
    /\ isEnabled (manager w1) = true
    /\ client_of Metrics (manager w1) = Some c1
    /\ ready c1 = true
    /\ selected c1 = METRICS_DB
    /\ faults w1 = [].
Proof.
  intros Ha.
  destruct (ensureMetricsSetup_spec w)
    as (o & w1 & setup & He & Hframe & Hiss & Hsetup & Hcons1 & Hready & Hres & Hav).
  destruct (Hav Ha) as [-> Hf].
  destruct (Hres tt eq_refl) as (En1 & c1 & Hc1 & Hsel).
  destruct Ha as (_ & _ & Hrm & _ & Hcons & _).
  exists w1, c1, setup. repeat split; try assumption.
  - rewrite Hc1 in Hready. simpl in Hready. congruence.
  - apply Hsel, Hcons.
Qed.

Lemma hash_frame (ks ks1 : Redis.Keyspace) (deploymentKey : string) :
  (forall db key, key <> "health" -> ks1 !! (db, key) = ks !! (db, key)) ->
  Redis.hash_at ks1 METRICS_DB (Utilities.getDeploymentKeyLabelsHash deploymentKey)
  = Redis.hash_at ks METRICS_DB (Utilities.getDeploymentKeyLabelsHash deploymentKey).
Proof.
  intros H. unfold Redis.hash_at. rewrite H by apply labels_hash_not_health. reflexivity.
Qed.

(** [incrementLabelStatusCount] with a recognized status adds 1 to the
    counter of the label and status. *)
Lemma incrementLabelStatusCount_available (w : World)
    (deploymentKey label status : string) (n : Z) :
  available w ->
  Utilities.isValidDeploymentStatus status = true ->
  Redis.counter (keyspace w) METRICS_DB
    (Utilities.getDeploymentKeyLabelsHash deploymentKey) (label ++ ":" ++ status) = Some n ->
  exists w',
    incrementLabelStatusCount null_argument deploymentKey label status w = (Resolved tt, w')
    /\ Redis.counter (keyspace w') METRICS_DB
         (Utilities.getDeploymentKeyLabelsHash deploymentKey) (label ++ ":" ++ status)
       = Some (n + 1).
Proof.
  intros Ha Hv Hn.
  destruct (ensureMetricsSetup_available w Ha)
    as (w1 & c1 & setup & He & Hframe & Hiss & Hsetup & En1 & Hc1 & Hr1 & Hsel & Hf1).
  unfold incrementLabelStatusCount, catch, then_. rewrite He.
  unfold Utilities.getLabelStatusField. rewrite Hv.
  rewrite (safeCall_available null_argument Metrics _ w1 c1 En1 Hc1 Hr1 Hf1).
  set (u := (Utilities.getDeploymentKeyLabelsHash deploymentKey, label ++ ":" ++ status, 1) : Update).
  change (Redis.HINCRBY (Utilities.getDeploymentKeyLabelsHash deploymentKey)
            (Some (label ++ ":" ++ status)) 1) with (hincrby_of u).
  unfold perform. rewrite send_hincrby. rewrite Hsel.
  rewrite <- (counter_frame (keyspace w) (keyspace w1) _ _ Hframe) in Hn.
  destruct (hincrby_counter METRICS_DB _ _ 1 (keyspace w1) n Hn) as (ks' & Hex & Hsame & _).
  unfold u, hincrby_of. cbn [fst snd]. rewrite Hex. cbn [fst snd].
  eexists. split; [reflexivity|]. exact Hsame.
Qed.

(** [getMetricsWithDeploymentKey] on an existing hash resolves to the
    hash with the conversion applied to each of its values. *)
Lemma getMetricsWithDeploymentKey_available (w : World) (deploymentKey : string)
    (h : gmap string string) :
  available w ->
  Redis.hash_at (keyspace w) METRICS_DB (Utilities.getDeploymentKeyLabelsHash deploymentKey)
  = Some h ->
  exists w',
    getMetricsWithDeploymentKey null_argument deploymentKey w
    = (Resolved (Some (parseMetric <$> h)), w').
Proof.
  intros Ha Hh.
  destruct (ensureMetricsSetup_available w Ha)
    as (w1 & c1 & setup & He & Hframe & Hiss & Hsetup & En1 & Hc1 & Hr1 & Hsel & Hf1).
  unfold getMetricsWithDeploymentKey, catch, then_. rewrite He.
  rewrite (safeCall_available null_argument Metrics _ w1 c1 En1 Hc1 Hr1 Hf1).
  rewrite <- (hash_frame (keyspace w) (keyspace w1) _ Hframe) in Hh.
  unfold Redis.hash_at in Hh.
  unfold perform, send, encode, Redis.exec. rewrite Hsel.
  destruct (keyspace w1 !! (METRICS_DB, Utilities.getDeploymentKeyLabelsHash deploymentKey))
    as [[[s|h0] t]|]; try discriminate.
  injection Hh as ->. eexists. reflexivity.
Qed.

End Metrics.

(** ** Consistency is kept *)

Section Consistency.

Context (null_argument : option string).
Context (JSON_stringify : Js.JsValue -> string).
Context (JSON_parse : string -> option Js.JsValue).

Lemma consistent_manager (w w' : World) :
  manager w' = manager w -> consistent w -> consistent w'.
Proof. unfold consistent. intros ->. exact (fun H => H). Qed.

Lemma send_keeps_client (c : RedisClient) (cmd : Redis.Command) (ks : Redis.Keyspace) :
  is_select_command cmd = false -> snd (fst (send null_argument c cmd ks)) = c.
Proof.
  intros H. unfold send, encode.
  destruct cmd as [| | | | | |k [f|] n| | | |]; try discriminate;
    try (destruct (Redis.exec _ _ _); reflexivity).
  destruct null_argument; [destruct (Redis.exec _ _ _)|]; reflexivity.
Qed.

Lemma send_all_keeps_client (cmds : list Redis.Command) :
  forallb (fun cmd => negb (is_select_command cmd)) cmds = true ->
  forall (c : RedisClient) (ks : Redis.Keyspace),
    snd (fst (send_all null_argument c cmds ks)) = c.
Proof.
  induction cmds as [|cmd cmds IH]; intros H c ks; [reflexivity|].
  cbn in H. apply andb_true_iff in H as [H1 H2]. apply negb_true_iff in H1.
  cbn [send_all].
  pose proof (send_keeps_client c cmd ks H1) as Hc.
  destruct (send null_argument c cmd ks) as [[r c1] ks1]. cbn in Hc. subst c1.
  pose proof (IH H2 c ks1) as Hc.
  destruct (send_all null_argument c cmds ks1) as [[rs c2] ks2]. exact Hc.
Qed.

Lemma perform_keeps_client (c : RedisClient) (req : Redis.Request) (ks : Redis.Keyspace) :
  no_select req = true -> snd (fst (perform null_argument c req ks)) = c.
Proof.
  destruct req as [cmd|cmds]; cbn [no_select perform]; intros H.
  - apply negb_true_iff in H. apply send_keeps_client, H.
  - pose proof (send_all_keeps_client cmds H c ks) as Hc.
    destruct (send_all null_argument c cmds ks) as [[rs c2] ks2]. exact Hc.
Qed.

Lemma keeps_resolve {A : Type} (a : A) : keeps_consistent (resolve a).
Proof. intros w H. exact H. Qed.

Lemma keeps_reject {A : Type} (e : Failure) : keeps_consistent (@reject A e).
Proof. intros w H. exact H. Qed.

Lemma keeps_then {A B : Type} (p : Promise A) (f : A -> Promise B) :
  keeps_consistent p -> (forall a, keeps_consistent (f a)) -> keeps_consistent (then_ p f).
Proof.
  intros Hp Hf w H. unfold then_. specialize (Hp w H).
  destruct (p w) as [[a|e] w1]; [apply Hf, Hp | exact Hp].
Qed.

Lemma keeps_catch {A : Type} (p : Promise A) (h : Failure -> Promise A) :
  keeps_consistent p -> (forall e, keeps_consistent (h e)) -> keeps_consistent (catch p h).
Proof.
  intros Hp Hh w H. unfold catch. specialize (Hp w H).
  destruct (p w) as [[a|e] w1]; [exact Hp | apply Hh, Hp].
Qed.

Lemma keeps_safeCall (h : Handle) (req : Redis.Request) :
  no_select req = true -> keeps_consistent (_safeCall null_argument h req).
Proof.
  intros Hreq w H.
  destruct (safeCall_spec null_argument h req w)
    as (o & w' & E & [(_ & _ & Hm & _) |
                      (c & r & c' & ks' & Hc & _ & _ & Hp & _ & Hm & _)]);
    rewrite E; cbn [snd].
  - exact (consistent_manager w w' Hm H).
  - pose proof (perform_keeps_client c (reaching req (faults w)) (keyspace w)
                  (no_select_reaching _ _ Hreq)) as Hk.
    rewrite Hp in Hk. cbn in Hk. subst c'.
    rewrite with_client_same in Hm by exact Hc.
    exact (consistent_manager w w' Hm H).
Qed.

Lemma keeps_ensureMetricsSetup : keeps_consistent (ensureMetricsSetup null_argument).
Proof.
  intros w H.
  destruct (ensureMetricsSetup_spec null_argument w)
    as (o & w1 & setup & He & _ & _ & _ & Hcons & _).
  rewrite He. apply Hcons, H.
Qed.

Lemma keeps_map_promise {A B : Type} (f : A -> B) (p : Promise A) :
  keeps_consistent p -> keeps_consistent (map_promise f p).
Proof. intros Hp. apply keeps_then; [exact Hp|]. intros a. apply keeps_resolve. Qed.

Ltac keeps :=
  repeat first
    [ apply keeps_resolve
    | apply keeps_reject
    | apply keeps_ensureMetricsSetup
    | apply keeps_safeCall; reflexivity
    | apply keeps_map_promise
    | apply keeps_catch
    | apply keeps_then
    | intros ? ].

(** Every public method leaves a consistent world consistent; the world
    of a manager that was just constructed is consistent. *)
Lemma invoke_consistent (c : Call) (w : World) :
  consistent w ->
  consistent (snd (invoke null_argument JSON_stringify JSON_parse c w)).
Proof.
  revert w. change (keeps_consistent (invoke null_argument JSON_stringify JSON_parse c)).
  destruct c; unfold invoke.
  - unfold getCachedResponse. apply keeps_map_promise, keeps_catch; [|keeps].
    apply keeps_then; [keeps|]. intros r.
    destruct (as_string r) as [s|]; [|keeps].
    destruct (Js.truthy s); [|keeps]. destruct (JSON_parse s); keeps.
  - unfold setCachedResponse. apply keeps_map_promise, keeps_catch; [|keeps].
    apply keeps_then; [keeps|]. intros r.
    apply keeps_then; [keeps|]. intros _.
    apply keeps_then; [|keeps]. destruct (as_number r =? 0); keeps.
  - apply keeps_map_promise. intros w H. unfold invalidateCache.
    destruct (negb (isEnabled (manager w))); [exact H|].
    revert w H. change (keeps_consistent
                          (catch (_safeCall null_argument Ops (Redis.Single (Redis.DEL [expiryKey]))
                                  >> resolve tt) (fun _ => resolve tt))).
    keeps.
  - unfold incrementLabelStatusCount.
    destruct (Utilities.getLabelStatusField label status); keeps.
  - unfold recordUpdate. cbv zeta.
    destruct (Utilities.getLabelActiveCountField currentLabel),
      (Utilities.getLabelStatusField currentLabel DEPLOYMENT_SUCCEEDED),
      previousDeploymentKey as [pk|], previousLabel as [pl|];
      try (destruct (Js.truthy pk && Js.truthy pl);
           [destruct (Utilities.getLabelActiveCountField pl)|]);
      keeps.
  - unfold getMetricsWithDeploymentKey. apply keeps_map_promise, keeps_catch; [|keeps].
    apply keeps_then; [keeps|]. intros _. apply keeps_then; [keeps|]. intros r.
    destruct (as_object r); keeps.
  - unfold clearMetricsForDeploymentKey. keeps.
  - unfold removeDeploymentKeyClientActiveLabel. keeps.
  - unfold getCurrentActiveLabel. keeps.
  - unfold updateActiveAppForClient. cbv zeta.
    destruct (Utilities.getLabelActiveCountField toLabel), fromLabel as [fl|];
      try (destruct (Js.truthy fl); [destruct (Utilities.getLabelActiveCountField fl)|]);
      keeps.
Qed.

Lemma constructor_consistent (env : Env) (ks : Redis.Keyspace) (fs : list bool) :
  consistent {| manager := constructor env; keyspace := ks; faults := fs;
                issued := []; raised := [] |}.
Proof.
  unfold consistent, constructor. cbn.
  destruct (REDIS_HOST env) as [h|], (REDIS_PORT env) as [p|]; try exact I.
  destruct (Js.truthy h && Js.truthy p); exact I.
Qed.

End Consistency.

(** ** The memoized setup *)
Module SetupFacts.
Import Setup.

Lemma invariant_init (e : bool) : invariant (init e).
Proof.
  split.
  - intros i st H. discriminate.
  - intros i H. discriminate.
Qed.

Lemma lookup_update (l : list Stage) (i j : nat) (st st' : Stage) :
  <[i := st]> l !! j = Some st' ->
  (j = i /\ st' = st /\ i < length l)%nat \/ (j <> i /\ l !! j = Some st').
Proof.
  intros H. destruct (decide (j = i)) as [->|Hne].
  - left. assert (Hlt : (i < length l)%nat).
    { apply lookup_lt_Some in H. rewrite length_insert in H. exact H. }
    rewrite list_lookup_insert_eq in H by exact Hlt. injection H as <-. auto.
  - right. rewrite list_lookup_insert_ne in H by congruence. auto.
Qed.

Lemma invariant_reply (s : State) (i : nat) (st st' : Stage) :
  invariant s ->
  attempts s !! i = Some st -> live st = true -> live st' = true ->
  invariant {| enabled := enabled s; memo := memo s;
               attempts := <[i := st']> (attempts s); sent := sent s |}
  /\ forall cmds,
       invariant {| enabled := enabled s; memo := memo s;
                    attempts := <[i := st']> (attempts s); sent := cmds |}.
Proof.
  intros [H1 H2] Hi Hl Hl'.
  assert (Hinv : forall cmds,
             invariant {| enabled := enabled s; memo := memo s;
                          attempts := <[i := st']> (attempts s); sent := cmds |}).
  { intros cmds. split; cbn.
    - intros j stj Hj Hlj. apply lookup_update in Hj as [(-> & -> & _)|(Hne & Hj)].
      + exact (H1 i st Hi Hl).
      + exact (H1 j stj Hj Hlj).
    - intros j Hm. destruct (H2 j Hm) as (En & stj & Hj & Hlj). split; [exact En|].
      destruct (decide (j = i)) as [->|Hne].
      + exists st'. split; [|exact Hl'].
        apply list_lookup_insert_eq. apply lookup_lt_Some in Hi. exact Hi.
      + exists stj. split; [|exact Hlj]. rewrite list_lookup_insert_ne by congruence. exact Hj. }
  split; [apply Hinv | exact Hinv].
Qed.

Lemma invariant_fail (s : State) (i : nat) (st : Stage) :
  invariant s -> attempts s !! i = Some st -> live st = true -> invariant (fail i s).
Proof.
  intros [H1 H2] Hi Hl. split; cbn.
  - intros j stj Hj Hlj. apply lookup_update in Hj as [(-> & -> & _)|(Hne & Hj)].
    + discriminate.
    + pose proof (H1 j stj Hj Hlj) as Hmj. pose proof (H1 i st Hi Hl) as Hmi. congruence.
  - intros j Hm. discriminate.
Qed.

Lemma invariant_step (s : State) (ev : Event) : invariant s -> invariant (step s ev).
Proof.
  intros Hinv. destruct ev as [r|i ok|i ok]; cbn.
  - unfold ensureMetricsSetup.
    destruct (enabled s) eqn:En; cbn; [|exact Hinv].
    destruct (memo s) as [i|] eqn:Hm; cbn; [exact Hinv|].
    destruct r; cbn; [|exact Hinv].
    destruct Hinv as [H1 H2]. split; cbn.
    + intros j st Hj Hl. destruct (decide (j = length (attempts s))) as [->|Hne]; [reflexivity|].
      rewrite lookup_app_l in Hj.
      * pose proof (H1 j st Hj Hl). congruence.
      * apply lookup_lt_Some in Hj. rewrite length_app in Hj. cbn in Hj. lia.
    + intros j Hj. injection Hj as <-. split; [reflexivity|].
      exists AwaitSelect. split; [|reflexivity].
      rewrite lookup_app_r by lia. rewrite Nat.sub_diag. reflexivity.
  - destruct (attempts s !! i) as [[]|] eqn:Hi; try exact Hinv.
    destruct ok.
    + apply (invariant_reply s i AwaitSelect AwaitSet Hinv Hi); reflexivity.
    + apply (invariant_fail s i AwaitSelect Hinv Hi). reflexivity.
  - destruct (attempts s !! i) as [[]|] eqn:Hi; try exact Hinv.
    destruct ok.
    + apply (invariant_reply s i AwaitSet Fulfilled Hinv Hi); reflexivity.
    + apply (invariant_fail s i AwaitSet Hinv Hi). reflexivity.
Qed.

Lemma invariant_run (evs : list Event) : forall s, invariant s -> invariant (run s evs).
Proof.
  induction evs as [|ev evs IH]; intros s H; [exact H|].
  apply IH, invariant_step, H.
Qed.

(** Once an attempt is fulfilled, no event changes the state. *)
Lemma fulfilled_step (s : State) (i : nat) (ev : Event) :
  invariant s -> attempts s !! i = Some Fulfilled -> step s ev = s.
Proof.
  intros [H1 H2] Hi. pose proof (H1 i Fulfilled Hi eq_refl) as Hm.
  destruct (H2 i Hm) as (En & _).
  destruct ev as [r|j ok|j ok]; cbn.
  - unfold ensureMetricsSetup. rewrite En, Hm. reflexivity.
  - destruct (attempts s !! j) as [[]|] eqn:Hj; try reflexivity.
    pose proof (H1 j AwaitSelect Hj eq_refl). congruence.
  - destruct (attempts s !! j) as [[]|] eqn:Hj; try reflexivity.
    pose proof (H1 j AwaitSet Hj eq_refl). congruence.
Qed.

Lemma fulfilled_run (evs : list Event) (s : State) (i : nat) :
  invariant s -> attempts s !! i = Some Fulfilled -> run s evs = s.
Proof.
  intros Hinv Hi. induction evs as [|ev evs IH]; [reflexivity|].
  cbn. rewrite (fulfilled_step s i ev Hinv Hi). exact IH.
Qed.

Lemma stage_in_flight_live (s : State) (i : nat) :
  stage_in_flight s i = true ->
  exists st, attempts s !! i = Some st /\ live st = true /\ st <> Fulfilled.
Proof.
  unfold stage_in_flight. destruct (attempts s !! i) as [[]|]; try discriminate;
    intros _; eexists; repeat split; discriminate.
Qed.

Lemma stage_fulfilled_lookup (s : State) (i : nat) :
  stage_fulfilled s i = true -> attempts s !! i = Some Fulfilled.
Proof.
  unfold stage_fulfilled. destruct (attempts s !! i) as [[]|]; try discriminate. reflexivity.
Qed.

End SetupFacts.

(** One attempt, event by event and run to its end: the two accounts of
    [ensureMetricsSetup] agree on what is memoized and on what is sent. *)
Lemma setup_attempt_agrees (null_argument : option string) (o c : RedisClient)
    (ks : Redis.Keyspace) (f1 f2 : bool) :
  ready c = true ->
  let w := {| manager := {| _opsClient := Some o; _metricsClient := Some c;
                            _setupMetricsClientPromise := None |};
              keyspace := ks; faults := [f1; f2]; issued := []; raised := [] |} in
  let w' := snd (ensureMetricsSetup null_argument w) in
  let s := Setup.run (Setup.init true)
             [Setup.CallSetup true; Setup.SelectReply 0 (negb f1);
              Setup.SetReply 0 (negb f2)] in
  (Setup.memo s = Some 0%nat
   <-> _setupMetricsClientPromise (manager w') = Some (Resolved tt))
  /\ (Setup.memo s = None <-> _setupMetricsClientPromise (manager w') = None)
  /\ map (fun q => (Metrics, Redis.Single (snd q))) (Setup.sent s) = issued w'.
Proof.
  intros Hr.
  destruct f1, f2; cbn; unfold ensureMetricsSetup; cbn; rewrite Hr; cbn;
    repeat split; intros H; try discriminate; reflexivity.
Qed.

(** ** A read of the cache *)

Section Failures.

Context (null_argument : option string).
Context (JSON_stringify : Js.JsValue -> string).
Context (JSON_parse : string -> option Js.JsValue).

(** A read of the cache changes nothing. *)
Lemma getCachedResponse_keeps (expiryKey url : string) (w : World) :
  keyspace (snd (getCachedResponse null_argument JSON_parse expiryKey url w)) = keyspace w.
Proof.
  unfold getCachedResponse, catch, then_.
  destruct (safeCall_single null_argument Ops (Redis.HGET expiryKey url) w)
    as (o & w1 & E & [(_ & Hk & _ & (e & ->) & _) |
                      (c & r & c' & ks' & _ & _ & _ & Hp & Hk & _ & _ & _ & Ho)]);
    rewrite E; [exact Hk|].
  assert (Hks : ks' = keyspace w).
  { cbn [perform] in Hp. unfold send, encode, Redis.exec in Hp.
    repeat case_match; congruence. }
  assert (Hw1 : keyspace w1 = keyspace w) by congruence.
  clear Hp Hk Hks E.
  destruct r; subst o; unfold resolve, reject;
    repeat match goal with
    | |- context [match as_string ?x with _ => _ end] => destruct (as_string x)
    | |- context [if Js.truthy ?x then _ else _] => destruct (Js.truthy x)
    | |- context [match JSON_parse ?x with _ => _ end] => destruct (JSON_parse x)
    end; cbn; exact Hw1.
Qed.

End Failures.

(** * The claims of the specification *)

Section Claims.

Context (null_argument : option string).
Context (JSON_stringify : Js.JsValue -> string).
Context (JSON_parse : string -> option Js.JsValue).

(** C2 (amended): every public method of the cache and of the
    aggregator resolves, whatever fails inside it: the manager not
    configured, a handle not ready, a fault of the transport or an error
    reply of the store at any request, a failed setup of the metrics
    handle, a payload that does not parse.  A write resolves without a
    value; a read resolves to [null] once a failure was raised in it.
    When the call is blocked before its first request takes effect, it
    resolves to its default and the key space is left as it was. *)
Theorem public_methods_never_reject (c : Call) (w : World) :
  exists a w',
    invoke null_argument JSON_stringify JSON_parse c w = (Resolved a, w')
    /\ (benign c = Void -> a = Void)
    /\ (raised w' <> raised w -> a = benign c)
    /\ (blocked (handle_of Ops Metrics c) w -> a = benign c /\ keyspace w' = keyspace w).
Proof.
  destruct (invoke_resolves null_argument JSON_stringify JSON_parse c w)
    as (a & w' & E & Hvoid & Hnull).
  exists a, w'.
  split; [exact E|]. split; [exact Hvoid|]. split; [exact Hnull|].
  intros Hb.
  destruct (invoke_blocked null_argument JSON_stringify JSON_parse c w Hb)
    as (w2 & E2 & Hk & _).
  split; congruence.
Qed.

(** C7 (amended): [isEnabled] is false exactly when the host or the
    port of the store is absent from the environment, unset or empty;
    and when it is false every public method of the cache and of the
    aggregator resolves to its benign default, hands no request to a
    connection and leaves the key space as it was, while [checkHealth]
    is rejected as not enabled, without a request either. *)
Theorem disabled_without_configuration (env : Env) :
  (isEnabled (constructor env) = false
   <-> absent (REDIS_HOST env) \/ absent (REDIS_PORT env))
  /\ (forall (c : Call) (w : World),
        isEnabled (manager w) = false ->
        exists w',
          invoke null_argument JSON_stringify JSON_parse c w = (Resolved (benign c), w')
          /\ issued w' = issued w
          /\ keyspace w' = keyspace w)
  /\ (forall w : World,
        isEnabled (manager w) = false ->
        exists w',
          checkHealth null_argument w = (Rejected NotEnabled, w')
          /\ issued w' = issued w
          /\ keyspace w' = keyspace w).
Proof.
  split; [|split].
  - unfold constructor, absent.
    destruct (REDIS_HOST env) as [[|a h]|], (REDIS_PORT env) as [[|b p]|]; simpl;
      split; intros H; try reflexivity; try discriminate; eauto;
      destruct H as [[H|H]|[H|H]]; discriminate.
  - intros c w Hd.
    destruct (invoke_blocked null_argument JSON_stringify JSON_parse c w (or_introl Hd))
      as (w' & E & Hk & Hi).
    exists w'. split; [exact E|]. split; [apply Hi, Hd | exact Hk].
  - intros w Hd. unfold checkHealth. rewrite Hd. cbn.
    eexists. split; [reflexivity|]. split; reflexivity.
Qed.

(** C3 (amended): with the store available and a response whose
    serialized form is parsed back to it, [setCachedResponse] followed
    by [getCachedResponse] for the same key and url resolves to the
    response; for any other url under the key it resolves to what
    [getCachedResponse] resolved to before the call, which is [null]
    when the hash had no field for that url. *)
Theorem set_then_get (w : World) (c : RedisClient) (expiryKey url : string)
    (response : CacheableResponse) :
  available w ->
  _opsClient (manager w) = Some c ->
  holds_string (keyspace w) (selected c) expiryKey = false ->
  Js.truthy (JSON_stringify (response_object response)) = true ->
  JSON_parse (JSON_stringify (response_object response)) = Some (response_object response) ->
  fst ((setCachedResponse null_argument JSON_stringify expiryKey url response >>
        getCachedResponse null_argument JSON_parse expiryKey url) w)
  = Resolved (response_object response)
  /\ forall other : string,
       other <> url ->
       fst ((setCachedResponse null_argument JSON_stringify expiryKey url response >>
             getCachedResponse null_argument JSON_parse expiryKey other) w)
       = fst (getCachedResponse null_argument JSON_parse expiryKey other w)
       /\ ((forall h, Redis.hash_at (keyspace w) (selected c) expiryKey = Some h ->
                      h !! other = None) ->
           fst ((setCachedResponse null_argument JSON_stringify expiryKey url response >>
                 getCachedResponse null_argument JSON_parse expiryKey other) w)
           = Resolved Js.JsNull).
Proof.
  intros (En & Hro & _ & Hf & _) Hc Hs Ht Hp.
  rewrite Hc in Hro. simpl in Hro.
  assert (Hget : forall u,
             fst ((setCachedResponse null_argument JSON_stringify expiryKey url response >>
                   getCachedResponse null_argument JSON_parse expiryKey u) w)
             = Resolved
                 (if decide (u = url) then response_object response
                  else cached JSON_parse (keyspace w) (selected c) expiryKey u)).
  { intros u. unfold then_ at 1. rewrite (after_start w Hf) at 1.
    rewrite (setCachedResponse_after null_argument JSON_stringify w c _ _ _ _ _ En Hc Hro Hs).
    unfold holds_string in Hs.
    destruct (keyspace w !! (selected c, expiryKey)) as [[[v|h] t]|] eqn:E; [discriminate| |];
      rewrite (getCachedResponse_after null_argument JSON_parse w c _ _ _ _ En Hc Hro);
      f_equal; unfold cached, Redis.hash_at; rewrite lookup_insert_eq, ?E; cbn [default];
      destruct (decide (u = url)) as [->|Hne].
    - rewrite lookup_insert_eq, Ht, Hp. reflexivity.
    - rewrite lookup_insert_ne by congruence. reflexivity.
    - rewrite lookup_singleton_eq, Ht, Hp. reflexivity.
    - rewrite lookup_singleton_ne by congruence. reflexivity. }
  split.
  - rewrite Hget. destruct (decide (url = url)); [reflexivity | congruence].
  - intros other Hne.
    assert (Hbefore : fst (getCachedResponse null_argument JSON_parse expiryKey other w)
                      = Resolved (cached JSON_parse (keyspace w) (selected c) expiryKey other)).
    { rewrite (after_start w Hf) at 1.
      apply (getCachedResponse_after null_argument JSON_parse w c _ _ _ _ En Hc Hro). }
    rewrite Hget, Hbefore. destruct (decide (other = url)); [congruence|].
    split; [reflexivity|].
    intros Habsent. f_equal. unfold cached.
    destruct (Redis.hash_at (keyspace w) (selected c) expiryKey) as [h|] eqn:Eh; [|reflexivity].
    rewrite (Habsent h eq_refl). reflexivity.
Qed.

(** C5: [setCachedResponse] attaches the time to live of 3600 seconds
    only to a hash that did not exist when it looked: on a key that
    exists no [EXPIRE] is among the requests of the call, whatever
    becomes of them, and the time to live of the key is as it was; on a
    key that does not exist, with the store available, the requests are
    [EXISTS], [HSET] and [EXPIRE] with 3600 seconds. *)
Theorem ttl_attached_once (w : World) (c : RedisClient) (expiryKey url : string)
    (response : CacheableResponse) :
  _opsClient (manager w) = Some c ->
  (is_Some (keyspace w !! (selected c, expiryKey)) ->
   exists w' new,
     setCachedResponse null_argument JSON_stringify expiryKey url response w = (Resolved tt, w')
     /\ issued w' = (issued w ++ new)%list
     /\ Forall (fun q => is_expire q = false) new
     /\ Redis.ttl_at (keyspace w') (selected c) expiryKey
        = Redis.ttl_at (keyspace w) (selected c) expiryKey)
  /\ (keyspace w !! (selected c, expiryKey) = None ->
      available w ->
      exists w',
        setCachedResponse null_argument JSON_stringify expiryKey url response w = (Resolved tt, w')
        /\ issued w'
           = (issued w ++
              [(Ops, Redis.Single (Redis.EXISTS expiryKey));
               (Ops, Redis.Single
                       (Redis.HSET expiryKey url (JSON_stringify (response_object response))));
               (Ops, Redis.Single (Redis.EXPIRE expiryKey 3600))])%list
        /\ Redis.ttl_at (keyspace w') (selected c) expiryKey = Some 3600).
Proof.
  intros Hc. split.
  - intros Hex. apply setCachedResponse_existing; assumption.
  - intros Hnone (En & Hro & _ & Hf & _).
    rewrite Hc in Hro. simpl in Hro.
    eexists. split.
    { rewrite (after_start w Hf) at 1.
      rewrite (setCachedResponse_after null_argument JSON_stringify w c _ _ _ _ _ En Hc Hro)
        by (unfold holds_string; rewrite Hnone; reflexivity).
      rewrite Hnone. reflexivity. }
    split; [reflexivity|].
    unfold Redis.ttl_at, after. cbn [keyspace]. rewrite lookup_insert_eq. reflexivity.
Qed.


(** C9: [incrementLabelStatusCount] checks the status and never the
    label.  With the empty label and a recognized status the field is
    [:<status>], and with the store available the call adds 1 to that
    counter of the deployment's hash; the constructor of the field of
    an active count returns [null] for the empty label. *)
Theorem status_count_takes_empty_label (w : World) (deploymentKey status : string) (n : Z) :
  available w ->
  Utilities.isValidDeploymentStatus status = true ->
  Redis.counter (keyspace w) METRICS_DB
    (Utilities.getDeploymentKeyLabelsHash deploymentKey) (":" ++ status) = Some n ->
  Utilities.getLabelStatusField EmptyString status = Some (":" ++ status)
  /\ Utilities.getLabelActiveCountField EmptyString = None
  /\ exists w',
       incrementLabelStatusCount null_argument deploymentKey EmptyString status w = (Resolved tt, w')
       /\ Redis.counter (keyspace w') METRICS_DB
            (Utilities.getDeploymentKeyLabelsHash deploymentKey) (":" ++ status)
          = Some (n + 1).
Proof.
  intros Ha Hv Hn. split.
  - unfold Utilities.getLabelStatusField. rewrite Hv. reflexivity.
  - split; [reflexivity|].
    exact (incrementLabelStatusCount_available null_argument w deploymentKey EmptyString status n Ha Hv Hn).
Qed.

(** C4: for a status that is not recognized the field is [null], and
    [incrementLabelStatusCount] hands it to [HINCRBY] without a check.
    With a client that refuses a [null] argument the call is the no-op
    of the specification: it resolves, and no key of the store but
    [health], the key of the setup, is touched, so that the deployment's
    hash is as it was. *)
Theorem invalid_status_no_op (w : World) (deploymentKey label status : string) :
  null_argument = None ->
  Utilities.isValidDeploymentStatus status = false ->
  Utilities.getLabelStatusField label status = None
  /\ exists w' new,
       incrementLabelStatusCount null_argument deploymentKey label status w = (Resolved tt, w')
       /\ issued w' = (issued w ++ new)%list
       /\ Forall (fun q => is_setup_request q
                           \/ q = (Metrics,
                                   Redis.Single
                                     (Redis.HINCRBY
                                        (Utilities.getDeploymentKeyLabelsHash deploymentKey)
                                        None 1))) new
       /\ (forall db key, key <> "health" -> keyspace w' !! (db, key) = keyspace w !! (db, key))
       /\ (forall db,
             Redis.hash_at (keyspace w') db (Utilities.getDeploymentKeyLabelsHash deploymentKey)
             = Redis.hash_at (keyspace w) db (Utilities.getDeploymentKeyLabelsHash deploymentKey)).
Proof.
  intros Hnull Hv.
  assert (Hfield : Utilities.getLabelStatusField label status = None).
  { unfold Utilities.getLabelStatusField. rewrite Hv. reflexivity. }
  split; [exact Hfield|].
  assert (Hhash : forall (w' : World),
             (forall db key, key <> "health" -> keyspace w' !! (db, key) = keyspace w !! (db, key)) ->
             forall db,
               Redis.hash_at (keyspace w') db (Utilities.getDeploymentKeyLabelsHash deploymentKey)
               = Redis.hash_at (keyspace w) db (Utilities.getDeploymentKeyLabelsHash deploymentKey)).
  { intros w' H db. unfold Redis.hash_at.
    rewrite H by apply labels_hash_not_health. reflexivity. }
  unfold incrementLabelStatusCount, catch, then_. rewrite Hfield.
  destruct (ensureMetricsSetup_spec null_argument w)
    as (o & w1 & setup & He & Hframe & Hiss & Hsetup & _).
  rewrite He.
  assert (Hsetup' : Forall (fun q => is_setup_request q
                           \/ q = (Metrics,
                                   Redis.Single
                                     (Redis.HINCRBY
                                        (Utilities.getDeploymentKeyLabelsHash deploymentKey)
                                        None 1))) setup).
  { eapply Forall_impl; [exact Hsetup|]. intros q Hq. left. exact Hq. }
  destruct o as [u|e].
  2:{ exists w1, setup. repeat split; auto. }
  destruct (safeCall_single null_argument Metrics
              (Redis.HINCRBY (Utilities.getDeploymentKeyLabelsHash deploymentKey)
                               None 1) w1)
    as (o2 & w2 & E2 & [(_ & Hk2 & Hm2 & (e & ->) & Hi2) |
                        (c0 & r & c' & ks' & Hc2 & En2 & Hr2 & Hp2 & Hk2 & Hm2 & Hi2 & Hf2 & ->)]);
    rewrite E2.
  - assert (Hfr : forall db key, key <> "health" -> keyspace w2 !! (db, key) = keyspace w !! (db, key)).
    { intros. rewrite Hk2. apply Hframe. assumption. }
    destruct Hi2 as [Hi2|Hi2].
    + exists w2, setup. rewrite Hi2. repeat split; auto.
    + exists w2. eexists. rewrite Hi2, Hiss, <- app_assoc.
      split; [reflexivity|]. split; [reflexivity|].
      split; [apply Forall_app; split; [exact Hsetup'|]; apply Forall_cons_2; [right; reflexivity|];
              apply Forall_nil_2|].
      split; auto.
  - unfold perform, send, encode in Hp2. rewrite Hnull in Hp2. injection Hp2 as <- <- <-.
    assert (Hfr : forall db key, key <> "health" -> keyspace w2 !! (db, key) = keyspace w !! (db, key)).
    { intros. rewrite Hk2. apply Hframe. assumption. }
    exists w2. eexists. rewrite Hi2, Hiss, <- app_assoc.
    split; [reflexivity|]. split; [reflexivity|].
    split; [apply Forall_app; split; [exact Hsetup'|]; apply Forall_cons_2; [right; reflexivity|];
            apply Forall_nil_2|].
    split; auto.
Qed.

(** C8 (amended): for a deployment key whose label-counters hash
    exists, with the store available, [getMetricsWithDeploymentKey]
    resolves to an object with the fields of the hash.  A value that
    JavaScript converts to a number, [ToNumber] of it not being [NaN],
    is replaced by that number, a double; any other value is the string
    it was.  So the decimal form of an integer is replaced by the double
    nearest to the integer, which is the integer itself when its
    magnitude is at most 2^53. *)
Theorem metrics_values_parsed (w : World) (deploymentKey : string) (h : gmap string string) :
  available w ->
  Redis.hash_at (keyspace w) METRICS_DB (Utilities.getDeploymentKeyLabelsHash deploymentKey)
  = Some h ->
  exists w' m,
    getMetricsWithDeploymentKey null_argument deploymentKey w = (Resolved (Some m), w')
    /\ dom m = dom h
    /\ forall field v,
         h !! field = Some v ->
         (Js.ToNumber v <> Js.JsNaN -> m !! field = Some (Js.JsNum (Js.ToNumber v)))
         /\ (Js.ToNumber v = Js.JsNaN -> m !! field = Some (Js.JsStr v))
         /\ (forall n : Z,
               v = Js.decimal n ->
               m !! field = Some (Js.JsNum (Js.toDouble (inject_Z n)))
               /\ (Z.abs n <= 2 ^ 53 ->
                   m !! field = Some (Js.JsNum (Js.JsFinite (inject_Z n))))).
Proof.
  intros Ha Hh.
  destruct (getMetricsWithDeploymentKey_available null_argument w deploymentKey h Ha Hh)
    as (w' & E).
  exists w', (parseMetric <$> h). split; [exact E|]. split; [apply dom_fmap_L|].
  intros field v Hv. rewrite lookup_fmap, Hv. cbn [fmap option_fmap option_map].
  unfold parseMetric, Js.isNaN. split; [|split].
  - intros Hnum. destruct (Js.ToNumber v); [congruence | reflexivity | reflexivity].
  - intros ->. reflexivity.
  - intros n ->. rewrite ToNumber_decimal_rounded.
    pose proof (toDouble_number (inject_Z n)) as Hnum.
    split.
    + destruct (Js.toDouble (inject_Z n)); [congruence | reflexivity | reflexivity].
    + intros Hn. rewrite (toDouble_integer n Hn). reflexivity.
Qed.

(** C10: in [getMetricsWithDeploymentKey] a field whose value is the
    empty string, or is made of white space only, is not [NaN] as a
    number and is replaced by the number 0. *)
Theorem blank_value_becomes_zero (w : World) (deploymentKey : string)
    (h : gmap string string) (field v : string) :
  available w ->
  Redis.hash_at (keyspace w) METRICS_DB (Utilities.getDeploymentKeyLabelsHash deploymentKey)
  = Some h ->
  h !! field = Some v ->
  Js.allWhiteSpace v = true ->
  Js.isNaN v = false
  /\ exists w' m,
       getMetricsWithDeploymentKey null_argument deploymentKey w = (Resolved (Some m), w')
       /\ m !! field = Some (Js.JsNum (Js.JsFinite 0)).
Proof.
  intros Ha Hh Hv Hblank.
  assert (Hnum : Js.isNaN v = false).
  { unfold Js.isNaN. rewrite (ToNumber_blank v Hblank). reflexivity. }
  split; [exact Hnum|].
  destruct (getMetricsWithDeploymentKey_available null_argument w deploymentKey h Ha Hh)
    as (w' & E).
  exists w', (parseMetric <$> h). split; [exact E|].
  rewrite lookup_fmap, Hv. cbn [fmap option_fmap option_map].
  unfold parseMetric. rewrite Hnum, (ToNumber_blank v Hblank). reflexivity.
Qed.

End Claims.

(** C6 (amended): along every sequence of calls of [ensureMetricsSetup]
    and of replies of the store, at most one attempt of the setup is in
    flight; while an attempt is in flight or has succeeded, every call
    returns the promise of that attempt and starts nothing; once an
    attempt has succeeded no other does and no request of the setup is
    sent again; and when an attempt fails the memo is cleared, so that
    the next call that finds the metrics handle ready starts a fresh
    attempt with a new [SELECT], while a call that finds it not ready is
    rejected at once and starts none. *)
Theorem setup_memoized (e : bool) (evs : list Setup.Event) :
  let s := Setup.run (Setup.init e) evs in
  (forall i j,
      Setup.stage_in_flight s i = true -> Setup.stage_in_flight s j = true -> i = j)
  /\ (forall i r,
         Setup.stage_in_flight s i = true \/ Setup.stage_fulfilled s i = true ->
         Setup.ensureMetricsSetup r s = (Setup.PromiseOf i, s))
  /\ (forall i,
         Setup.stage_fulfilled s i = true ->
         (forall j, Setup.stage_fulfilled s j = true -> j = i)
         /\ (forall j, Setup.stage_in_flight s j = false)
         /\ forall evs', Setup.run s evs' = s)
  /\ (forall i ev,
         (Setup.attempts s !! i = Some Setup.AwaitSelect /\ ev = Setup.SelectReply i false)
         \/ (Setup.attempts s !! i = Some Setup.AwaitSet /\ ev = Setup.SetReply i false) ->
         let s' := Setup.step s ev in
         let fresh := length (Setup.attempts s') in
         Setup.memo s' = None
         /\ Setup.attempts s' !! i = Some Setup.Failed
         /\ Setup.ensureMetricsSetup false s' = (Setup.RejectedNow MetricsClientNotReady, s')
         /\ exists s'',
              Setup.ensureMetricsSetup true s' = (Setup.PromiseOf fresh, s'')
              /\ fresh <> i
              /\ Setup.stage_in_flight s'' fresh = true
              /\ Setup.sent s'' = (Setup.sent s' ++ [(fresh, Redis.SELECT METRICS_DB)])%list).
Proof.
  intros s.
  assert (Hinv : Setup.invariant s)
    by (apply SetupFacts.invariant_run, SetupFacts.invariant_init).
  pose proof Hinv as [H1 H2].
  assert (Hlive : forall i,
             Setup.stage_in_flight s i = true \/ Setup.stage_fulfilled s i = true ->
             Setup.memo s = Some i).
  { intros i [Hi|Hi].
    - destruct (SetupFacts.stage_in_flight_live s i Hi) as (st & Hst & Hl & _). eauto.
    - apply SetupFacts.stage_fulfilled_lookup in Hi. eauto. }
  split; [|split; [|split]].
  - intros i j Hi Hj.
    pose proof (Hlive i (or_introl Hi)). pose proof (Hlive j (or_introl Hj)). congruence.
  - intros i r Hi. pose proof (Hlive i Hi) as Hm. destruct (H2 i Hm) as (En & _).
    unfold Setup.ensureMetricsSetup. rewrite En, Hm. reflexivity.
  - intros i Hi. split; [|split].
    + intros j Hj.
      pose proof (Hlive i (or_intror Hi)). pose proof (Hlive j (or_intror Hj)). congruence.
    + intros j. destruct (Setup.stage_in_flight s j) eqn:Hj; [|reflexivity].
      pose proof (Hlive i (or_intror Hi)) as Hmi. pose proof (Hlive j (or_introl Hj)) as Hmj.
      assert (j = i) by congruence. subst j.
      apply SetupFacts.stage_fulfilled_lookup in Hi.
      unfold Setup.stage_in_flight in Hj. rewrite Hi in Hj. discriminate.
    + intros evs'. apply (SetupFacts.fulfilled_run evs' s i Hinv).
      apply SetupFacts.stage_fulfilled_lookup, Hi.
  - intros i ev Hev s' fresh.
    assert (Hs' : s' = Setup.fail i s /\ exists st, Setup.attempts s !! i = Some st
                                                   /\ Setup.live st = true).
    { subst s'. destruct Hev as [[Hi ->]|[Hi ->]]; cbn; rewrite Hi; eauto. }
    destruct Hs' as (Hs' & st & Hi & Hl).
    pose proof (H1 i st Hi Hl) as Hm. destruct (H2 i Hm) as (En & _).
    assert (Hlt : (i < length (Setup.attempts s))%nat) by (eapply lookup_lt_Some, Hi).
    assert (Hlen : fresh = length (Setup.attempts s)).
    { unfold fresh. rewrite Hs'. cbn. apply length_insert. }
    split; [rewrite Hs'; reflexivity|].
    split; [rewrite Hs'; cbn; apply list_lookup_insert_eq, Hlt|].
    split; [rewrite Hs'; unfold Setup.ensureMetricsSetup; cbn; rewrite En; reflexivity|].
    eexists. split.
    { unfold fresh. rewrite Hs'. unfold Setup.ensureMetricsSetup. cbn. rewrite En. reflexivity. }
    split; [lia|]. split; [|unfold fresh; rewrite Hs'; reflexivity].
    unfold Setup.stage_in_flight, fresh. rewrite Hs'. cbn.
    rewrite lookup_app_r by lia. rewrite Nat.sub_diag. reflexivity.
Qed.

Example setup_retry_run :
  let s := Setup.run (Setup.init true)
             [Setup.CallSetup true; Setup.CallSetup true; Setup.SelectReply 0 true;
              Setup.SetReply 0 false; Setup.CallSetup false; Setup.CallSetup true;
              Setup.SelectReply 1 true; Setup.SetReply 1 true; Setup.CallSetup true] in
  Setup.attempts s = [Setup.Failed; Setup.Fulfilled]
  /\ Setup.memo s = Some 1%nat
  /\ Setup.selects s = 2%nat.
Proof. repeat split. Qed.

(** After a failed attempt, a call that finds the metrics handle not
    ready starts no attempt. *)
Lemma not_ready_call_starts_nothing :
  let s := Setup.run (Setup.init true) [Setup.CallSetup true; Setup.SelectReply 0 false] in
  Setup.attempts s = [Setup.Failed]
  /\ Setup.memo s = None
  /\ Setup.ensureMetricsSetup false s = (Setup.RejectedNow MetricsClientNotReady, s)
  /\ Setup.selects (Setup.run s [Setup.CallSetup false]) = Setup.selects s.
Proof. repeat split. Qed.

(** * The claims on concrete worlds *)

Ltac store_available :=
  unfold available; cbn; repeat split; try reflexivity; try exact I;
  intros ? ?; discriminate.



Lemma set_then_get_witness :
  (available Example.fresh
   /\ _opsClient (manager Example.fresh) = Some Example.client
   /\ holds_string (keyspace Example.fresh) (selected Example.client) "v1" = false
   /\ Js.truthy (Json.stringify (response_object Example.ok_response)) = true
   /\ Json.parse (Json.stringify (response_object Example.ok_response))
      = Some (response_object Example.ok_response))
  /\ fst ((setCachedResponse None Json.stringify "v1" "https://host/updateCheck"
             Example.ok_response >>
           getCachedResponse None Json.parse "v1" "https://host/updateCheck") Example.fresh)
     = Resolved (response_object Example.ok_response)
  /\ fst ((setCachedResponse None Json.stringify "v1" "https://host/updateCheck"
             Example.ok_response >>
           getCachedResponse None Json.parse "v1" "https://host/other") Example.fresh)
     = Resolved Js.JsNull.
Proof.
  assert (Ha : available Example.fresh) by store_available.
  assert (Hc : _opsClient (manager Example.fresh) = Some Example.client) by reflexivity.
  assert (Hs : holds_string (keyspace Example.fresh) (selected Example.client) "v1" = false)
    by reflexivity.
  assert (Ht : Js.truthy (Json.stringify (response_object Example.ok_response)) = true)
    by reflexivity.
  assert (Hp : Json.parse (Json.stringify (response_object Example.ok_response))
               = Some (response_object Example.ok_response)) by (vm_compute; reflexivity).
  split; [auto 6|].
  destruct (set_then_get None Json.stringify Json.parse Example.fresh Example.client
              "v1" "https://host/updateCheck" Example.ok_response Ha Hc Hs Ht Hp)
    as [Hsame Hother].
  split; [exact Hsame|].
  apply (Hother "https://host/other"); [discriminate|].
  intros h Hh. discriminate.
Defined.

(** A url cached before under the same key is still answered after the
    call for another url. *)
Lemma other_url_still_cached :
  available Example.warm
  /\ fst ((setCachedResponse None Json.stringify "v1" "https://host/updateCheck"
             Example.ok_response >>
           getCachedResponse None Json.parse "v1" "https://host/other") Example.warm)
     <> Resolved Js.JsNull.
Proof.
  split.
  - unfold available. vm_compute. repeat split; intros; discriminate.
  - vm_compute. discriminate.
Qed.

Lemma invalid_status_no_op_witness :
  ((None : option string) = None
   /\ Utilities.isValidDeploymentStatus "Bogus" = false)
  /\ exists w',
       incrementLabelStatusCount None "dep1" "v1" "Bogus" Example.counted = (Resolved tt, w')
       /\ Redis.hash_at (keyspace w') METRICS_DB "deploymentKeyLabels:dep1"
          = Redis.hash_at (keyspace Example.counted) METRICS_DB "deploymentKeyLabels:dep1".
Proof.
  split; [split; reflexivity|].
  destruct (invalid_status_no_op None Example.counted "dep1" "v1" "Bogus" eq_refl eq_refl)
    as (_ & w' & new & E & _ & _ & _ & Hhash).
  exists w'. split; [exact E | exact (Hhash METRICS_DB)].
Defined.

(** With a client that sends a [null] argument as text, an unrecognized
    status changes the deployment's hash: the field [null] is counted. *)
Lemma invalid_status_counts_null_field :
  Utilities.isValidDeploymentStatus "Bogus" = false
  /\ available Example.fresh
  /\ Redis.hash_at
       (keyspace (snd (incrementLabelStatusCount (Some "null") "dep1" "v1" "Bogus" Example.fresh)))
       METRICS_DB "deploymentKeyLabels:dep1"
     <> Redis.hash_at (keyspace Example.fresh) METRICS_DB "deploymentKeyLabels:dep1"
  /\ Redis.counter
       (keyspace (snd (incrementLabelStatusCount (Some "null") "dep1" "v1" "Bogus" Example.fresh)))
       METRICS_DB "deploymentKeyLabels:dep1" "null" = Some 1.
Proof.
  split; [reflexivity|]. split; [store_available|].
  split; [vm_compute; discriminate | vm_compute; reflexivity].
Qed.

Lemma ttl_attached_once_witness :
  _opsClient (manager Example.fresh) = Some Example.client
  /\ (exists w',
        setCachedResponse None Json.stringify "v1" "https://host/updateCheck"
          Example.ok_response Example.fresh = (Resolved tt, w')
        /\ Redis.ttl_at (keyspace w') (selected Example.client) "v1" = Some 3600)
  /\ (exists w' new,
        setCachedResponse None Json.stringify "v1" "https://host/updateCheck"
          Example.ok_response Example.warm = (Resolved tt, w')
        /\ issued w' = (issued Example.warm ++ new)%list
        /\ Forall (fun q => is_expire q = false) new).
Proof.
  assert (Hc : _opsClient (manager Example.fresh) = Some Example.client) by reflexivity.
  split; [exact Hc|]. split.
  - destruct (ttl_attached_once None Json.stringify Example.fresh Example.client
                "v1" "https://host/updateCheck" Example.ok_response Hc) as [_ Hnew].
    destruct (Hnew eq_refl ltac:(store_available)) as (w' & E & _ & Httl).
    exists w'. split; [exact E | exact Httl].
  - assert (Hc' : _opsClient (manager Example.warm) = Some Example.client)
      by (vm_compute; reflexivity).
    destruct (ttl_attached_once None Json.stringify Example.warm Example.client
                "v1" "https://host/updateCheck" Example.ok_response Hc') as [Hold _].
    assert (Hex : is_Some (keyspace Example.warm !! (selected Example.client, "v1")))
      by (vm_compute; eauto).
    destruct (Hold Hex) as (w' & new & E & Hi & Hno & _).
    exists w', new. auto.
Defined.

Lemma disabled_without_configuration_witness :
  isEnabled (constructor Example.no_env) = false
  /\ isEnabled (constructor Example.env) = true
  /\ exists w',
       invoke None Json.stringify Json.parse
         (GetCachedResponse "v1" "https://host/updateCheck") Example.unconfigured
       = (Resolved (Response Js.JsNull), w')
       /\ issued w' = issued Example.unconfigured
       /\ keyspace w' = keyspace Example.unconfigured.
Proof.
  destruct (disabled_without_configuration None Json.stringify Json.parse Example.no_env)
    as (Hiff & Hall & _).
  split; [apply Hiff; left; left; reflexivity|].
  split; [reflexivity|].
  exact (Hall (GetCachedResponse "v1" "https://host/updateCheck") Example.unconfigured eq_refl).
Defined.

(** Without configuration [checkHealth] does not resolve. *)
Lemma checkHealth_rejects_when_disabled :
  isEnabled (manager Example.unconfigured) = false
  /\ fst (checkHealth None Example.unconfigured) = Rejected NotEnabled
  /\ forall a, fst (checkHealth None Example.unconfigured) <> Resolved a.
Proof. repeat split. intros a. discriminate. Qed.

Lemma metrics_values_parsed_witness :
  (available Example.mixed
   /\ Redis.hash_at (keyspace Example.mixed) METRICS_DB
        (Utilities.getDeploymentKeyLabelsHash "dep1")
      = Some (list_to_map
                [("v1:Active", "12"); ("v2:Active", "+5"); ("v3:Active", "007");
                 ("v4:Active", " 5 "); ("v5:Active", "n/a");
                 ("v6:Active", "9007199254740993"); ("v7:Active", "1e400");
                 ("v8:Active", " ")]))
  /\ exists w' m,
       getMetricsWithDeploymentKey None "dep1" Example.mixed = (Resolved (Some m), w')
       /\ m !! "v1:Active" = Some (Js.JsNum (Js.JsFinite 12))
       /\ m !! "v2:Active" = Some (Js.JsNum (Js.JsFinite 5))
       /\ m !! "v3:Active" = Some (Js.JsNum (Js.JsFinite 7))
       /\ m !! "v4:Active" = Some (Js.JsNum (Js.JsFinite 5))
       /\ m !! "v5:Active" = Some (Js.JsStr "n/a").
Proof.
  assert (Ha : available Example.mixed) by store_available.
  assert (Hh : Redis.hash_at (keyspace Example.mixed) METRICS_DB
                 (Utilities.getDeploymentKeyLabelsHash "dep1")
               = Some (list_to_map
                         [("v1:Active", "12"); ("v2:Active", "+5"); ("v3:Active", "007");
                          ("v4:Active", " 5 "); ("v5:Active", "n/a");
                          ("v6:Active", "9007199254740993"); ("v7:Active", "1e400");
                          ("v8:Active", " ")])) by reflexivity.
  split; [auto|].
  destruct (metrics_values_parsed None Example.mixed "dep1" _ Ha Hh)
    as (w' & m & E & _ & Hvalues).
  exists w', m. split; [exact E|].
  split; [|split; [|split; [|split]]].
  - destruct (Hvalues "v1:Active" "12" eq_refl) as (_ & _ & Hint).
    apply (Hint 12 eq_refl). vm_compute. discriminate.
  - destruct (Hvalues "v2:Active" "+5" eq_refl) as (Hnum & _).
    apply Hnum. vm_compute. discriminate.
  - destruct (Hvalues "v3:Active" "007" eq_refl) as (Hnum & _).
    apply Hnum. vm_compute. discriminate.
  - destruct (Hvalues "v4:Active" " 5 " eq_refl) as (Hnum & _).
    apply Hnum. vm_compute. discriminate.
  - destruct (Hvalues "v5:Active" "n/a" eq_refl) as (_ & Hstr & _).
    apply Hstr. reflexivity.
Defined.

(** Where the conversion departs from integers parsed and other texts
    passed through.  The decimal form of 2^53 + 1, which the store holds
    and counts as an integer, comes back as 2^53; a text in exponent
    form beyond the range of doubles comes back as the number
    [Infinity]; and a blank, which is no numeral, comes back as the
    number 0. *)
Lemma large_integer_is_rounded :
  available Example.mixed
  /\ Redis.counter (keyspace Example.mixed) METRICS_DB "deploymentKeyLabels:dep1" "v6:Active"
     = Some 9007199254740993
  /\ match fst (getMetricsWithDeploymentKey None "dep1" Example.mixed) with
     | Resolved (Some m) =>
         m !! "v6:Active" = Some (Js.JsNum (Js.JsFinite (inject_Z 9007199254740992)))
         /\ m !! "v7:Active" = Some (Js.JsNum (Js.JsInfinity false))
         /\ m !! "v8:Active" = Some (Js.JsNum (Js.JsFinite 0))
     | _ => False
     end.
Proof.
  split; [store_available|]. split; [vm_compute; reflexivity|].
  vm_compute. repeat split.
Qed.

Lemma status_count_takes_empty_label_witness :
  (available Example.fresh
   /\ Utilities.isValidDeploymentStatus "Downloaded" = true
   /\ Redis.counter (keyspace Example.fresh) METRICS_DB
        (Utilities.getDeploymentKeyLabelsHash "dep1") ":Downloaded" = Some 0)
  /\ exists w',
       incrementLabelStatusCount None "dep1" EmptyString "Downloaded" Example.fresh = (Resolved tt, w')
       /\ Redis.counter (keyspace w') METRICS_DB "deploymentKeyLabels:dep1" ":Downloaded"
          = Some 1.
Proof.
  assert (Ha : available Example.fresh) by store_available.
  split; [split; [exact Ha | split; reflexivity]|].
  destruct (status_count_takes_empty_label None Example.fresh "dep1" "Downloaded" 0
              Ha eq_refl eq_refl) as (_ & _ & Hinc).
  exact Hinc.
Defined.

Lemma blank_value_becomes_zero_witness :
  (available Example.blanked
   /\ Redis.hash_at (keyspace Example.blanked) METRICS_DB
        (Utilities.getDeploymentKeyLabelsHash "dep1")
      = Some {[ "v1:Active" := " " ]}
   /\ ({[ "v1:Active" := " " ]} : gmap string string) !! "v1:Active" = Some " "
   /\ Js.allWhiteSpace " " = true)
  /\ exists w' m,
       getMetricsWithDeploymentKey None "dep1" Example.blanked = (Resolved (Some m), w')
       /\ m !! "v1:Active" = Some (Js.JsNum (Js.JsFinite 0)).
Proof.
  assert (Ha : available Example.blanked) by store_available.
  assert (Hh : Redis.hash_at (keyspace Example.blanked) METRICS_DB
                 (Utilities.getDeploymentKeyLabelsHash "dep1")
               = Some {[ "v1:Active" := " " ]}) by (vm_compute; reflexivity).
  assert (Hv : ({[ "v1:Active" := " " ]} : gmap string string) !! "v1:Active" = Some " ")
    by (vm_compute; reflexivity).
  split; [auto 6|].
  destruct (blank_value_becomes_zero None Example.blanked "dep1" _ "v1:Active" " "
              Ha Hh Hv eq_refl) as [_ H].
  exact H.
Defined.

(** A body that JSON cannot carry does not come back: [NaN] is written
    as [null]. *)
Example nan_body_not_round_trip :
  Json.parse (Json.stringify
                (response_object {| statusCode := 200; body := Js.JsNum Js.JsNaN |}))
  <> Some (response_object {| statusCode := 200; body := Js.JsNum Js.JsNaN |}).
Proof. vm_compute. discriminate. Qed.

(** Scenarios of the specification, run on the model. *)
Example three_downloads :
  exists m,
    fst ((incrementLabelStatusCount None "dep1" "v3" "Downloaded" >>
          incrementLabelStatusCount None "dep1" "v3" "Downloaded" >>
          incrementLabelStatusCount None "dep1" "v3" "Downloaded" >>
          getMetricsWithDeploymentKey None "dep1") Example.fresh)
    = Resolved (Some m)
    /\ m = {[ "v3:Downloaded" := Js.JsNum (Js.JsFinite 3) ]}.
Proof. eexists. split; vm_compute; reflexivity. Qed.

Example clear_then_get :
  fst ((clearMetricsForDeploymentKey None "dep1" >>
        getMetricsWithDeploymentKey None "dep1") Example.counted)
  = Resolved None.
Proof. vm_compute. reflexivity. Qed.

Example not_ready_is_benign :
  fst (getMetricsWithDeploymentKey None "dep1" Example.connecting) = Resolved None
  /\ issued (snd (getMetricsWithDeploymentKey None "dep1" Example.connecting)) = []
  /\ fst (checkHealth None Example.unconfigured) = Rejected NotEnabled.
Proof. repeat split. Qed.

Example transport_fault_is_swallowed :
  let w := Example.world_of (Example.connect (constructor Example.env)) [false; true] in
  fst (setCachedResponse None Json.stringify "v1" "https://host/updateCheck"
         Example.ok_response w) = Resolved tt
  /\ keyspace (snd (setCachedResponse None Json.stringify "v1" "https://host/updateCheck"
                      Example.ok_response w)) = ∅
  /\ raised (snd (setCachedResponse None Json.stringify "v1" "https://host/updateCheck"
                    Example.ok_response w)) = [TransportError].
Proof. repeat split. Qed.

(** A fault at the third request of [setCachedResponse]: the call
    resolves, and the field it wrote stays, under a key without a time
    to live. *)
Lemma expire_fault_leaves_field :
  let w := Example.world_of (Example.connect (constructor Example.env)) [false; false; true] in
  let call := SetCachedResponse "v1" "https://host/updateCheck" Example.ok_response in
  let w' := snd (invoke None Json.stringify Json.parse call w) in
  fst (invoke None Json.stringify Json.parse call w) = Resolved Void
  /\ raised w = [] /\ raised w' = [TransportError]
  /\ Redis.hash_at (keyspace w) 0 "v1" = None
  /\ Redis.hash_at (keyspace w') 0 "v1"
     = Some {[ "https://host/updateCheck"
               := Json.stringify (response_object Example.ok_response) ]}
  /\ Redis.ttl_at (keyspace w') 0 "v1" = None.
Proof. repeat split. Qed.

(** * Further properties of the code *)

(** ** The names of keys and fields *)

Lemma list_ascii_of_string_append (s t : string) :
  list_ascii_of_string (s ++ t) = (list_ascii_of_string s ++ list_ascii_of_string t)%list.
Proof. induction s as [|a s IH]; simpl; [reflexivity|]. rewrite IH. reflexivity. Qed.

Lemma list_ascii_of_string_inj (s t : string) :
  list_ascii_of_string s = list_ascii_of_string t -> s = t.
Proof.
  intros H. rewrite <- (string_of_list_ascii_of_string s), H.
  apply string_of_list_ascii_of_string.
Qed.

(** Two strings with the same ending of the same length. *)
Lemma append_inj_length (s1 s2 t1 t2 : string) :
  String.length t1 = String.length t2 ->
  s1 ++ t1 = s2 ++ t2 -> s1 = s2 /\ t1 = t2.
Proof.
  intros Hl H. apply (f_equal list_ascii_of_string) in H.
  rewrite !list_ascii_of_string_append in H.
  apply app_inj_2 in H.
  - destruct H as [H1 H2]. split; apply list_ascii_of_string_inj; assumption.
  - clear H. revert t2 Hl. induction t1 as [|a t1 IH]; intros [|b t2] Hl; simpl in *;
      try discriminate; [reflexivity|]. f_equal. apply IH. congruence.
Qed.

(** The endings of the fields differ in their last characters. *)
Lemma append_endings_differ (s1 s2 t1 t2 : string) :
  (forall l1 l2 : list ascii,
     (reverse (list_ascii_of_string t1) ++ l1)%list
     <> (reverse (list_ascii_of_string t2) ++ l2)%list) ->
  s1 ++ t1 <> s2 ++ t2.
Proof.
  intros Hd H. apply (f_equal list_ascii_of_string) in H.
  rewrite !list_ascii_of_string_append in H.
  apply (f_equal reverse) in H. rewrite !reverse_app in H.
  exact (Hd _ _ H).
Qed.

Ltac endings_differ :=
  apply append_endings_differ; intros ? ?; vm_compute; discriminate.

Lemma valid_status_cases (status : string) :
  Utilities.isValidDeploymentStatus status = true ->
  status = DEPLOYMENT_SUCCEEDED \/ status = DEPLOYMENT_FAILED \/ status = DOWNLOADED.
Proof.
  unfold Utilities.isValidDeploymentStatus. intros H.
  apply orb_true_iff in H as [H|H]; [apply orb_true_iff in H as [H|H]|];
    apply String.eqb_eq in H; auto.
Qed.

Lemma status_field_inj (l1 l2 s1 s2 : string) :
  Utilities.isValidDeploymentStatus s1 = true ->
  Utilities.isValidDeploymentStatus s2 = true ->
  l1 ++ ":" ++ s1 = l2 ++ ":" ++ s2 -> l1 = l2 /\ s1 = s2.
Proof.
  intros H1 H2 H.
  destruct (valid_status_cases s1 H1) as [-> | [-> | ->]],
           (valid_status_cases s2 H2) as [-> | [-> | ->]];
    try (destruct (append_inj_length _ _ _ _ eq_refl H) as [-> _]; split; reflexivity);
    exfalso; revert H; endings_differ.
Qed.

Lemma status_field_not_active (l1 l2 s : string) :
  Utilities.isValidDeploymentStatus s = true ->
  l1 ++ ":" ++ s <> l2 ++ ":" ++ ACTIVE.
Proof.
  intros H. destruct (valid_status_cases s H) as [-> | [-> | ->]]; endings_differ.
Qed.

Lemma labels_hash_inj (a b : string) :
  Utilities.getDeploymentKeyLabelsHash a = Utilities.getDeploymentKeyLabelsHash b -> a = b.
Proof. intros H. vm_compute in H. congruence. Qed.

Lemma clients_hash_inj (a b : string) :
  Utilities.getDeploymentKeyClientsHash a = Utilities.getDeploymentKeyClientsHash b -> a = b.
Proof. intros H. vm_compute in H. congruence. Qed.

Lemma labels_hash_not_clients (a b : string) :
  Utilities.getDeploymentKeyLabelsHash a <> Utilities.getDeploymentKeyClientsHash b.
Proof. intros H. vm_compute in H. congruence. Qed.

Lemma clients_hash_not_health (deploymentKey : string) :
  Utilities.getDeploymentKeyClientsHash deploymentKey <> "health".
Proof. intros H. vm_compute in H. congruence. Qed.

(** X1: the keys of the store.  Each of the three constructors of keys
    gives different keys to different deployment keys, no two of them
    give the same key, and none gives [health], the key of the setup. *)
Theorem deployment_keys_never_collide (a b : string) :
  (Utilities.getDeploymentKeyHash a = Utilities.getDeploymentKeyHash b -> a = b)
  /\ (Utilities.getDeploymentKeyLabelsHash a = Utilities.getDeploymentKeyLabelsHash b -> a = b)
  /\ (Utilities.getDeploymentKeyClientsHash a = Utilities.getDeploymentKeyClientsHash b -> a = b)
  /\ Utilities.getDeploymentKeyLabelsHash a <> Utilities.getDeploymentKeyClientsHash b
  /\ Utilities.getDeploymentKeyHash a <> Utilities.getDeploymentKeyLabelsHash b
  /\ Utilities.getDeploymentKeyHash a <> Utilities.getDeploymentKeyClientsHash b
  /\ Utilities.getDeploymentKeyHash a <> "health"
  /\ Utilities.getDeploymentKeyLabelsHash a <> "health"
  /\ Utilities.getDeploymentKeyClientsHash a <> "health".
Proof.
  split; [intros H; vm_compute in H; congruence|].
  split; [apply labels_hash_inj|].
  split; [apply clients_hash_inj|].
  split; [apply labels_hash_not_clients|].
  repeat split; intros H; vm_compute in H; congruence.
Qed.

(** X2: the fields of a label-counters hash.  A field of a status is
    made for the three recognized statuses only and a field of the
    active count for a non-empty label only; a field determines the
    label and the status it was made from, and no field of a status is
    the field of an active count. *)
Theorem counter_fields_never_collide (l1 l2 s1 s2 : string) :
  (is_Some (Utilities.getLabelStatusField l1 s1)
   <-> s1 = DEPLOYMENT_SUCCEEDED \/ s1 = DEPLOYMENT_FAILED \/ s1 = DOWNLOADED)
  /\ (is_Some (Utilities.getLabelActiveCountField l1) <-> l1 <> EmptyString)
  /\ (is_Some (Utilities.getLabelStatusField l1 s1) ->
      Utilities.getLabelStatusField l1 s1 = Utilities.getLabelStatusField l2 s2 ->
      l1 = l2 /\ s1 = s2)
  /\ (is_Some (Utilities.getLabelActiveCountField l1) ->
      Utilities.getLabelActiveCountField l1 = Utilities.getLabelActiveCountField l2 ->
      l1 = l2)
  /\ (is_Some (Utilities.getLabelStatusField l1 s1) ->
      Utilities.getLabelStatusField l1 s1 <> Utilities.getLabelActiveCountField l2).
Proof.
  unfold Utilities.getLabelStatusField, Utilities.getLabelActiveCountField.
  split; [|split; [|split; [|split]]].
  - destruct (Utilities.isValidDeploymentStatus s1) eqn:E; split.
    + intros _. apply valid_status_cases, E.
    + intros _. eexists. reflexivity.
    + intros [x Hx]. discriminate.
    + intros [-> | [-> | ->]]; discriminate.
  - destruct l1; simpl; split; try congruence.
    + intros [x Hx]. discriminate.
    + intros _. eexists. reflexivity.
  - destruct (Utilities.isValidDeploymentStatus s1) eqn:E1; [|intros [x Hx]; discriminate].
    intros _. destruct (Utilities.isValidDeploymentStatus s2) eqn:E2; [|discriminate].
    intros H. injection H as H. exact (status_field_inj _ _ _ _ E1 E2 H).
  - destruct (Js.truthy l1); [|intros [x Hx]; discriminate].
    intros _. destruct (Js.truthy l2); [|discriminate].
    intros H. injection H as H.
    exact (proj1 (append_inj_length _ _ _ _ eq_refl H)).
  - destruct (Utilities.isValidDeploymentStatus s1) eqn:E1; [|intros [x Hx]; discriminate].
    intros _. destruct (Js.truthy l2); [|discriminate].
    intros H. injection H as H. exact (status_field_not_active _ _ _ E1 H).
Qed.

(** ** [checkHealth], and handles that are not ready *)

Section Health.

Context (null_argument : option string).
Context (JSON_stringify : Js.JsValue -> string).
Context (JSON_parse : string -> option Js.JsValue).

(** X3: [checkHealth] of a configured manager hands one [PING] to each
    connection, the second whatever becomes of the first, and does not
    go through the setup of the metrics handle; it leaves the store and
    the manager as they were.  It is resolved when neither of the two
    requests meets a fault of the transport and rejected with the
    failure of the transport otherwise. *)
Theorem checkHealth_pings_both (w : World) :
  isEnabled (manager w) = true ->
  exists o w',
    checkHealth null_argument w = (o, w')
    /\ issued w' = (issued w ++ [(Ops, Redis.Single Redis.PING);
                                 (Metrics, Redis.Single Redis.PING)])%list
    /\ keyspace w' = keyspace w
    /\ manager w' = manager w
    /\ (o = Resolved tt <-> nth 0 (faults w) false = false /\ nth 1 (faults w) false = false)
    /\ (o = Resolved tt \/ o = Rejected TransportError).
Proof.
  intros En. destruct (isEnabled_clients _ En) as (o & m & Ho & Hm).
  unfold checkHealth. rewrite En. cbn [negb].
  destruct w as [[ops met memo] ks fs iss rs]. cbn in Ho, Hm. subst ops met.
  unfold call. cbn.
  destruct fs as [|[] [|[] fs]]; cbn;
    eexists _, _; (split; [reflexivity|]); cbn;
    rewrite <- ?app_assoc; repeat split; auto; try discriminate;
    intros [H1 H2]; discriminate.
Qed.

Lemma safeCall_not_ready (h : Handle) (req : Redis.Request) (w : World) :
  client_ready (client_of h (manager w)) = false ->
  _safeCall null_argument h req w = reject ClientNotReady w.
Proof.
  intros H. unfold _safeCall. rewrite H. rewrite orb_true_r. reflexivity.
Qed.

Lemma ensureMetricsSetup_not_ready (w : World) :
  client_ready (_metricsClient (manager w)) = false ->
  exists o w1,
    ensureMetricsSetup null_argument w = (o, w1)
    /\ issued w1 = issued w /\ keyspace w1 = keyspace w /\ faults w1 = faults w
    /\ client_ready (_metricsClient (manager w1)) = false.
Proof.
  intros H. unfold ensureMetricsSetup.
  destruct (negb (isEnabled (manager w))); [eexists _, _; split; [reflexivity|]; auto|].
  destruct (_setupMetricsClientPromise (manager w)) as [[u|e]|];
    [eexists _, _; split; [reflexivity|]; auto ..|].
  rewrite H. cbn [negb]. eexists _, _. split; [reflexivity|]. auto.
Qed.

Lemma metrics_chain_not_ready {B : Type} (req : Redis.Request)
    (k : Redis.Reply -> Promise B) (d : B) (w : World) :
  client_ready (_metricsClient (manager w)) = false ->
  exists w',
    catch (ensureMetricsSetup null_argument >>
           r <- _safeCall null_argument Metrics req ;; k r)
          (fun _ => resolve d) w = (Resolved d, w')
    /\ issued w' = issued w /\ keyspace w' = keyspace w /\ faults w' = faults w.
Proof.
  intros H.
  destruct (ensureMetricsSetup_not_ready w H) as (o & w1 & He & Hi & Hk & Hf & Hr).
  unfold catch, then_. rewrite He. destruct o as [u|e].
  - rewrite (safeCall_not_ready Metrics req w1 Hr).
    eexists. split; [reflexivity|]. auto.
  - eexists. split; [reflexivity|]. auto.
Qed.

Lemma ops_chain_not_ready {B : Type} (req : Redis.Request)
    (k : Redis.Reply -> Promise B) (d : B) (w : World) :
  client_ready (_opsClient (manager w)) = false ->
  exists w',
    catch (r <- _safeCall null_argument Ops req ;; k r) (fun _ => resolve d) w
    = (Resolved d, w')
    /\ issued w' = issued w /\ keyspace w' = keyspace w /\ faults w' = faults w.
Proof.
  intros H. unfold catch, then_.
  rewrite (safeCall_not_ready Ops req w H).
  eexists. split; [reflexivity|]. auto.
Qed.

(** Every public method on a handle that is not ready. *)
Lemma invoke_not_ready (c : Call) (w : World) :
  client_ready (client_of (handle_of Ops Metrics c) (manager w)) = false ->
  exists w',
    invoke null_argument JSON_stringify JSON_parse c w = (Resolved (benign c), w')
    /\ issued w' = issued w /\ keyspace w' = keyspace w /\ faults w' = faults w.
Proof.
  intros Hr.
  destruct c; cbn [handle_of client_of] in Hr; unfold invoke, benign.
  - apply (map_promise_wrap Response _ w Js.JsNull).
    unfold getCachedResponse. apply ops_chain_not_ready, Hr.
  - apply (map_promise_wrap (fun _ => Void) _ w tt).
    unfold setCachedResponse. apply ops_chain_not_ready, Hr.
  - apply (map_promise_wrap (fun _ => Void) _ w tt).
    unfold invalidateCache.
    destruct (negb (isEnabled (manager w))).
    + exists w. split; [reflexivity|]. auto.
    + apply (ops_chain_not_ready _ (fun _ => resolve tt)), Hr.
  - apply (map_promise_wrap (fun _ => Void) _ w tt).
    unfold incrementLabelStatusCount. apply metrics_chain_not_ready, Hr.
  - apply (map_promise_wrap (fun _ => Void) _ w tt).
    unfold recordUpdate. apply metrics_chain_not_ready, Hr.
  - apply (map_promise_wrap MetricsOf _ w None).
    unfold getMetricsWithDeploymentKey. apply metrics_chain_not_ready, Hr.
  - apply (map_promise_wrap (fun _ => Void) _ w tt).
    unfold clearMetricsForDeploymentKey. apply metrics_chain_not_ready, Hr.
  - apply (map_promise_wrap (fun _ => Void) _ w tt).
    unfold removeDeploymentKeyClientActiveLabel. apply metrics_chain_not_ready, Hr.
  - apply (map_promise_wrap Label _ w None).
    unfold getCurrentActiveLabel. apply metrics_chain_not_ready, Hr.
  - apply (map_promise_wrap (fun _ => Void) _ w tt).
    unfold updateActiveAppForClient. apply metrics_chain_not_ready, Hr.
Qed.

(** X4: a call whose handle is not ready hands nothing to a
    connection, so that nothing waits in the queue of a client that is
    off line: it resolves to its benign default and leaves the store
    and the faults to come as they were. *)
Theorem not_ready_sends_nothing (c : Call) (w : World) :
  client_ready (client_of (handle_of Ops Metrics c) (manager w)) = false ->
  exists w',
    invoke null_argument JSON_stringify JSON_parse c w = (Resolved (benign c), w')
    /\ issued w' = issued w /\ keyspace w' = keyspace w /\ faults w' = faults w.
Proof. exact (invoke_not_ready c w). Qed.

(** X22: a manager that was just constructed.  When the host and the
    port are set, both clients are created from one configuration, with
    the host, the port and the password of the environment, and with
    TLS exactly when [REDIS_TLS] is the string [true]; no setup is
    memoized.  Until a connection is ready no public method hands a
    request to it: every call resolves to its benign default and leaves
    the store as it was. *)
Theorem fresh_manager_waits_for_its_connections (env : Env) :
  (isEnabled (constructor env) = true ->
   exists config,
     _opsClient (constructor env) = Some (createClient config)
     /\ _metricsClient (constructor env) = Some (createClient config)
     /\ REDIS_HOST env = Some (host config)
     /\ REDIS_PORT env = Some (port config)
     /\ auth_pass config = REDIS_KEY env
     /\ enable_offline_queue config = true
     /\ (tls_rejectUnauthorized config = Some true <-> REDIS_TLS env = Some "true")
     /\ (tls_rejectUnauthorized config = None <-> REDIS_TLS env <> Some "true"))
  /\ _setupMetricsClientPromise (constructor env) = None
  /\ (forall (c : Call) (w : World),
        manager w = constructor env ->
        exists w',
          invoke null_argument JSON_stringify JSON_parse c w = (Resolved (benign c), w')
          /\ issued w' = issued w /\ keyspace w' = keyspace w).
Proof.
  split; [|split].
  - unfold constructor.
    destruct (REDIS_HOST env) as [h|], (REDIS_PORT env) as [p|]; try discriminate.
    destruct (Js.truthy h && Js.truthy p); [|discriminate].
    intros _. eexists. split; [reflexivity|]. split; [reflexivity|]. cbn.
    repeat (split; [reflexivity|]).
    destruct (REDIS_TLS env) as [t|]; [destruct (String.eqb_spec t "true") as [->|Hne]|];
      split; split; intros H; try reflexivity; try discriminate; try congruence.
  - unfold constructor.
    destruct (REDIS_HOST env) as [h|], (REDIS_PORT env) as [p|]; try reflexivity.
    destruct (Js.truthy h && Js.truthy p); reflexivity.
  - intros c w Hm.
    destruct (invoke_not_ready c w) as (w' & E & Hi & Hk & _).
    + rewrite Hm. unfold constructor.
      destruct (REDIS_HOST env) as [h|], (REDIS_PORT env) as [p|];
        try (destruct (handle_of Ops Metrics c); reflexivity).
      destruct (Js.truthy h && Js.truthy p); destruct (handle_of Ops Metrics c); reflexivity.
    + exists w'. auto.
Qed.

End Health.

(** ** Relations that the methods respect *)

Section Respects.

Context (R : World -> World -> Prop).
Hypothesis R_refl : forall w, R w w.
Hypothesis R_trans : forall w1 w2 w3, R w1 w2 -> R w2 w3 -> R w1 w3.
Hypothesis R_raise : forall w e, R w (snd (@reject unit e w)).

Lemma respects_resolve {A : Type} (a : A) : respects R (resolve a).
Proof. intros w. apply R_refl. Qed.

Lemma respects_reject {A : Type} (e : Failure) : respects R (@reject A e).
Proof. intros w. exact (R_raise w e). Qed.

Lemma respects_then {A B : Type} (p : Promise A) (f : A -> Promise B) :
  respects R p -> (forall a, respects R (f a)) -> respects R (then_ p f).
Proof.
  intros Hp Hf w. unfold then_. specialize (Hp w).
  destruct (p w) as [[a|e] w1]; cbn [snd] in *; [|exact Hp].
  eapply R_trans; [exact Hp | apply Hf].
Qed.

Lemma respects_catch {A : Type} (p : Promise A) (h : Failure -> Promise A) :
  respects R p -> (forall e, respects R (h e)) -> respects R (catch p h).
Proof.
  intros Hp Hh w. unfold catch. specialize (Hp w).
  destruct (p w) as [[a|e] w1]; cbn [snd] in *; [exact Hp|].
  eapply R_trans; [exact Hp | apply Hh].
Qed.

Lemma respects_map_promise {A B : Type} (f : A -> B) (p : Promise A) :
  respects R p -> respects R (map_promise f p).
Proof. intros Hp. apply respects_then; [exact Hp|]. intros a. apply respects_resolve. Qed.

End Respects.

(** ** What a request leaves alone *)

Section Frames.

Context (null_argument : option string).
Context (JSON_stringify : Js.JsValue -> string).
Context (JSON_parse : string -> option Js.JsValue).

Lemma del_outside (db : Z) (keys : list string) :
  forall ks, same_outside db ks (foldl (Redis.del_key db) ks keys).
Proof.
  induction keys as [|k keys IH]; intros ks db' key Hne; cbn [foldl]; [reflexivity|].
  rewrite IH by exact Hne. unfold Redis.del_key.
  rewrite lookup_delete_ne by congruence. reflexivity.
Qed.

Lemma exec_outside (db : Z) (cmd : Redis.Command) (ks : Redis.Keyspace) :
  same_outside db ks (snd (Redis.exec db cmd ks)).
Proof.
  intros db' key Hne. destruct cmd; cbn [Redis.exec];
    try (apply del_outside; exact Hne);
    repeat case_match; cbn [snd];
    rewrite ?lookup_insert_ne, ?lookup_delete_ne by congruence; reflexivity.
Qed.

Lemma send_outside (c : RedisClient) (cmd : Redis.Command) (ks : Redis.Keyspace) :
  same_outside (selected c) ks (snd (send null_argument c cmd ks)).
Proof.
  intros db' key Hne. unfold send.
  destruct (encode null_argument cmd) as [cmd'|]; [|reflexivity].
  destruct cmd' as [a|a|a b|a b|a b|a|a b n|a b v| |idx|a b];
    try (match goal with
         | |- context [Redis.exec (selected c) ?cmd0 ks] =>
             pose proof (exec_outside (selected c) cmd0 ks db' key Hne) as H;
             destruct (Redis.exec (selected c) cmd0 ks) as [r ks1]; exact H
         end).
  destruct ((0 <=? idx) && (idx <? Redis.DATABASES)); reflexivity.
Qed.

Lemma send_all_outside (cmds : list Redis.Command) :
  forallb (fun cmd => negb (is_select_command cmd)) cmds = true ->
  forall (c : RedisClient) (ks : Redis.Keyspace),
    same_outside (selected c) ks (snd (send_all null_argument c cmds ks)).
Proof.
  induction cmds as [|cmd cmds IH]; intros H c ks db' key Hne; [reflexivity|].
  cbn in H. apply andb_true_iff in H as [H1 H2]. apply negb_true_iff in H1.
  cbn [send_all].
  pose proof (send_keeps_client null_argument c cmd ks H1) as Hc.
  pose proof (send_outside c cmd ks db' key Hne) as Hs.
  destruct (send null_argument c cmd ks) as [[r c1] ks1]. cbn in Hc, Hs. subst c1.
  pose proof (IH H2 c ks1 db' key Hne) as Hr.
  destruct (send_all null_argument c cmds ks1) as [[rs c2] ks2]. cbn in Hr |- *.
  congruence.
Qed.

Lemma perform_outside (c : RedisClient) (req : Redis.Request) (ks : Redis.Keyspace) :
  no_select req = true ->
  same_outside (selected c) ks (snd (perform null_argument c req ks)).
Proof.
  destruct req as [cmd|cmds]; cbn [no_select perform]; intros H.
  - apply send_outside.
  - intros db' key Hne.
    pose proof (send_all_outside cmds H c ks db' key Hne) as Hs.
    destruct (send_all null_argument c cmds ks) as [[rs c2] ks2]. exact Hs.
Qed.

(** A request that selects no database leaves the manager as it was. *)
Lemma safeCall_manager (h : Handle) (req : Redis.Request) (w : World) :
  no_select req = true ->
  manager (snd (_safeCall null_argument h req w)) = manager w.
Proof.
  intros Hreq.
  destruct (safeCall_spec null_argument h req w)
    as (o & w' & E & [(_ & _ & Hm & _) |
                      (c & r & c' & ks' & Hc & _ & _ & Hp & _ & Hm & _)]);
    rewrite E; cbn [snd]; [exact Hm|].
  pose proof (perform_keeps_client null_argument c (reaching req (faults w)) (keyspace w)
                (no_select_reaching _ _ Hreq)) as Hk.
  rewrite Hp in Hk. cbn in Hk. subst c'.
  rewrite Hm. apply with_client_same, Hc.
Qed.

Lemma safeCall_kept_to (h : Handle) (db : Z) (req : Redis.Request) :
  no_select req = true -> respects (kept_to h db) (_safeCall null_argument h req).
Proof.
  intros Hreq w. split; [apply safeCall_manager, Hreq|]. intros Hdb.
  destruct (safeCall_spec null_argument h req w)
    as (o & w' & E & [(_ & Hk & _) |
                      (c & r & c' & ks' & Hc & _ & _ & Hp & Hk & _)]);
    rewrite E; cbn [snd].
  - intros db' key _. rewrite Hk. reflexivity.
  - rewrite Hk. rewrite <- (Hdb c Hc).
    pose proof (perform_outside c (reaching req (faults w)) (keyspace w)
                  (no_select_reaching _ _ Hreq)) as Ho.
    rewrite Hp in Ho. exact Ho.
Qed.

Lemma safeCall_issued (h : Handle) (req : Redis.Request) (w : World) :
  issued (snd (_safeCall null_argument h req w)) = issued w
  \/ issued (snd (_safeCall null_argument h req w)) = (issued w ++ [(h, req)])%list.
Proof.
  destruct (safeCall_spec null_argument h req w)
    as (o & w' & E & [(_ & _ & _ & _ & Hi) | (c & r & c' & ks' & _ & _ & _ & _ & _ & _ & Hi & _)]);
    rewrite E; cbn [snd]; [exact Hi | right; exact Hi].
Qed.

Lemma safeCall_no_setup_since (h : Handle) (req : Redis.Request) :
  no_select req = true ->
  (h, req) <> (Metrics, Redis.Single (Redis.SET "health" "health")) ->
  respects no_setup_since (_safeCall null_argument h req).
Proof.
  intros Hreq Hset w. split; [apply safeCall_manager, Hreq|].
  destruct (safeCall_issued h req w) as [Hi|Hi]; rewrite Hi.
  - exists []. rewrite app_nil_r. split; [reflexivity | apply Forall_nil_2].
  - eexists. split; [reflexivity|]. apply Forall_cons_2; [|apply Forall_nil_2].
    intros [H|H]; [|exact (Hset H)].
    injection H as -> ->. discriminate.
Qed.

Lemma kept_to_refl (h : Handle) (db : Z) (w : World) : kept_to h db w w.
Proof. split; [reflexivity|]. intros _ db' key _. reflexivity. Qed.

Lemma kept_to_trans (h : Handle) (db : Z) (w1 w2 w3 : World) :
  kept_to h db w1 w2 -> kept_to h db w2 w3 -> kept_to h db w1 w3.
Proof.
  intros [Hm1 Hk1] [Hm2 Hk2]. split; [congruence|].
  intros Hdb db' key Hne.
  rewrite Hk2; [apply Hk1; assumption | | exact Hne].
  unfold on_database. rewrite Hm1. exact Hdb.
Qed.

Lemma kept_to_raise (h : Handle) (db : Z) (w : World) (e : Failure) :
  kept_to h db w (snd (@reject unit e w)).
Proof. split; [reflexivity|]. intros _ db' key _. reflexivity. Qed.

Lemma no_setup_since_refl (w : World) : no_setup_since w w.
Proof.
  split; [reflexivity|]. exists []. rewrite app_nil_r.
  split; [reflexivity | apply Forall_nil_2].
Qed.

Lemma no_setup_since_trans (w1 w2 w3 : World) :
  no_setup_since w1 w2 -> no_setup_since w2 w3 -> no_setup_since w1 w3.
Proof.
  intros (Hm1 & n1 & Hi1 & Hf1) (Hm2 & n2 & Hi2 & Hf2). split; [congruence|].
  exists (n1 ++ n2)%list. split; [rewrite Hi2, Hi1, app_assoc; reflexivity|].
  apply Forall_app. split; assumption.
Qed.

Lemma no_setup_since_raise (w : World) (e : Failure) :
  no_setup_since w (snd (@reject unit e w)).
Proof.
  split; [reflexivity|]. exists []. cbn. rewrite app_nil_r.
  split; [reflexivity | apply Forall_nil_2].
Qed.

(** The three methods of the cache respect a relation that the requests
    on the cache handle respect, those that select no database and name
    the key of the call. *)
Lemma cache_respects (R : World -> World -> Prop) (c : Call) :
  (forall w, R w w) ->
  (forall w1 w2 w3, R w1 w2 -> R w2 w3 -> R w1 w3) ->
  (forall w e, R w (snd (@reject unit e w))) ->
  (forall req,
     no_select req = true -> request_keys req = cache_key c ->
     respects R (_safeCall null_argument Ops req)) ->
  handle_of true false c = true ->
  respects R (invoke null_argument JSON_stringify JSON_parse c).
Proof.
  intros Hrefl Htrans Hraise Hcall Hc.
  destruct c; try discriminate; unfold invoke; apply respects_map_promise; try assumption.
  - unfold getCachedResponse.
    apply respects_catch; try assumption;
      [|intros; apply respects_resolve; assumption].
    apply respects_then; try assumption; [apply Hcall; reflexivity|].
    intros r. destruct (as_string r) as [s|]; [|apply respects_resolve; assumption].
    destruct (Js.truthy s); [|apply respects_resolve; assumption].
    destruct (JSON_parse s);
      [apply respects_resolve | apply respects_reject]; assumption.
  - unfold setCachedResponse.
    apply respects_catch; try assumption;
      [|intros; apply respects_resolve; assumption].
    apply respects_then; try assumption; [apply Hcall; reflexivity|]. intros r.
    apply respects_then; try assumption; [apply Hcall; reflexivity|]. intros _.
    apply respects_then; try assumption; [|intros; apply respects_resolve; assumption].
    destruct (as_number r =? 0); [|apply respects_resolve; assumption].
    apply respects_then; try assumption; [apply Hcall; reflexivity|].
    intros; apply respects_resolve; assumption.
  - intros w. unfold invalidateCache.
    destruct (negb (isEnabled (manager w))); [apply Hrefl|].
    revert w.
    change (respects R (catch (_safeCall null_argument Ops (Redis.Single (Redis.DEL [expiryKey]))
                               >> resolve tt) (fun _ => resolve tt))).
    apply respects_catch; try assumption;
      [|intros; apply respects_resolve; assumption].
    apply respects_then; try assumption; [apply Hcall; reflexivity|].
    intros; apply respects_resolve; assumption.
Qed.

(** The world a method of the aggregator ends in: that of the setup
    when it was rejected, and that of the one request after it
    otherwise. *)
Lemma metrics_chain_world {B : Type} (req : Redis.Request)
    (k : Redis.Reply -> Promise B) (d : B) (w : World) :
  (forall r w0, snd (k r w0) = w0) ->
  snd (catch (ensureMetricsSetup null_argument >>
              r <- _safeCall null_argument Metrics req ;; k r)
             (fun _ => resolve d) w)
  = match ensureMetricsSetup null_argument w with
    | (Resolved _, w1) => snd (_safeCall null_argument Metrics req w1)
    | (Rejected _, w1) => w1
    end.
Proof.
  intros Hk. unfold catch, then_.
  destruct (ensureMetricsSetup null_argument w) as [[u|e] w1]; [|reflexivity].
  destruct (_safeCall null_argument Metrics req w1) as [[r|e] w2]; [|reflexivity].
  specialize (Hk r w2). destruct (k r w2) as [[b|e] w3]; exact Hk.
Qed.

(** The one request of each method of the aggregator. *)
Lemma aggregator_world (c : Call) (w : World) :
  handle_of true false c = false ->
  exists req,
    no_select req = true
    /\ (Metrics, req) <> (Metrics, Redis.Single (Redis.SET "health" "health"))
    /\ snd (invoke null_argument JSON_stringify JSON_parse c w)
       = match ensureMetricsSetup null_argument w with
         | (Resolved _, w1) => snd (_safeCall null_argument Metrics req w1)
         | (Rejected _, w1) => w1
         end.
Proof.
  assert (Hmap : forall (A : Type) (f : A -> Answer) (p : Promise A),
             snd (map_promise f p w) = snd (p w)).
  { intros A f p. unfold map_promise, then_. destruct (p w) as [[a|e] w1]; reflexivity. }
  intros Hc. destruct c; try discriminate; unfold invoke; rewrite Hmap.
  - unfold incrementLabelStatusCount. eexists. split; [|split; [|apply metrics_chain_world]];
      [reflexivity | discriminate | reflexivity].
  - unfold recordUpdate. cbv zeta.
    eexists. split; [|split; [|apply (metrics_chain_world _ (fun _ => resolve tt))]];
      [|discriminate | reflexivity].
    cbn [no_select]. rewrite forallb_app. cbn.
    destruct previousDeploymentKey as [pk|], previousLabel as [pl|]; try reflexivity.
    destruct (Js.truthy pk && Js.truthy pl); reflexivity.
  - unfold getMetricsWithDeploymentKey.
    eexists. split; [|split; [|apply metrics_chain_world]];
      [reflexivity | discriminate |].
    intros r w0. destruct (as_object r); reflexivity.
  - unfold clearMetricsForDeploymentKey.
    eexists. split; [|split; [|apply metrics_chain_world]];
      [reflexivity | discriminate | reflexivity].
  - unfold removeDeploymentKeyClientActiveLabel.
    eexists. split; [|split; [|apply metrics_chain_world]];
      [reflexivity | discriminate | reflexivity].
  - unfold getCurrentActiveLabel.
    eexists. split; [|split; [|apply metrics_chain_world]];
      [reflexivity | discriminate | reflexivity].
  - unfold updateActiveAppForClient. cbv zeta.
    eexists. split; [|split; [|apply (metrics_chain_world _ (fun _ => resolve tt))]];
      [|discriminate | reflexivity].
    cbn [no_select]. rewrite forallb_app. cbn.
    destruct fromLabel as [fl|]; try reflexivity.
    destruct (Js.truthy fl); reflexivity.
Qed.

Lemma handle_of_cases (c : Call) :
  (handle_of true false c = true /\ forall (A : Type) (x y : A), handle_of x y c = x)
  \/ (handle_of true false c = false /\ forall (A : Type) (x y : A), handle_of x y c = y).
Proof. destruct c; cbn; auto. Qed.

(** The setup leaves the cache handle and the databases other than that
    of the metrics alone. *)
Lemma ensureMetricsSetup_outside (w : World) :
  _opsClient (manager (snd (ensureMetricsSetup null_argument w))) = _opsClient (manager w)
  /\ same_outside METRICS_DB (keyspace w) (keyspace (snd (ensureMetricsSetup null_argument w))).
Proof.
  unfold ensureMetricsSetup, same_outside.
  destruct w as [[ops met memo] ks fs iss rs]. cbn.
  destruct (isEnabled _) eqn:En; cbn; [|split; reflexivity].
  destruct (isEnabled_clients _ En) as (o & c & Ho & Hc). cbn in Ho, Hc. subst ops met.
  destruct memo as [[[]|e]|]; [split; reflexivity ..|].
  cbn. destruct (ready c); cbn; [|split; reflexivity].
  unfold catch, then_, call. cbn.
  destruct fs as [|[] [|[] fs]]; cbn; (split; [reflexivity|]);
    intros db' key Hne; rewrite ?lookup_insert_ne by (intros Heq; injection Heq as Heq _; congruence);
    reflexivity.
Qed.

Lemma ensureMetricsSetup_done (w : World) :
  setup_done w -> isEnabled (manager w) = true ->
  ensureMetricsSetup null_argument w = (Resolved tt, w).
Proof.
  intros [u Hu] En. unfold ensureMetricsSetup. rewrite En, Hu. reflexivity.
Qed.

End Frames.

Section Separation.

Context (null_argument : option string).
Context (JSON_stringify : Js.JsValue -> string).
Context (JSON_parse : string -> option Js.JsValue).

(** X5: once the setup of the metrics handle is done, no public method
    runs it again or undoes it: whatever the call and whatever fails in
    it, the manager, with its two connections and the memoized promise,
    is as it was, and neither [SELECT] nor the write of [health] is
    among the requests of the call.  The methods of the cache leave the
    manager as it was whether the setup is done or not. *)
Theorem done_setup_is_kept (c : Call) (w : World) :
  (handle_of Ops Metrics c = Metrics -> setup_done w) ->
  no_setup_since w (snd (invoke null_argument JSON_stringify JSON_parse c w)).
Proof.
  intros Hdone.
  destruct (handle_of_cases c) as [[Hc Hh]|[Hc Hh]].
  - apply (cache_respects null_argument JSON_stringify JSON_parse no_setup_since c
             no_setup_since_refl no_setup_since_trans no_setup_since_raise); [|exact Hc].
    intros req Hreq _. apply safeCall_no_setup_since; [exact Hreq | discriminate].
  - specialize (Hdone (Hh _ Ops Metrics)).
    destruct (aggregator_world null_argument JSON_stringify JSON_parse c w Hc)
      as (req & Hreq & Hset & ->).
    destruct (isEnabled (manager w)) eqn:En.
    + rewrite (ensureMetricsSetup_done null_argument w Hdone En).
      apply safeCall_no_setup_since; assumption.
    + unfold ensureMetricsSetup. rewrite En. cbn [negb].
      apply no_setup_since_raise.
Qed.

(** X6: the cache and the aggregator keep to their databases.  With
    the cache handle on database 0, where a client starts, and a memoized
    setup that agrees with the metrics handle, a method of the cache
    changes no key outside database 0 and a method of the aggregator no
    key outside database 1, whatever fails in it; and both conditions
    hold again after the call. *)
Theorem cache_and_metrics_apart (c : Call) (w : World) :
  consistent w ->
  on_database Ops 0 w ->
  same_outside (handle_of 0 METRICS_DB c) (keyspace w)
    (keyspace (snd (invoke null_argument JSON_stringify JSON_parse c w)))
  /\ consistent (snd (invoke null_argument JSON_stringify JSON_parse c w))
  /\ on_database Ops 0 (snd (invoke null_argument JSON_stringify JSON_parse c w)).
Proof.
  intros Hcons Hops.
  destruct (handle_of_cases c) as [[Hc Hh]|[Hc Hh]]; rewrite Hh.
  - destruct (cache_respects null_argument JSON_stringify JSON_parse (kept_to Ops 0) c
                (kept_to_refl Ops 0) (kept_to_trans Ops 0) (kept_to_raise Ops 0)
                (fun req Hreq _ => safeCall_kept_to null_argument Ops 0 req Hreq) Hc w)
      as [Hm Hk].
    split; [exact (Hk Hops)|]. split.
    + exact (consistent_manager w _ Hm Hcons).
    + unfold on_database. rewrite Hm. exact Hops.
  - destruct (aggregator_world null_argument JSON_stringify JSON_parse c w Hc)
      as (req & Hreq & _ & ->).
    destruct (ensureMetricsSetup_spec null_argument w)
      as (o & w1 & setup & He & _ & _ & _ & Hcons1 & _ & Hres & _).
    destruct (ensureMetricsSetup_outside null_argument w) as [Hops1 Hout].
    rewrite He in Hops1, Hout |- *. cbn [snd] in Hops1, Hout.
    assert (Hops' : on_database Ops 0 w1).
    { unfold on_database. cbn [client_of]. rewrite Hops1. exact Hops. }
    destruct o as [u|e]; [|split; [exact Hout|]; split; [exact (Hcons1 Hcons) | exact Hops']].
    destruct (Hres u eq_refl) as (_ & c1 & Hc1 & Hsel).
    destruct (safeCall_kept_to null_argument Metrics METRICS_DB req Hreq w1) as [Hm Hk].
    split; [|split].
    + intros db' key Hne. rewrite Hk; [apply Hout, Hne | | exact Hne].
      intros c2 Hc2. cbn [client_of] in Hc2. rewrite Hc1 in Hc2. injection Hc2 as <-.
      apply Hsel, Hcons.
    + exact (consistent_manager w1 _ Hm (Hcons1 Hcons)).
    + unfold on_database. rewrite Hm. exact Hops'.
Qed.

End Separation.

(** ** Calls on an available store *)

Section Available.

Context (null_argument : option string).
Context (JSON_stringify : Js.JsValue -> string).
Context (JSON_parse : string -> option Js.JsValue).

Lemma available_ext (w w' : World) :
  manager w' = manager w -> faults w' = [] -> available w -> available w'.
Proof.
  unfold available, consistent. intros -> ->. intros (En & Ho & Hm & _ & Hc & Hr).
  repeat split; assumption.
Qed.

(** On an available store the setup is resolved, and the store is
    available after it. *)
Lemma ensureMetricsSetup_settles (w : World) :
  available w ->
  exists w1 c1,
    ensureMetricsSetup null_argument w = (Resolved tt, w1)
    /\ available w1
    /\ _opsClient (manager w1) = _opsClient (manager w)
    /\ _metricsClient (manager w1) = Some c1
    /\ selected c1 = METRICS_DB
    /\ (forall db key, key <> "health" -> keyspace w1 !! (db, key) = keyspace w !! (db, key))
    /\ raised w1 = raised w
    /\ setup_done w1.
Proof.
  unfold ensureMetricsSetup, available, setup_done.
  destruct w as [[ops met memo] ks fs iss rs]. unfold consistent. cbn.
  intros (En & Hro & Hrm & -> & Hcons & Hrej).
  rewrite En. cbn.
  destruct (isEnabled_clients _ En) as (o & c & Ho & Hc). cbn in Ho, Hc. subst ops met.
  cbn in Hro, Hrm.
  destruct memo as [[[]|e]|].
  - exists {| manager := {| _opsClient := Some o; _metricsClient := Some c;
                           _setupMetricsClientPromise := Some (Resolved tt) |};
              keyspace := ks; faults := []; issued := iss; raised := rs |}, c.
    cbn. repeat split; try assumption; try reflexivity. exists tt. reflexivity.
  - exfalso. exact (Hrej e eq_refl).
  - cbn. rewrite Hrm. cbn. unfold catch, then_, call. cbn.
    eexists _, _. split; [reflexivity|]. cbn.
    repeat split; try assumption; try reflexivity; try discriminate;
      try (exists tt; reflexivity).
    intros db key Hne. rewrite lookup_insert_ne by congruence. reflexivity.
Qed.

(** A request on an available store is performed, and the store is
    available after it. *)
Lemma safeCall_step (h : Handle) (req : Redis.Request) (w : World) (c : RedisClient) :
  available w ->
  client_of h (manager w) = Some c ->
  no_select req = true ->
  exists w',
    _safeCall null_argument h req w
    = (match fst (fst (perform null_argument c req (keyspace w))) with
       | Redis.Error m => Rejected (ReplyError m)
       | r => Resolved r
       end, w')
    /\ available w'
    /\ manager w' = manager w
    /\ keyspace w' = snd (perform null_argument c req (keyspace w))
    /\ issued w' = (issued w ++ [(h, req)])%list
    /\ raised w'
       = match fst (fst (perform null_argument c req (keyspace w))) with
         | Redis.Error m => (raised w ++ [ReplyError m])%list
         | _ => raised w
         end.
Proof.
  intros Ha Hc Hreq.
  assert (Hr : ready c = true).
  { destruct Ha as (_ & Ho & Hm & _). destruct h; cbn in Hc; rewrite Hc in *; assumption. }
  pose proof Ha as (En & _ & _ & Hf & _).
  rewrite (safeCall_available null_argument h req w c En Hc Hr Hf).
  pose proof (perform_keeps_client null_argument c req (keyspace w) Hreq) as Hk.
  destruct (perform null_argument c req (keyspace w)) as [[r c'] ks']. cbn in Hk. subst c'.
  cbn [fst snd]. rewrite (with_client_same h c _ Hc).
  destruct r; (eexists; split; [reflexivity|]; cbn;
               split; [eapply available_ext; [| |exact Ha]; reflexivity|];
               repeat split; reflexivity).
Qed.

(** A method of the aggregator on an available store: the setup, then
    the one request on the metrics database. *)
Lemma metrics_chain_available {B : Type} (req : Redis.Request)
    (k : Redis.Reply -> Promise B) (d : B) (w : World) :
  available w ->
  no_select req = true ->
  exists w1 c1 w2,
    (forall db key, key <> "health" -> keyspace w1 !! (db, key) = keyspace w !! (db, key))
    /\ selected c1 = METRICS_DB
    /\ raised w1 = raised w
    /\ available w2
    /\ keyspace w2 = snd (perform null_argument c1 req (keyspace w1))
    /\ raised w2
       = match fst (fst (perform null_argument c1 req (keyspace w1))) with
         | Redis.Error m => (raised w ++ [ReplyError m])%list
         | _ => raised w
         end
    /\ catch (ensureMetricsSetup null_argument >>
              r <- _safeCall null_argument Metrics req ;; k r)
             (fun _ => resolve d) w
       = match fst (fst (perform null_argument c1 req (keyspace w1))) with
         | Redis.Error m => (Resolved d, w2)
         | r => catch (k r) (fun _ => resolve d) w2
         end.
Proof.
  intros Ha Hreq.
  destruct (ensureMetricsSetup_settles w Ha)
    as (w1 & c1 & He & Ha1 & _ & Hc1 & Hsel & Hfr & Hr1 & _).
  destruct (safeCall_step Metrics req w1 c1 Ha1 Hc1 Hreq) as (w2 & Hs & Ha2 & _ & Hk2 & _ & Hr2).
  exists w1, c1, w2. rewrite <- Hr1.
  repeat (split; [first [assumption | reflexivity]|]).
  unfold catch at 1. unfold then_ at 1. rewrite He. unfold then_ at 1. rewrite Hs.
  destruct (fst (fst (perform null_argument c1 req (keyspace w1)))); reflexivity.
Qed.

(** A request of the cache on an available store. *)
Lemma ops_step (req : Redis.Request) (w : World) :
  available w ->
  no_select req = true ->
  exists c w',
    _opsClient (manager w) = Some c
    /\ _safeCall null_argument Ops req w
       = (match fst (fst (perform null_argument c req (keyspace w))) with
          | Redis.Error m => Rejected (ReplyError m)
          | r => Resolved r
          end, w')
    /\ available w'
    /\ manager w' = manager w
    /\ keyspace w' = snd (perform null_argument c req (keyspace w)).
Proof.
  intros Ha Hreq.
  destruct (isEnabled_clients _ (proj1 Ha)) as (o & m & Ho & Hm).
  destruct (safeCall_step Ops req w o Ha Ho Hreq) as (w' & Hs & Ha' & Hm' & Hk & _).
  exists o, w'. auto.
Qed.

End Available.

(** ** Invalidation of the cache *)

Section Invalidation.

Context (null_argument : option string).
Context (JSON_stringify : Js.JsValue -> string).
Context (JSON_parse : string -> option Js.JsValue).

Lemma invalidateCache_available (expiryKey : string) (w : World) :
  available w ->
  exists c w',
    _opsClient (manager w) = Some c
    /\ invalidateCache null_argument expiryKey w = (Resolved tt, w')
    /\ available w'
    /\ manager w' = manager w
    /\ keyspace w' = delete (selected c, expiryKey) (keyspace w).
Proof.
  intros Ha.
  destruct (ops_step null_argument (Redis.Single (Redis.DEL [expiryKey])) w Ha eq_refl)
    as (c & w' & Hc & Hs & Ha' & Hm & Hk).
  exists c, w'. split; [exact Hc|].
  unfold invalidateCache. rewrite (proj1 Ha). cbn [negb].
  unfold catch, then_. rewrite Hs. cbn. auto.
Qed.

Lemma getCachedResponse_available (expiryKey url : string) (w : World) (c : RedisClient) :
  available w ->
  _opsClient (manager w) = Some c ->
  fst (getCachedResponse null_argument JSON_parse expiryKey url w)
  = Resolved (cached JSON_parse (keyspace w) (selected c) expiryKey url).
Proof.
  intros Ha Hc. pose proof Ha as (En & Hro & _ & Hf & _).
  rewrite Hc in Hro. cbn in Hro.
  rewrite (after_start w Hf) at 1.
  apply (getCachedResponse_after null_argument JSON_parse w c _ _ _ _ En Hc Hro).
Qed.

(** X7: [invalidateCache] on an available store drops all that is
    cached under the key: after it [getCachedResponse] resolves to
    [null] for every url under the key and, for a url under another key,
    to what it resolved to before; and the next [setCachedResponse]
    under the key starts a hash with that one url and a time to live of
    3600 seconds. *)
Theorem invalidateCache_drops_the_key (w : World) (expiryKey : string) :
  available w ->
  (forall url,
     fst ((invalidateCache null_argument expiryKey >>
           getCachedResponse null_argument JSON_parse expiryKey url) w)
     = Resolved Js.JsNull)
  /\ (forall other url,
        other <> expiryKey ->
        fst ((invalidateCache null_argument expiryKey >>
              getCachedResponse null_argument JSON_parse other url) w)
        = fst (getCachedResponse null_argument JSON_parse other url w))
  /\ (forall url response,
        exists c w',
          _opsClient (manager w) = Some c
          /\ (invalidateCache null_argument expiryKey >>
              setCachedResponse null_argument JSON_stringify expiryKey url response) w
             = (Resolved tt, w')
          /\ Redis.hash_at (keyspace w') (selected c) expiryKey
             = Some {[ url := JSON_stringify (response_object response) ]}
          /\ Redis.ttl_at (keyspace w') (selected c) expiryKey = Some DEFAULT_EXPIRY).
Proof.
  intros Ha.
  destruct (invalidateCache_available expiryKey w Ha) as (c & w1 & Hc & Hi & Ha1 & Hm & Hk).
  assert (Hc1 : _opsClient (manager w1) = Some c) by (rewrite Hm; exact Hc).
  split; [|split].
  - intros url. unfold then_. rewrite Hi.
    rewrite (getCachedResponse_available expiryKey url w1 c Ha1 Hc1).
    unfold cached, Redis.hash_at. rewrite Hk, lookup_delete_eq. reflexivity.
  - intros other url Hne. unfold then_. rewrite Hi.
    rewrite (getCachedResponse_available other url w1 c Ha1 Hc1).
    rewrite (getCachedResponse_available other url w c Ha Hc).
    unfold cached, Redis.hash_at. rewrite Hk, lookup_delete_ne by congruence. reflexivity.
  - intros url response. exists c.
    unfold then_ at 1. rewrite Hi.
    pose proof Ha1 as (En & Hro & _ & Hf & _).
    rewrite Hc1 in Hro. cbn in Hro.
    assert (Hnone : keyspace w1 !! (selected c, expiryKey) = None)
      by (rewrite Hk; apply lookup_delete_eq).
    pose proof (setCachedResponse_after null_argument JSON_stringify w1 c (keyspace w1) []
                  expiryKey url response En Hc1 Hro) as Hset.
    rewrite <- (after_start w1 Hf) in Hset. cbv zeta in Hset.
    rewrite Hset by (unfold holds_string; rewrite Hnone; reflexivity).
    rewrite Hnone. eexists. split; [exact Hc|]. split; [reflexivity|].
    unfold Redis.hash_at, Redis.ttl_at, after. cbn [keyspace].
    rewrite lookup_insert_eq. split; reflexivity.
Qed.

End Invalidation.

(** ** The keys a request changes *)

Section Keys.

Context (null_argument : option string).
Context (JSON_stringify : Js.JsValue -> string).
Context (JSON_parse : string -> option Js.JsValue).

Lemma del_other_keys (db : Z) (keys : list string) (db' : Z) (key : string) :
  key ∉ keys ->
  forall ks, foldl (Redis.del_key db) ks keys !! (db', key) = ks !! (db', key).
Proof.
  induction keys as [|k keys IH]; intros Hn ks; cbn [foldl]; [reflexivity|].
  apply not_elem_of_cons in Hn as [Hk Hn].
  rewrite IH by exact Hn. unfold Redis.del_key.
  rewrite lookup_delete_ne by congruence. reflexivity.
Qed.

Lemma exec_other_keys (db : Z) (cmd : Redis.Command) (ks : Redis.Keyspace)
    (db' : Z) (key : string) :
  key ∉ keys_of cmd ->
  snd (Redis.exec db cmd ks) !! (db', key) = ks !! (db', key).
Proof.
  intros Hn. destruct cmd; cbn [Redis.exec keys_of] in *;
    try (apply del_other_keys; exact Hn);
    try (apply not_elem_of_cons in Hn as [Hk _]);
    repeat case_match; cbn [snd];
    rewrite ?lookup_insert_ne, ?lookup_delete_ne by congruence; reflexivity.
Qed.

Lemma encode_keys (cmd cmd' : Redis.Command) :
  encode null_argument cmd = Some cmd' -> keys_of cmd' = keys_of cmd.
Proof.
  unfold encode. intros H.
  destruct cmd as [a|a|a b|a b|a b|a|a [f|] n|a b v| |idx|a b]; try (injection H as <-; reflexivity).
  destruct null_argument; [injection H as <-; reflexivity | discriminate].
Qed.

Lemma send_other_keys (c : RedisClient) (cmd : Redis.Command) (ks : Redis.Keyspace)
    (db' : Z) (key : string) :
  key ∉ keys_of cmd ->
  snd (send null_argument c cmd ks) !! (db', key) = ks !! (db', key).
Proof.
  intros Hn. unfold send.
  destruct (encode null_argument cmd) as [cmd'|] eqn:E; [|reflexivity].
  rewrite <- (encode_keys cmd cmd' E) in Hn.
  destruct cmd' as [a|a|a b|a b|a b|a|a b n|a b v| |idx|a b];
    try (match goal with
         | |- context [Redis.exec (selected c) ?cmd0 ks] =>
             pose proof (exec_other_keys (selected c) cmd0 ks db' key Hn) as H;
             destruct (Redis.exec (selected c) cmd0 ks) as [r ks1]; exact H
         end).
  destruct ((0 <=? idx) && (idx <? Redis.DATABASES)); reflexivity.
Qed.

Lemma send_all_other_keys (cmds : list Redis.Command) (db' : Z) (key : string) :
  key ∉ concat (map keys_of cmds) ->
  forall (c : RedisClient) (ks : Redis.Keyspace),
    snd (send_all null_argument c cmds ks) !! (db', key) = ks !! (db', key).
Proof.
  induction cmds as [|cmd cmds IH]; intros Hn c ks; [reflexivity|].
  cbn [map concat] in Hn. apply not_elem_of_app in Hn as [H1 H2].
  cbn [send_all].
  pose proof (send_other_keys c cmd ks db' key H1) as Hs.
  destruct (send null_argument c cmd ks) as [[r c1] ks1]. cbn [snd] in Hs.
  pose proof (IH H2 c1 ks1) as Hr.
  destruct (send_all null_argument c1 cmds ks1) as [[rs c2] ks2]. cbn [snd] in Hr |- *.
  congruence.
Qed.

Lemma perform_other_keys (c : RedisClient) (req : Redis.Request) (ks : Redis.Keyspace)
    (db' : Z) (key : string) :
  key ∉ request_keys req ->
  snd (perform null_argument c req ks) !! (db', key) = ks !! (db', key).
Proof.
  destruct req as [cmd|cmds]; cbn [request_keys perform]; intros Hn.
  - apply send_other_keys, Hn.
  - pose proof (send_all_other_keys cmds db' key Hn c ks) as Hs.
    destruct (send_all null_argument c cmds ks) as [[rs c2] ks2]. exact Hs.
Qed.

(** A request changes no key but those it names, whatever becomes of
    it. *)
Lemma safeCall_other_keys (h : Handle) (req : Redis.Request) (w : World)
    (db' : Z) (key : string) :
  key ∉ request_keys req ->
  keyspace (snd (_safeCall null_argument h req w)) !! (db', key) = keyspace w !! (db', key).
Proof.
  intros Hn.
  destruct (safeCall_spec null_argument h req w)
    as (o & w' & E & [(_ & Hk & _) | (c & r & c' & ks' & _ & _ & _ & Hp & Hk & _)]);
    rewrite E; cbn [snd]; rewrite Hk; [reflexivity|].
  pose proof (perform_other_keys c (reaching req (faults w)) (keyspace w) db' key
                (request_keys_reaching _ _ _ Hn)) as Ho.
  rewrite Hp in Ho. exact Ho.
Qed.

(** A method of the aggregator changes no key but [health] and those
    its request names. *)
Lemma metrics_chain_other_keys {B : Type} (req : Redis.Request)
    (k : Redis.Reply -> Promise B) (d : B) (w : World) (db' : Z) (key : string) :
  (forall r w0, snd (k r w0) = w0) ->
  key <> "health" ->
  key ∉ request_keys req ->
  keyspace (snd (catch (ensureMetricsSetup null_argument >>
                        r <- _safeCall null_argument Metrics req ;; k r)
                       (fun _ => resolve d) w)) !! (db', key)
  = keyspace w !! (db', key).
Proof.
  intros Hk Hh Hn. rewrite (metrics_chain_world null_argument req k d w Hk).
  destruct (ensureMetricsSetup_spec null_argument w)
    as (o & w1 & setup & He & Hframe & _).
  rewrite He. destruct o as [u|e]; [|apply Hframe, Hh].
  rewrite (safeCall_other_keys Metrics req w1 db' key Hn). apply Hframe, Hh.
Qed.

End Keys.

(** ** The aggregator, deployment by deployment *)

Section Deployments.

Context (null_argument : option string).
Context (JSON_stringify : Js.JsValue -> string).
Context (JSON_parse : string -> option Js.JsValue).

Ltac other_deployment :=
  let Hin := fresh "Hin" in
  intros Hin;
  repeat (apply elem_of_cons in Hin as [Hin|Hin]);
  try (apply elem_of_nil in Hin; exact Hin);
  first [ apply labels_hash_inj in Hin
        | apply clients_hash_inj in Hin
        | exfalso; exact (labels_hash_not_clients _ _ Hin)
        | exfalso; symmetry in Hin; exact (labels_hash_not_clients _ _ Hin) ];
  subst; set_solver.

(** X8: a call of the aggregator changes nothing of another deployment:
    whatever the world and whatever fails, the label-counters hash and
    the clients hash of every deployment key that the call does not name
    are as they were, in every database. *)
Theorem aggregator_keeps_to_its_deployments (c : Call) (w : World) (other : string) (db : Z) :
  handle_of Ops Metrics c = Metrics ->
  other ∉ deployments_of c ->
  keyspace (snd (invoke null_argument JSON_stringify JSON_parse c w))
    !! (db, Utilities.getDeploymentKeyLabelsHash other)
  = keyspace w !! (db, Utilities.getDeploymentKeyLabelsHash other)
  /\ keyspace (snd (invoke null_argument JSON_stringify JSON_parse c w))
       !! (db, Utilities.getDeploymentKeyClientsHash other)
     = keyspace w !! (db, Utilities.getDeploymentKeyClientsHash other).
Proof.
  assert (Hmap : forall (A : Type) (f : A -> Answer) (p : Promise A),
             snd (map_promise f p w) = snd (p w)).
  { intros A f p. unfold map_promise, then_. destruct (p w) as [[a|e] w1]; reflexivity. }
  intros Hc Hn.
  destruct c; try discriminate; unfold invoke; rewrite Hmap; cbn [deployments_of] in Hn.
  - unfold incrementLabelStatusCount.
    split; apply metrics_chain_other_keys;
      first [reflexivity | apply labels_hash_not_health | apply clients_hash_not_health
            | cbn; other_deployment].
  - unfold recordUpdate. cbv zeta.
    split; apply (metrics_chain_other_keys _ _ (fun _ => resolve tt));
      first [reflexivity | apply labels_hash_not_health | apply clients_hash_not_health | idtac];
      cbn [request_keys]; rewrite map_app, concat_app; cbn;
      destruct previousDeploymentKey as [pk|], previousLabel as [pl|]; cbn;
      try (destruct (Js.truthy pk && Js.truthy pl); cbn);
      other_deployment.
  - unfold getMetricsWithDeploymentKey.
    split; apply metrics_chain_other_keys;
      first [intros r w0; destruct (as_object r); reflexivity
            | apply labels_hash_not_health | apply clients_hash_not_health
            | cbn; other_deployment].
  - unfold clearMetricsForDeploymentKey.
    split; apply metrics_chain_other_keys;
      first [reflexivity | apply labels_hash_not_health | apply clients_hash_not_health
            | cbn; other_deployment].
  - unfold removeDeploymentKeyClientActiveLabel.
    split; apply metrics_chain_other_keys;
      first [reflexivity | apply labels_hash_not_health | apply clients_hash_not_health
            | cbn; other_deployment].
  - unfold getCurrentActiveLabel.
    split; apply metrics_chain_other_keys;
      first [reflexivity | apply labels_hash_not_health | apply clients_hash_not_health
            | cbn; other_deployment].
  - unfold updateActiveAppForClient. cbv zeta.
    split; apply (metrics_chain_other_keys _ _ (fun _ => resolve tt));
      first [reflexivity | apply labels_hash_not_health | apply clients_hash_not_health | idtac];
      cbn [request_keys]; rewrite map_app, concat_app; cbn;
      destruct fromLabel as [fl|]; cbn;
      try (destruct (Js.truthy fl); cbn);
      other_deployment.
Qed.

(** X23: a method of the cache changes nothing but its key: whatever
    the world and whatever fails, every key other than the expiry key
    of the call is as it was, in every database, so that what is cached
    under one key is not touched by a call for another. *)
Theorem cache_keeps_to_its_key (c : Call) (w : World) (db : Z) (key : string) :
  handle_of Ops Metrics c = Ops ->
  key ∉ cache_key c ->
  keyspace (snd (invoke null_argument JSON_stringify JSON_parse c w)) !! (db, key)
  = keyspace w !! (db, key).
Proof.
  intros Hc Hn.
  apply (cache_respects null_argument JSON_stringify JSON_parse
           (fun w0 w1 => keyspace w1 !! (db, key) = keyspace w0 !! (db, key)) c).
  - reflexivity.
  - intros w1 w2 w3 H1 H2. congruence.
  - reflexivity.
  - intros req _ Hkeys w0. apply safeCall_other_keys. rewrite Hkeys. exact Hn.
  - destruct c; try discriminate; reflexivity.
Qed.

End Deployments.

(** ** Reads and writes of the aggregator on an available store *)

Section Aggregator.

Context (null_argument : option string).

(** A write of the aggregator on an available store resolves, with the
    request performed on the metrics database. *)
Lemma metrics_write_available (req : Redis.Request) (w : World) :
  available w ->
  no_select req = true ->
  exists w1 c1 w2,
    (forall db key, key <> "health" -> keyspace w1 !! (db, key) = keyspace w !! (db, key))
    /\ selected c1 = METRICS_DB
    /\ available w2
    /\ keyspace w2 = snd (perform null_argument c1 req (keyspace w1))
    /\ raised w2
       = match fst (fst (perform null_argument c1 req (keyspace w1))) with
         | Redis.Error m => (raised w ++ [ReplyError m])%list
         | _ => raised w
         end
    /\ catch (ensureMetricsSetup null_argument >>
              _safeCall null_argument Metrics req >> resolve tt)
             (fun _ => resolve tt) w
       = (Resolved tt, w2).
Proof.
  intros Ha Hreq.
  destruct (metrics_chain_available null_argument req (fun _ => resolve tt) tt w Ha Hreq)
    as (w1 & c1 & w2 & Hfr & Hsel & _ & Ha2 & Hk2 & Hr2 & E).
  exists w1, c1, w2. repeat (split; [assumption|]).
  rewrite E. destruct (fst (fst (perform null_argument c1 req (keyspace w1)))); reflexivity.
Qed.

Lemma getMetricsWithDeploymentKey_reads (deploymentKey : string) (w : World) :
  available w ->
  fst (getMetricsWithDeploymentKey null_argument deploymentKey w)
  = Resolved ((fun h : gmap string string => parseMetric <$> h)
                <$> Redis.hash_at (keyspace w) METRICS_DB
                      (Utilities.getDeploymentKeyLabelsHash deploymentKey)).
Proof.
  intros Ha. unfold getMetricsWithDeploymentKey.
  destruct (metrics_chain_available null_argument
              (Redis.Single (Redis.HGETALL (Utilities.getDeploymentKeyLabelsHash deploymentKey)))
              (fun metrics => match as_object metrics with
                              | Some fields => resolve (Some (parseMetric <$> fields))
                              | None => resolve None
                              end) None w Ha eq_refl)
    as (w1 & c1 & w2 & Hfr & Hsel & _ & _ & _ & _ & E).
  rewrite E. unfold perform, send, encode, Redis.exec, Redis.hash_at.
  rewrite Hsel, (Hfr _ _ (labels_hash_not_health deploymentKey)).
  destruct (keyspace w !! (METRICS_DB, Utilities.getDeploymentKeyLabelsHash deploymentKey))
    as [[[s|h] t]|]; reflexivity.
Qed.

Lemma getCurrentActiveLabel_reads (deploymentKey clientUniqueId : string) (w : World) :
  available w ->
  fst (getCurrentActiveLabel null_argument deploymentKey clientUniqueId w)
  = Resolved (active_label (keyspace w) deploymentKey clientUniqueId).
Proof.
  intros Ha. unfold getCurrentActiveLabel.
  destruct (metrics_chain_available null_argument
              (Redis.Single (Redis.HGET (Utilities.getDeploymentKeyClientsHash deploymentKey)
                               clientUniqueId))
              (fun label => resolve (as_string label)) None w Ha eq_refl)
    as (w1 & c1 & w2 & Hfr & Hsel & _ & _ & _ & _ & E).
  rewrite E. unfold perform, send, encode, Redis.exec, active_label, Redis.hash_at.
  rewrite Hsel, (Hfr _ _ (clients_hash_not_health deploymentKey)).
  destruct (keyspace w !! (METRICS_DB, Utilities.getDeploymentKeyClientsHash deploymentKey))
    as [[[s|h] t]|]; reflexivity.
Qed.

(** X9: what the aggregator reads where nothing is stored.  On an
    available store [getMetricsWithDeploymentKey] resolves to [null],
    not to an empty object, for a deployment key without a
    label-counters hash, and [getCurrentActiveLabel] resolves to [null]
    for every client when the deployment key has no clients hash, and
    otherwise to what the hash holds for the client: the label that was
    recorded, be it the empty string, or [null] when there is none. *)
Theorem aggregator_reads_missing_as_null (w : World) (deploymentKey : string) :
  available w ->
  (Redis.hash_at (keyspace w) METRICS_DB (Utilities.getDeploymentKeyLabelsHash deploymentKey)
   = None ->
   fst (getMetricsWithDeploymentKey null_argument deploymentKey w) = Resolved None)
  /\ (forall h clientUniqueId,
        Redis.hash_at (keyspace w) METRICS_DB
          (Utilities.getDeploymentKeyClientsHash deploymentKey) = Some h ->
        fst (getCurrentActiveLabel null_argument deploymentKey clientUniqueId w)
        = Resolved (h !! clientUniqueId))
  /\ (Redis.hash_at (keyspace w) METRICS_DB (Utilities.getDeploymentKeyClientsHash deploymentKey)
      = None ->
      forall clientUniqueId,
        fst (getCurrentActiveLabel null_argument deploymentKey clientUniqueId w)
        = Resolved None).
Proof.
  intros Ha. split; [|split].
  - intros Hn. rewrite (getMetricsWithDeploymentKey_reads deploymentKey w Ha), Hn. reflexivity.
  - intros h cid Hh. rewrite (getCurrentActiveLabel_reads deploymentKey cid w Ha).
    unfold active_label. rewrite Hh. reflexivity.
  - intros Hn cid. rewrite (getCurrentActiveLabel_reads deploymentKey cid w Ha).
    unfold active_label. rewrite Hn. reflexivity.
Qed.

(** X10: [clearMetricsForDeploymentKey] on an available store removes
    both hashes of the deployment: after it
    [getMetricsWithDeploymentKey] resolves to [null] for the deployment
    key and [getCurrentActiveLabel] to [null] for every client of
    it. *)
Theorem clear_then_read_null (w : World) (deploymentKey : string) :
  available w ->
  exists w',
    clearMetricsForDeploymentKey null_argument deploymentKey w = (Resolved tt, w')
    /\ keyspace w' !! (METRICS_DB, Utilities.getDeploymentKeyLabelsHash deploymentKey) = None
    /\ keyspace w' !! (METRICS_DB, Utilities.getDeploymentKeyClientsHash deploymentKey) = None
    /\ fst (getMetricsWithDeploymentKey null_argument deploymentKey w') = Resolved None
    /\ forall clientUniqueId,
         fst (getCurrentActiveLabel null_argument deploymentKey clientUniqueId w')
         = Resolved None.
Proof.
  intros Ha. unfold clearMetricsForDeploymentKey.
  destruct (metrics_write_available _ w Ha
              (eq_refl : no_select
                           (Redis.Single
                              (Redis.DEL [Utilities.getDeploymentKeyLabelsHash deploymentKey;
                                          Utilities.getDeploymentKeyClientsHash deploymentKey]))
                         = true))
    as (w1 & c1 & w2 & Hfr & Hsel & Ha2 & Hk2 & _ & E).
  exists w2. split; [exact E|].
  assert (Hks : keyspace w2
                = delete (METRICS_DB, Utilities.getDeploymentKeyClientsHash deploymentKey)
                    (delete (METRICS_DB, Utilities.getDeploymentKeyLabelsHash deploymentKey)
                       (keyspace w1))).
  { rewrite Hk2. unfold perform, send, encode, Redis.exec. cbn. rewrite Hsel. reflexivity. }
  assert (Hl : keyspace w2 !! (METRICS_DB, Utilities.getDeploymentKeyLabelsHash deploymentKey)
               = None).
  { rewrite Hks, lookup_delete_ne, lookup_delete_eq; [reflexivity|].
    intros H. apply (f_equal snd) in H. cbn [snd] in H.
    symmetry in H. exact (labels_hash_not_clients _ _ H). }
  assert (Hc : keyspace w2 !! (METRICS_DB, Utilities.getDeploymentKeyClientsHash deploymentKey)
               = None).
  { rewrite Hks, lookup_delete_eq. reflexivity. }
  split; [exact Hl|]. split; [exact Hc|]. split.
  - rewrite (getMetricsWithDeploymentKey_reads deploymentKey w2 Ha2).
    unfold Redis.hash_at. rewrite Hl. reflexivity.
  - intros cid. rewrite (getCurrentActiveLabel_reads deploymentKey cid w2 Ha2).
    unfold active_label, Redis.hash_at. rewrite Hc. reflexivity.
Qed.


Lemma active_label_lookup (ks ks' : Redis.Keyspace) (deploymentKey : string) :
  ks' !! (METRICS_DB, Utilities.getDeploymentKeyClientsHash deploymentKey)
  = ks !! (METRICS_DB, Utilities.getDeploymentKeyClientsHash deploymentKey) ->
  forall clientUniqueId,
    active_label ks' deploymentKey clientUniqueId = active_label ks deploymentKey clientUniqueId.
Proof. intros H cid. unfold active_label, Redis.hash_at. rewrite H. reflexivity. Qed.

(** The queue of [updateActiveAppForClient] after its first command
    names the label-counters hash only. *)
Lemma update_queue_keys (deploymentKey toLabel : string) (fromLabel : option string) :
  Utilities.getDeploymentKeyClientsHash deploymentKey
  ∉ concat (map keys_of
              ([Redis.HINCRBY (Utilities.getDeploymentKeyLabelsHash deploymentKey)
                  (Utilities.getLabelActiveCountField toLabel) 1] ++
               match fromLabel with
               | Some from =>
                   if Js.truthy from then
                     [Redis.HINCRBY (Utilities.getDeploymentKeyLabelsHash deploymentKey)
                        (Utilities.getLabelActiveCountField from) (-1)]
                   else []
               | None => []
               end)%list).
Proof.
  rewrite map_app, concat_app. cbn.
  destruct fromLabel as [fl|]; cbn; try (destruct (Js.truthy fl); cbn);
    intros Hin; repeat (apply elem_of_cons in Hin as [Hin|Hin]);
    try (apply elem_of_nil in Hin; exact Hin);
    symmetry in Hin; exact (labels_hash_not_clients _ _ Hin).
Qed.

(** X11: [updateActiveAppForClient] followed by [getCurrentActiveLabel].
    On an available store where the clients hash of the deployment is
    not taken by a string, the update resolves and the label read back
    for the client is the label it was given, while the label read for
    any other client of the deployment is what it was. *)
Theorem update_then_get_label (w : World) (deploymentKey clientUniqueId toLabel : string)
    (fromLabel : option string) :
  available w ->
  holds_string (keyspace w) METRICS_DB (Utilities.getDeploymentKeyClientsHash deploymentKey)
  = false ->
  exists w',
    updateActiveAppForClient null_argument deploymentKey clientUniqueId toLabel fromLabel w
    = (Resolved tt, w')
    /\ fst (getCurrentActiveLabel null_argument deploymentKey clientUniqueId w')
       = Resolved (Some toLabel)
    /\ forall other,
         other <> clientUniqueId ->
         fst (getCurrentActiveLabel null_argument deploymentKey other w')
         = fst (getCurrentActiveLabel null_argument deploymentKey other w).
Proof.
  intros Ha Hs. unfold updateActiveAppForClient. cbv zeta.
  match goal with
  | |- context [_safeCall null_argument Metrics ?r] => set (req := r)
  end.
  assert (Hreq : no_select req = true).
  { unfold req. cbn [no_select]. cbn.
    destruct fromLabel as [fl|]; [destruct (Js.truthy fl)|]; reflexivity. }
  destruct (metrics_write_available req w Ha Hreq)
    as (w1 & c1 & w2 & Hfr & Hsel & Ha2 & Hk2 & _ & E).
  exists w2. split; [exact E|].
  set (C := Utilities.getDeploymentKeyClientsHash deploymentKey) in *.
  assert (Hl : keyspace w2 !! (METRICS_DB, C)
               = snd (Redis.exec METRICS_DB (Redis.HSET C clientUniqueId toLabel) (keyspace w1))
                 !! (METRICS_DB, C)).
  { rewrite Hk2. unfold req, perform.
    match goal with
    | |- context [send_all null_argument c1 ([?a; ?b] ++ ?m)%list] =>
        change ([a; b] ++ m)%list with (a :: ([b] ++ m))%list
    end.
    cbn [send_all]. unfold send at 1. cbn [encode]. rewrite Hsel.
    destruct (Redis.exec METRICS_DB (Redis.HSET C clientUniqueId toLabel) (keyspace w1))
      as [r ks1'].
    pose proof (send_all_other_keys null_argument _ METRICS_DB C
                  (update_queue_keys deploymentKey toLabel fromLabel) c1 ks1') as Ho.
    destruct (send_all null_argument c1 _ ks1') as [[rs c2] ks2]. exact Ho. }
  assert (H1 : keyspace w1 !! (METRICS_DB, C) = keyspace w !! (METRICS_DB, C))
    by apply Hfr, clients_hash_not_health.
  unfold holds_string in Hs. unfold Redis.exec in Hl. rewrite H1 in Hl.
  split.
  - rewrite (getCurrentActiveLabel_reads deploymentKey clientUniqueId w2 Ha2).
    unfold active_label, Redis.hash_at. fold C. rewrite Hl.
    destruct (keyspace w !! (METRICS_DB, C)) as [[[s|h] t]|]; [discriminate| |]; cbn [snd];
      rewrite lookup_insert_eq; [rewrite lookup_insert_eq | rewrite lookup_singleton_eq];
      reflexivity.
  - intros other Hne.
    rewrite (getCurrentActiveLabel_reads deploymentKey other w2 Ha2),
      (getCurrentActiveLabel_reads deploymentKey other w Ha).
    unfold active_label, Redis.hash_at. fold C. rewrite Hl.
    destruct (keyspace w !! (METRICS_DB, C)) as [[[s|h] t]|]; [discriminate| |]; cbn [snd];
      rewrite lookup_insert_eq; [rewrite lookup_insert_ne | rewrite lookup_singleton_ne];
      congruence.
Qed.

(** X12: [removeDeploymentKeyClientActiveLabel] followed by
    [getCurrentActiveLabel].  On an available store the removal
    resolves, the label read back for the client is [null], and the
    label read for any other client of the deployment is what it
    was. *)
Theorem remove_then_get_label (w : World) (deploymentKey clientUniqueId : string) :
  available w ->
  exists w',
    removeDeploymentKeyClientActiveLabel null_argument deploymentKey clientUniqueId w
    = (Resolved tt, w')
    /\ fst (getCurrentActiveLabel null_argument deploymentKey clientUniqueId w')
       = Resolved None
    /\ forall other,
         other <> clientUniqueId ->
         fst (getCurrentActiveLabel null_argument deploymentKey other w')
         = fst (getCurrentActiveLabel null_argument deploymentKey other w).
Proof.
  intros Ha. unfold removeDeploymentKeyClientActiveLabel.
  set (C := Utilities.getDeploymentKeyClientsHash deploymentKey).
  destruct (metrics_write_available (Redis.Single (Redis.HDEL C clientUniqueId)) w Ha eq_refl)
    as (w1 & c1 & w2 & Hfr & Hsel & Ha2 & Hk2 & _ & E).
  exists w2. split; [exact E|].
  assert (H1 : keyspace w1 !! (METRICS_DB, C) = keyspace w !! (METRICS_DB, C))
    by apply Hfr, clients_hash_not_health.
  assert (Hl : keyspace w2 !! (METRICS_DB, C)
               = snd (Redis.exec METRICS_DB (Redis.HDEL C clientUniqueId) (keyspace w1))
                 !! (METRICS_DB, C)).
  { rewrite Hk2. unfold perform, send. cbn [encode]. rewrite Hsel.
    destruct (Redis.exec METRICS_DB (Redis.HDEL C clientUniqueId) (keyspace w1)).
    reflexivity. }
  unfold Redis.exec in Hl. rewrite H1 in Hl.
  assert (Hread : forall cid,
             active_label (keyspace w2) deploymentKey cid
             = if decide (cid = clientUniqueId) then None
               else active_label (keyspace w) deploymentKey cid).
  { intros cid. unfold active_label, Redis.hash_at. fold C. rewrite Hl.
    destruct (keyspace w !! (METRICS_DB, C)) as [[[s|h] t]|] eqn:E0; cbn [snd].
    - rewrite H1. destruct (decide (cid = clientUniqueId)); reflexivity.
    - destruct (h !! clientUniqueId) as [l|] eqn:El; cbn [snd].
      + destruct (decide (delete clientUniqueId h = ∅)) as [He|He].
        * rewrite lookup_delete_eq.
          destruct (decide (cid = clientUniqueId)) as [->|Hne]; [reflexivity|].
          rewrite <- (lookup_delete_ne h clientUniqueId cid) by congruence.
          rewrite He. reflexivity.
        * rewrite lookup_insert_eq.
          destruct (decide (cid = clientUniqueId)) as [->|Hne].
          -- apply lookup_delete_eq.
          -- apply lookup_delete_ne. congruence.
      + rewrite H1.
        destruct (decide (cid = clientUniqueId)) as [->|Hne]; [exact El|reflexivity].
    - rewrite H1. destruct (decide (cid = clientUniqueId)); reflexivity. }
  split.
  - rewrite (getCurrentActiveLabel_reads deploymentKey clientUniqueId w2 Ha2), Hread.
    rewrite decide_True by reflexivity. reflexivity.
  - intros other Hne.
    rewrite (getCurrentActiveLabel_reads deploymentKey other w2 Ha2),
      (getCurrentActiveLabel_reads deploymentKey other w Ha), Hread.
    rewrite decide_False by exact Hne. reflexivity.
Qed.

End Aggregator.

(** ** The counters *)

Section Counters.

Context (null_argument : option string).
Context (JSON_stringify : Js.JsValue -> string).
Context (JSON_parse : string -> option Js.JsValue).

Lemma exec_other_entries (db : Z) (key : string) (cmd : Redis.Command) (ks : Redis.Keyspace)
    (db' : Z) (key' : string) :
  keys_of cmd = [key] ->
  (db', key') <> (db, key) ->
  snd (Redis.exec db cmd ks) !! (db', key') = ks !! (db', key').
Proof.
  intros Hk Hne. destruct (decide (key' = key)) as [->|Hkey].
  - apply exec_outside. congruence.
  - apply exec_other_keys. rewrite Hk.
    intros Hin. apply list_elem_of_singleton in Hin. exact (Hkey Hin).
Qed.

Lemma hincrby_other_counters (db : Z) (key field : string) (d : Z) (ks : Redis.Keyspace)
    (db' : Z) (key' field' : string) :
  (db', key', field') <> (db, key, field) ->
  Redis.counter (snd (Redis.exec db (Redis.HINCRBY key (Some field) d) ks)) db' key' field'
  = Redis.counter ks db' key' field'.
Proof.
  intros Hne.
  destruct (decide ((db', key') = (db, key))) as [Heq|Hk].
  - assert (Hdb : db' = db) by congruence. assert (Hkey : key' = key) by congruence.
    subst db' key'. clear Heq.
    assert (Hf : field' <> field) by congruence.
    unfold Redis.counter, Redis.exec.
    destruct (ks !! (db, key)) as [[[s|h] t]|] eqn:E; cbn [snd].
    + rewrite E. reflexivity.
    + destruct (h !! field) as [s|] eqn:F.
      * destruct (Redis.integer_of_string s); cbn [snd].
        -- rewrite lookup_insert_eq, lookup_insert_ne by congruence. reflexivity.
        -- rewrite E. reflexivity.
      * cbn [snd]. rewrite lookup_insert_eq, lookup_insert_ne by congruence. reflexivity.
    + rewrite lookup_insert_eq, lookup_singleton_ne by congruence. reflexivity.
  - apply counter_lookup_eq.
    apply (exec_other_entries db key); [reflexivity | exact Hk].
Qed.

(** X13: [incrementLabelStatusCount] with a recognized status changes
    one counter at most: whatever the world and whatever fails, every
    counter of every label-counters hash other than the counter of the
    deployment key, label and status of the call is as it was, the
    active counts among them. *)
Theorem increment_touches_one_counter (w : World) (deploymentKey label status : string)
    (db : Z) (other field : string) :
  Utilities.isValidDeploymentStatus status = true ->
  (other, field) <> (deploymentKey, label ++ ":" ++ status) ->
  Redis.counter
    (keyspace (snd (incrementLabelStatusCount null_argument deploymentKey label status w)))
    db (Utilities.getDeploymentKeyLabelsHash other) field
  = Redis.counter (keyspace w) db (Utilities.getDeploymentKeyLabelsHash other) field.
Proof.
  intros Hv Hne. unfold incrementLabelStatusCount, Utilities.getLabelStatusField.
  rewrite Hv.
  rewrite (metrics_chain_world null_argument _ (fun _ => resolve tt) tt w)
    by reflexivity.
  destruct (ensureMetricsSetup_spec null_argument w)
    as (o & w1 & setup & He & Hframe & _).
  rewrite He.
  assert (H1 : Redis.counter (keyspace w1) db (Utilities.getDeploymentKeyLabelsHash other) field
               = Redis.counter (keyspace w) db (Utilities.getDeploymentKeyLabelsHash other) field).
  { apply counter_lookup_eq, Hframe, labels_hash_not_health. }
  destruct o as [u|e]; [|exact H1].
  rewrite <- H1.
  destruct (safeCall_single null_argument Metrics
              (Redis.HINCRBY (Utilities.getDeploymentKeyLabelsHash deploymentKey)
                               (Some (label ++ ":" ++ status)) 1) w1)
    as (o & w' & E & [(_ & Hk & _) | (c & r & c' & ks' & _ & _ & _ & Hp & Hk & _)]);
    rewrite E; cbn [snd]; rewrite Hk; [reflexivity|].
  unfold perform, send in Hp. cbn [encode] in Hp.
  pose proof (hincrby_other_counters (selected c)
                (Utilities.getDeploymentKeyLabelsHash deploymentKey)
                (label ++ ":" ++ status) 1 (keyspace w1)
                db (Utilities.getDeploymentKeyLabelsHash other) field) as Ho.
  destruct (Redis.exec (selected c) _ (keyspace w1)) as [r0 ks0].
  injection Hp as _ _ <-. apply Ho.
  intros H. apply Hne.
  pose proof (f_equal (fun p => snd (fst p)) H) as Hkey. cbn [fst snd] in Hkey.
  pose proof (f_equal snd H) as Hfield. cbn [snd] in Hfield.
  apply labels_hash_inj in Hkey. congruence.
Qed.

(** What [HINCRBY] leaves in the hash of a counter that can be read. *)
Lemma hincrby_hash (db : Z) (key field : string) (d : Z) (ks : Redis.Keyspace) (n : Z) :
  Redis.counter ks db key field = Some n ->
  exists h,
    Redis.hash_at (snd (Redis.exec db (Redis.HINCRBY key (Some field) d) ks)) db key = Some h
    /\ h !! field = Some (Js.decimal (n + d))
    /\ fst (Redis.exec db (Redis.HINCRBY key (Some field) d) ks) = Redis.Integer (n + d).
Proof.
  unfold Redis.counter, Redis.exec, Redis.hash_at. intros H.
  destruct (ks !! (db, key)) as [[[s|h] t]|] eqn:E; [discriminate| |].
  - destruct (h !! field) as [s|] eqn:F.
    + rewrite H. cbn [fst snd]. rewrite lookup_insert_eq. eexists. split; [reflexivity|].
      rewrite lookup_insert_eq. split; reflexivity.
    + injection H as <-. cbn [fst snd]. rewrite lookup_insert_eq. eexists.
      split; [reflexivity|]. rewrite lookup_insert_eq. split; reflexivity.
  - injection H as <-. cbn [fst snd]. rewrite lookup_insert_eq. eexists.
    split; [reflexivity|]. rewrite lookup_singleton_eq. split; reflexivity.
Qed.

(** X14: [incrementLabelStatusCount] followed by
    [getMetricsWithDeploymentKey].  On an available store, for a
    recognized status and a counter that stands at [n], the increment
    resolves and the metrics read back hold, in the field of the label
    and status, a number and not its text: the double nearest to
    [n + 1], which is [n + 1] itself as long as its magnitude is at most
    2^53. *)
Theorem increment_then_read (w : World) (deploymentKey label status : string) (n : Z) :
  available w ->
  Utilities.isValidDeploymentStatus status = true ->
  Redis.counter (keyspace w) METRICS_DB
    (Utilities.getDeploymentKeyLabelsHash deploymentKey) (label ++ ":" ++ status) = Some n ->
  exists w' m,
    incrementLabelStatusCount null_argument deploymentKey label status w = (Resolved tt, w')
    /\ fst (getMetricsWithDeploymentKey null_argument deploymentKey w') = Resolved (Some m)
    /\ m !! (label ++ ":" ++ status) = Some (Js.JsNum (Js.toDouble (inject_Z (n + 1))))
    /\ (Z.abs (n + 1) <= 2 ^ 53 ->
        m !! (label ++ ":" ++ status) = Some (Js.JsNum (Js.JsFinite (inject_Z (n + 1))))).
Proof.
  intros Ha Hv Hn. unfold incrementLabelStatusCount, Utilities.getLabelStatusField.
  rewrite Hv.
  set (L := Utilities.getDeploymentKeyLabelsHash deploymentKey) in *.
  destruct (metrics_write_available null_argument
              (Redis.Single (Redis.HINCRBY L (Some (label ++ ":" ++ status)) 1)) w Ha eq_refl)
    as (w1 & c1 & w2 & Hfr & Hsel & Ha2 & Hk2 & _ & E).
  rewrite <- (counter_frame (keyspace w) (keyspace w1) deploymentKey _ Hfr) in Hn.
  destruct (hincrby_hash METRICS_DB L (label ++ ":" ++ status) 1 (keyspace w1) n Hn)
    as (h & Hh & Hf & _).
  assert (Hks : keyspace w2
                = snd (Redis.exec METRICS_DB
                         (Redis.HINCRBY L (Some (label ++ ":" ++ status)) 1) (keyspace w1))).
  { rewrite Hk2. unfold perform, send. cbn [encode]. rewrite Hsel.
    destruct (Redis.exec METRICS_DB _ (keyspace w1)). reflexivity. }
  exists w2, (parseMetric <$> h). split; [exact E|]. split.
  - rewrite (getMetricsWithDeploymentKey_reads null_argument deploymentKey w2 Ha2).
    fold L. rewrite Hks, Hh. reflexivity.
  - assert (Hm : (parseMetric <$> h) !! (label ++ ":" ++ status)
                 = Some (Js.JsNum (Js.toDouble (inject_Z (n + 1))))).
    { rewrite lookup_fmap, Hf. cbn [fmap option_fmap option_map].
      unfold parseMetric. rewrite isNaN_decimal, ToNumber_decimal_rounded. reflexivity. }
    split; [exact Hm|].
    intros Hn1. rewrite Hm, (toDouble_integer (n + 1) Hn1). reflexivity.
Qed.

(** X15: a counter whose text is not an integer is not counted.  On an
    available store, when the field of the label and status holds a
    text that the store does not read as an integer, a blank for one,
    [incrementLabelStatusCount] resolves, the error of the store is
    raised and swallowed, and the hash is as it was. *)
Theorem increment_of_non_integer_is_dropped (w : World)
    (deploymentKey label status : string) (h : gmap string string) (v : string) :
  available w ->
  Utilities.isValidDeploymentStatus status = true ->
  Redis.hash_at (keyspace w) METRICS_DB (Utilities.getDeploymentKeyLabelsHash deploymentKey)
  = Some h ->
  h !! (label ++ ":" ++ status) = Some v ->
  Redis.integer_of_string v = None ->
  exists w',
    incrementLabelStatusCount null_argument deploymentKey label status w = (Resolved tt, w')
    /\ Redis.hash_at (keyspace w') METRICS_DB (Utilities.getDeploymentKeyLabelsHash deploymentKey)
       = Some h
    /\ raised w' = (raised w ++ [ReplyError "ERR hash value is not an integer"])%list.
Proof.
  intros Ha Hv Hh Hf Hi. unfold incrementLabelStatusCount, Utilities.getLabelStatusField.
  rewrite Hv.
  set (L := Utilities.getDeploymentKeyLabelsHash deploymentKey) in *.
  destruct (metrics_write_available null_argument
              (Redis.Single (Redis.HINCRBY L (Some (label ++ ":" ++ status)) 1)) w Ha eq_refl)
    as (w1 & c1 & w2 & Hfr & Hsel & Ha2 & Hk2 & Hr2 & E).
  exists w2. split; [exact E|].
  assert (H1 : keyspace w1 !! (METRICS_DB, L) = keyspace w !! (METRICS_DB, L))
    by apply Hfr, labels_hash_not_health.
  unfold Redis.hash_at in Hh.
  destruct (keyspace w !! (METRICS_DB, L)) as [[[s|h0] t]|] eqn:E0; try discriminate.
  injection Hh as ->.
  assert (Hp : perform null_argument c1
                 (Redis.Single (Redis.HINCRBY L (Some (label ++ ":" ++ status)) 1)) (keyspace w1)
               = (Redis.Error "ERR hash value is not an integer", c1, keyspace w1)).
  { unfold perform, send. cbn [encode]. unfold Redis.exec. rewrite Hsel, H1, Hf, Hi.
    reflexivity. }
  rewrite Hp in Hk2, Hr2. cbn [fst snd] in Hk2, Hr2.
  split; [|exact Hr2].
  unfold Redis.hash_at. rewrite Hk2, H1. reflexivity.
Qed.

Lemma switch_queue (deploymentKey clientUniqueId toLabel : string) (fromLabel : option string) :
  Js.truthy toLabel = true ->
  ([Redis.HSET (Utilities.getDeploymentKeyClientsHash deploymentKey) clientUniqueId toLabel;
    Redis.HINCRBY (Utilities.getDeploymentKeyLabelsHash deploymentKey)
      (Utilities.getLabelActiveCountField toLabel) 1] ++
   match fromLabel with
   | Some from =>
       if Js.truthy from then
         [Redis.HINCRBY (Utilities.getDeploymentKeyLabelsHash deploymentKey)
            (Utilities.getLabelActiveCountField from) (-1)]
       else []
   | None => []
   end)%list
  = Redis.HSET (Utilities.getDeploymentKeyClientsHash deploymentKey) clientUniqueId toLabel
    :: map hincrby_of (switch_updates deploymentKey toLabel fromLabel).
Proof.
  intros Ht. unfold Utilities.getLabelActiveCountField at 1. rewrite Ht.
  unfold switch_updates. destruct fromLabel as [fl|]; [|reflexivity].
  unfold Utilities.getLabelActiveCountField.
  destruct (Js.truthy fl); reflexivity.
Qed.

(** X16: [updateActiveAppForClient] moves one active install.  On an
    available store, with a non-empty label to move to and counters
    that can be read, the update resolves and every counter of every
    label-counters hash has changed by the net of the queued
    commands: one more for the label the client moves to, one less for the
    label it moves from when that is given and non-empty, and nothing
    when the two are the same label. *)
Theorem update_moves_active_count (w : World)
    (deploymentKey clientUniqueId toLabel : string) (fromLabel : option string) :
  available w ->
  Js.truthy toLabel = true ->
  readable (keyspace w) (switch_updates deploymentKey toLabel fromLabel) ->
  exists w',
    updateActiveAppForClient null_argument deploymentKey clientUniqueId toLabel fromLabel w
    = (Resolved tt, w')
    /\ (forall other field,
          Redis.counter (keyspace w') METRICS_DB (Utilities.getDeploymentKeyLabelsHash other) field
          = (fun m => m + net (switch_updates deploymentKey toLabel fromLabel)
                            (Utilities.getDeploymentKeyLabelsHash other) field)
              <$> Redis.counter (keyspace w) METRICS_DB
                    (Utilities.getDeploymentKeyLabelsHash other) field)
    /\ (fromLabel = Some toLabel ->
        forall other field,
          Redis.counter (keyspace w') METRICS_DB (Utilities.getDeploymentKeyLabelsHash other) field
          = Redis.counter (keyspace w) METRICS_DB (Utilities.getDeploymentKeyLabelsHash other) field).
Proof.
  intros Ha Ht Hread. unfold updateActiveAppForClient. cbv zeta.
  rewrite (switch_queue deploymentKey clientUniqueId toLabel fromLabel Ht).
  set (us := switch_updates deploymentKey toLabel fromLabel) in *.
  set (C := Utilities.getDeploymentKeyClientsHash deploymentKey).
  assert (Hreq : no_select (Redis.Batch (Redis.HSET C clientUniqueId toLabel :: map hincrby_of us))
                 = true).
  { cbn [no_select forallb is_select_command negb andb].
    generalize us. intros l. induction l as [|[[k f] d] l IH]; [reflexivity | exact IH]. }
  destruct (metrics_write_available null_argument _ w Ha Hreq)
    as (w1 & c1 & w2 & Hfr & Hsel & Ha2 & Hk2 & _ & E).
  exists w2. split; [exact E|].
  assert (Hcount : forall other field,
             Redis.counter (keyspace w2) METRICS_DB (Utilities.getDeploymentKeyLabelsHash other) field
             = (fun m => m + net us (Utilities.getDeploymentKeyLabelsHash other) field)
                 <$> Redis.counter (keyspace w) METRICS_DB
                       (Utilities.getDeploymentKeyLabelsHash other) field).
  { intros other field. rewrite Hk2. unfold perform. cbn [send_all].
    unfold send at 1. cbn [encode]. rewrite Hsel.
    pose proof (fun key Hkey =>
                  exec_other_keys METRICS_DB (Redis.HSET C clientUniqueId toLabel)
                    (keyspace w1) METRICS_DB key Hkey) as Hset.
    destruct (Redis.exec METRICS_DB (Redis.HSET C clientUniqueId toLabel) (keyspace w1))
      as [r ks1]. cbn [snd] in Hset.
    assert (Hsame : forall d f,
               Redis.counter ks1 METRICS_DB (Utilities.getDeploymentKeyLabelsHash d) f
               = Redis.counter (keyspace w) METRICS_DB (Utilities.getDeploymentKeyLabelsHash d) f).
    { intros d f. rewrite (counter_lookup_eq (keyspace w1) ks1).
      - apply counter_frame, Hfr.
      - apply Hset. cbn. intros Hin. apply list_elem_of_singleton in Hin.
        exact (labels_hash_not_clients _ _ Hin). }
    assert (Hread1 : Forall (fun u => is_Some (Redis.counter ks1 (selected c1)
                                                 (fst (fst u)) (snd (fst u)))) us).
    { rewrite Hsel. unfold readable in Hread. revert Hread. unfold us, switch_updates.
      intros Hread. apply Forall_cons in Hread as [H0 Hrest].
      apply Forall_cons_2; [cbn [fst snd] in *; rewrite Hsame; exact H0|].
      destruct fromLabel as [fl|]; [destruct (Js.truthy fl)|]; try apply Forall_nil_2.
      apply Forall_cons in Hrest as [H1 _].
      apply Forall_cons_2; [cbn [fst snd] in *; rewrite Hsame; exact H1 | apply Forall_nil_2]. }
    destruct (send_all_updates null_argument c1 us ks1 Hread1) as (rs & ks' & Hall & Hc & _).
    rewrite Hall. cbn [snd]. rewrite <- Hsel, Hc, Hsel, Hsame. reflexivity. }
  split; [exact Hcount|].
  intros -> other field. rewrite Hcount. unfold us, switch_updates. rewrite Ht. cbn [net].
  destruct (Redis.counter (keyspace w) METRICS_DB (Utilities.getDeploymentKeyLabelsHash other) field);
    cbn; [f_equal|reflexivity].
  destruct (_ && _); lia.
Qed.

(** One report on an available store, which is available after it. *)
Lemma increment_step (w : World) (deploymentKey label status : string) (n : Z) :
  available w ->
  Utilities.isValidDeploymentStatus status = true ->
  Redis.counter (keyspace w) METRICS_DB
    (Utilities.getDeploymentKeyLabelsHash deploymentKey) (label ++ ":" ++ status) = Some n ->
  exists w',
    incrementLabelStatusCount null_argument deploymentKey label status w = (Resolved tt, w')
    /\ available w'
    /\ Redis.counter (keyspace w') METRICS_DB
         (Utilities.getDeploymentKeyLabelsHash deploymentKey) (label ++ ":" ++ status)
       = Some (n + 1).
Proof.
  intros Ha Hv Hn. unfold incrementLabelStatusCount, Utilities.getLabelStatusField.
  rewrite Hv.
  set (L := Utilities.getDeploymentKeyLabelsHash deploymentKey) in *.
  destruct (metrics_write_available null_argument
              (Redis.Single (Redis.HINCRBY L (Some (label ++ ":" ++ status)) 1)) w Ha eq_refl)
    as (w1 & c1 & w2 & Hfr & Hsel & Ha2 & Hk2 & _ & E).
  rewrite <- (counter_frame (keyspace w) (keyspace w1) deploymentKey _ Hfr) in Hn.
  destruct (hincrby_counter METRICS_DB L (label ++ ":" ++ status) 1 (keyspace w1) n Hn)
    as (ks' & Hex & Hsame & _).
  exists w2. split; [exact E|]. split; [exact Ha2|].
  rewrite Hk2. unfold perform, send. cbn [encode]. rewrite Hsel, Hex. exact Hsame.
Qed.

(** X24: reports add up.  On an available store, for a recognized
    status and a counter that stands at [m], [incrementLabelStatusCount]
    called [n] times in a row for the same deployment key, label and
    status resolves each time and leaves the counter at [m + n]. *)
Theorem reports_add_up (n : nat) (w : World) (deploymentKey label status : string) (m : Z) :
  available w ->
  Utilities.isValidDeploymentStatus status = true ->
  Redis.counter (keyspace w) METRICS_DB
    (Utilities.getDeploymentKeyLabelsHash deploymentKey) (label ++ ":" ++ status) = Some m ->
  exists w',
    times n (incrementLabelStatusCount null_argument deploymentKey label status) w
    = (Resolved tt, w')
    /\ Redis.counter (keyspace w') METRICS_DB
         (Utilities.getDeploymentKeyLabelsHash deploymentKey) (label ++ ":" ++ status)
       = Some (m + Z.of_nat n).
Proof.
  intros Ha Hv. revert w m Ha.
  induction n as [|n IH]; intros w m Ha Hm.
  - exists w. split; [reflexivity|]. rewrite Hm. f_equal. lia.
  - destruct (increment_step w deploymentKey label status m Ha Hv Hm)
      as (w1 & E & Ha1 & H1).
    destruct (IH w1 (m + 1) Ha1 H1) as (w' & E' & H').
    exists w'. split.
    + cbn [times]. unfold then_ at 1. rewrite E. exact E'.
    + rewrite H'. f_equal. lia.
Qed.

End Counters.

(** ** The setup of the metrics handle, and the reads *)

Section Setup.

Context (null_argument : option string).
Context (JSON_stringify : Js.JsValue -> string).
Context (JSON_parse : string -> option Js.JsValue).

(** X17: one attempt of [ensureMetricsSetup], request by request.  With
    the manager configured, the metrics handle ready and no promise
    memoized, the attempt hands [SELECT 1] and then, unless the
    transport failed on it, [SET health health] to the metrics
    connection.  When both go through, the promise is memoized as
    resolved, the connection has database 1 selected and [health] is
    written there; when either meets a fault of the transport, the call
    is rejected, nothing is written and no promise stays memoized, so
    that the next call tries again, and after a fault on the second
    request the connection is left on database 1. *)
Theorem setup_attempt_step_by_step (w : World) (c : RedisClient) :
  isEnabled (manager w) = true ->
  _metricsClient (manager w) = Some c ->
  ready c = true ->
  _setupMetricsClientPromise (manager w) = None ->
  let select := (Metrics, Redis.Single (Redis.SELECT METRICS_DB)) in
  let set := (Metrics, Redis.Single (Redis.SET "health" "health")) in
  let c1 := {| options := options c; ready := true; selected := METRICS_DB |} in
  let w' := snd (ensureMetricsSetup null_argument w) in
  (nth 0 (faults w) false = true ->
   ensureMetricsSetup null_argument w = (Rejected TransportError, w')
   /\ issued w' = (issued w ++ [select])%list
   /\ keyspace w' = keyspace w
   /\ manager w' = manager w)
  /\ (nth 0 (faults w) false = false -> nth 1 (faults w) false = true ->
      ensureMetricsSetup null_argument w = (Rejected TransportError, w')
      /\ issued w' = (issued w ++ [select; set])%list
      /\ keyspace w' = keyspace w
      /\ manager w' = with_client Metrics c1 (manager w))
  /\ (nth 0 (faults w) false = false -> nth 1 (faults w) false = false ->
      ensureMetricsSetup null_argument w = (Resolved tt, w')
      /\ issued w' = (issued w ++ [select; set])%list
      /\ keyspace w'
         = <[(METRICS_DB, "health") :=
               {| Redis.value := Redis.VString "health"; Redis.ttl := None |}]> (keyspace w)
      /\ manager w' = with_setup (Some (Resolved tt)) (with_client Metrics c1 (manager w))).
Proof.
  intros En Hc Hr Hmemo. cbv zeta.
  unfold ensureMetricsSetup. rewrite En, Hmemo, Hc. cbn [negb client_ready]. rewrite Hr.
  cbn [negb].
  destruct w as [[ops met memo] ks fs iss rs]. cbn in Hc, Hmemo, Hr |- *. subst met memo.
  unfold catch, then_, call. cbn. rewrite Hr.
  destruct fs as [|[] [|[] fs]]; cbn;
    repeat split; intros; try discriminate; try reflexivity;
    rewrite <- ?app_assoc; reflexivity.
Qed.

Lemma safeCall_read_keeps (h : Handle) (req : Redis.Request) (w : World) :
  (exists key field, req = Redis.Single (Redis.HGET key field))
  \/ (exists key, req = Redis.Single (Redis.HGETALL key)) ->
  keyspace (snd (_safeCall null_argument h req w)) = keyspace w.
Proof.
  intros Hreq.
  destruct (safeCall_spec null_argument h req w)
    as (o & w' & E & [(_ & Hk & _) | (c & r & c' & ks' & _ & _ & _ & Hp & Hk & _)]);
    rewrite E; cbn [snd]; rewrite Hk; [reflexivity|].
  destruct Hreq as [(key & field & ->)|(key & ->)];
    cbn [reaching] in Hp; unfold perform, send, encode, Redis.exec in Hp;
    destruct (keyspace w !! (selected c, key)) as [[[s|h0] t]|]; congruence.
Qed.

(** X18: the three reads write nothing of their own.  Whatever the
    world and whatever fails, [getCachedResponse] leaves the store as it
    was, and [getMetricsWithDeploymentKey] and [getCurrentActiveLabel]
    change no key but [health], which the setup of the metrics handle
    writes when they are the first to need it; once the setup is done
    they leave the store as it was. *)
Theorem reads_change_nothing (c : Call) (w : World) :
  benign c <> Void ->
  (forall db key,
     key <> "health" ->
     keyspace (snd (invoke null_argument JSON_stringify JSON_parse c w)) !! (db, key)
     = keyspace w !! (db, key))
  /\ (handle_of Ops Metrics c = Ops \/ setup_done w ->
      keyspace (snd (invoke null_argument JSON_stringify JSON_parse c w)) = keyspace w).
Proof.
  assert (Hmap : forall (A : Type) (f : A -> Answer) (p : Promise A),
             snd (map_promise f p w) = snd (p w)).
  { intros A f p. unfold map_promise, then_. destruct (p w) as [[a|e] w1]; reflexivity. }
  assert (Hchain : forall (B : Type) (req : Redis.Request) (k : Redis.Reply -> Promise B) (d : B),
             (forall r w0, snd (k r w0) = w0) ->
             ((exists key field, req = Redis.Single (Redis.HGET key field))
              \/ (exists key, req = Redis.Single (Redis.HGETALL key))) ->
             let w' := snd (catch (ensureMetricsSetup null_argument >>
                                   r <- _safeCall null_argument Metrics req ;; k r)
                                  (fun _ => resolve d) w) in
             (forall db key, key <> "health" -> keyspace w' !! (db, key) = keyspace w !! (db, key))
             /\ (setup_done w -> keyspace w' = keyspace w)).
  { intros B req k d Hk Hreq. cbv zeta.
    rewrite (metrics_chain_world null_argument req k d w Hk).
    destruct (ensureMetricsSetup_spec null_argument w)
      as (o & w1 & setup & He & Hframe & _).
    split.
    - rewrite He. intros db key Hne.
      destruct o as [u|e]; [|apply Hframe, Hne].
      rewrite (safeCall_read_keeps Metrics req w1 Hreq). apply Hframe, Hne.
    - intros Hdone. destruct (isEnabled (manager w)) eqn:En.
      + rewrite (ensureMetricsSetup_done null_argument w Hdone En).
        apply safeCall_read_keeps, Hreq.
      + unfold ensureMetricsSetup. rewrite En. reflexivity. }
  intros Hread. destruct c; try (exfalso; apply Hread; reflexivity);
    unfold invoke; rewrite Hmap.
  - pose proof (getCachedResponse_keeps null_argument JSON_parse expiryKey url w) as Hk.
    split; [intros db key _; rewrite Hk; reflexivity | intros _; exact Hk].
  - unfold getMetricsWithDeploymentKey.
    match goal with
    | |- context [catch (_ >> r <- _safeCall _ _ ?req ;; @?k r) (fun _ => resolve ?d)] =>
        destruct (Hchain _ req k d) as [H1 H2]
    end.
    + intros r w0. destruct (as_object r); reflexivity.
    + right. eexists. reflexivity.
    + split; [exact H1|]. intros [H|H]; [discriminate | exact (H2 H)].
  - unfold getCurrentActiveLabel.
    match goal with
    | |- context [catch (_ >> r <- _safeCall _ _ ?req ;; @?k r) (fun _ => resolve ?d)] =>
        destruct (Hchain _ req k d) as [H1 H2]
    end.
    + reflexivity.
    + left. eexists _, _. reflexivity.
    + split; [exact H1|]. intros [H|H]; [discriminate | exact (H2 H)].
Qed.

End Setup.

(** ** The promisified client *)

(** X19: the constructor of [PromisifiedRedisClient] binds the twelve
    commands of the client and never looks [execBatch] up on it.  When
    the client has the twelve, every property of the instance holds a
    function, the command of its own name or, for [execBatch], the
    function that invokes [exec] on the batch, so that the method of
    every request of the manager is there to be called; when it lacks
    one, the construction fails with an assertion that names a command
    that is missing. *)
Theorem promisified_client_binds_commands (redisClient : string -> bool) :
  (forallb redisClient Promisified.commands = true ->
   exists this,
     Promisified.constructor redisClient = inr this
     /\ map fst this = Promisified.properties
     /\ Promisified.get "execBatch" this = Some Promisified.InvokeExec
     /\ (forall name, name ∈ Promisified.commands ->
                      Promisified.get name this = Some (Promisified.Bound name))
     /\ (forall req, is_Some (Promisified.get (Promisified.methodName req) this)))
  /\ (forallb redisClient Promisified.commands = false ->
      exists name,
        name ∈ Promisified.commands
        /\ redisClient name = false
        /\ Promisified.constructor redisClient
           = inl ("Binding a function that does not exist: " ++ name)).
Proof.
  unfold Promisified.commands, Promisified.constructor. cbn.
  destruct (redisClient "del") eqn:H1; cbn;
    [|split; [discriminate | intros _; exists "del"; repeat split; [set_solver | assumption]]].
  destruct (redisClient "exists") eqn:H2; cbn;
    [|split; [discriminate | intros _; exists "exists"; repeat split; [set_solver | assumption]]].
  destruct (redisClient "expire") eqn:H3; cbn;
    [|split; [discriminate | intros _; exists "expire"; repeat split; [set_solver | assumption]]].
  destruct (redisClient "hdel") eqn:H4; cbn;
    [|split; [discriminate | intros _; exists "hdel"; repeat split; [set_solver | assumption]]].
  destruct (redisClient "hget") eqn:H5; cbn;
    [|split; [discriminate | intros _; exists "hget"; repeat split; [set_solver | assumption]]].
  destruct (redisClient "hgetall") eqn:H6; cbn;
    [|split; [discriminate | intros _; exists "hgetall"; repeat split; [set_solver | assumption]]].
  destruct (redisClient "hincrby") eqn:H7; cbn;
    [|split; [discriminate | intros _; exists "hincrby"; repeat split; [set_solver | assumption]]].
  destruct (redisClient "hset") eqn:H8; cbn;
    [|split; [discriminate | intros _; exists "hset"; repeat split; [set_solver | assumption]]].
  destruct (redisClient "ping") eqn:H9; cbn;
    [|split; [discriminate | intros _; exists "ping"; repeat split; [set_solver | assumption]]].
  destruct (redisClient "quit") eqn:H10; cbn;
    [|split; [discriminate | intros _; exists "quit"; repeat split; [set_solver | assumption]]].
  destruct (redisClient "select") eqn:H11; cbn;
    [|split; [discriminate | intros _; exists "select"; repeat split; [set_solver | assumption]]].
  destruct (redisClient "set") eqn:H12; cbn;
    [|split; [discriminate | intros _; exists "set"; repeat split; [set_solver | assumption]]].
  split; [|discriminate]. intros _. eexists. split; [reflexivity|].
  split; [reflexivity|]. split; [reflexivity|]. split.
  - intros name Hin.
    repeat (apply elem_of_cons in Hin as [->|Hin]; [reflexivity|]).
    apply elem_of_nil in Hin. destruct Hin.
  - intros [cmd|cmds]; [destruct cmd|]; eexists; reflexivity.
Qed.

(** ** [close] *)

Section Closing.

Context (connected : Handle -> World -> bool).
Context (quit : Handle -> Promise unit).

(** X20: [close] never rejects, whatever [quit] does.  Without a
    client it does nothing; otherwise it quits the cache connection, if
    it is up, and then the metrics connection, if it is up; and when the
    first [quit] is rejected the second is not attempted: the metrics
    connection stays open. *)
Theorem close_never_rejects (w : World) :
  (exists w', close connected quit w = (Resolved tt, w'))
  /\ (_opsClient (manager w) = None -> _metricsClient (manager w) = None ->
      close connected quit w = (Resolved tt, w))
  /\ (forall e w1,
        is_Some (_opsClient (manager w)) -> connected Ops w = true ->
        quit Ops w = (Rejected e, w1) ->
        close connected quit w = (Resolved tt, w1))
  /\ (forall u w1,
        is_Some (_opsClient (manager w)) -> connected Ops w = true ->
        quit Ops w = (Resolved u, w1) ->
        is_Some (_metricsClient (manager w1)) -> connected Metrics w1 = true ->
        close connected quit w = (Resolved tt, snd (quit Metrics w1))).
Proof.
  unfold close, catch, then_, resolve. split; [|split; [|split]].
  - destruct (_opsClient (manager w)) as [o|] eqn:Ho, (_metricsClient (manager w)) as [m|] eqn:Hm;
      try (eexists; reflexivity);
      (destruct (_ && connected Ops w);
       [destruct (quit Ops w) as [[u|e] w1]; [|eexists; reflexivity]|];
       match goal with
       | |- context [if ?b then quit Metrics ?x else _] =>
           destruct b; [destruct (quit Metrics x) as [[u'|e'] w2]|]
       end; eexists; reflexivity).
  - intros -> ->. reflexivity.
  - intros e w1 [o Ho] Hc Hq. rewrite Ho, Hc, Hq.
    rewrite bool_decide_eq_true_2 by eauto. cbn.
    destruct (_metricsClient (manager w)); reflexivity.
  - intros u w1 [o Ho] Hc Hq [m Hm] Hc1. rewrite Ho, Hc, Hq.
    rewrite bool_decide_eq_true_2 by eauto. cbn.
    rewrite Hm, Hc1. rewrite bool_decide_eq_true_2 by eauto. cbn.
    destruct (_metricsClient (manager w));
      destruct (quit Metrics w1) as [[u'|e'] w2]; reflexivity.
Qed.

End Closing.

(** ** Availability is kept *)

Section Availability.

Context (null_argument : option string).
Context (JSON_stringify : Js.JsValue -> string).
Context (JSON_parse : string -> option Js.JsValue).

Lemma stays_available_refl (w : World) : stays_available w w.
Proof. intros H. exact H. Qed.

Lemma stays_available_trans (w1 w2 w3 : World) :
  stays_available w1 w2 -> stays_available w2 w3 -> stays_available w1 w3.
Proof. intros H1 H2 H. apply H2, H1, H. Qed.

Lemma stays_available_raise (w : World) (e : Failure) :
  stays_available w (snd (@reject unit e w)).
Proof. intros H. eapply available_ext; [| |exact H]; [reflexivity | apply H]. Qed.

Lemma safeCall_stays_available (h : Handle) (req : Redis.Request) :
  no_select req = true -> respects stays_available (_safeCall null_argument h req).
Proof.
  intros Hreq w Ha.
  destruct (isEnabled_clients _ (proj1 Ha)) as (o & m & Ho & Hm).
  assert (Hc : exists c, client_of h (manager w) = Some c) by (destruct h; eauto).
  destruct Hc as [c Hc].
  destruct (safeCall_step null_argument h req w c Ha Hc Hreq) as (w' & E & Ha' & _).
  rewrite E. exact Ha'.
Qed.

(** X21: an available store stays available.  Whatever the call, and
    whether the store answers it with a value or with an error, after
    it the manager is still configured, both handles are ready, and the
    setup of the metrics handle is done or yet to be attempted and in
    agreement with the connection; the setup is done after every call
    of the aggregator. *)
Theorem available_is_kept (c : Call) (w : World) :
  available w ->
  available (snd (invoke null_argument JSON_stringify JSON_parse c w))
  /\ (handle_of Ops Metrics c = Metrics ->
      setup_done (snd (invoke null_argument JSON_stringify JSON_parse c w))).
Proof.
  intros Ha.
  destruct (handle_of_cases c) as [[Hc Hh]|[Hc Hh]]; rewrite Hh.
  - split; [|discriminate].
    exact (cache_respects null_argument JSON_stringify JSON_parse stays_available c
             stays_available_refl stays_available_trans stays_available_raise
             (fun req Hreq _ => safeCall_stays_available Ops req Hreq) Hc w Ha).
  - destruct (aggregator_world null_argument JSON_stringify JSON_parse c w Hc)
      as (req & Hreq & _ & ->).
    destruct (ensureMetricsSetup_settles null_argument w Ha)
      as (w1 & c1 & He & Ha1 & _ & Hc1 & _ & _ & _ & Hd1).
    rewrite He.
    destruct (safeCall_step null_argument Metrics req w1 c1 Ha1 Hc1 Hreq)
      as (w2 & E & Ha2 & Hm2 & _).
    rewrite E. cbn [snd]. split; [exact Ha2|].
    intros _. unfold setup_done. rewrite Hm2. exact Hd1.
Qed.

End Availability.

(** ** The properties on concrete worlds *)

Lemma checkHealth_pings_both_witness :
  isEnabled (manager Example.fresh) = true
  /\ exists o w',
       checkHealth None Example.fresh = (o, w')
       /\ issued w' = [(Ops, Redis.Single Redis.PING); (Metrics, Redis.Single Redis.PING)]
       /\ o = Resolved tt.
Proof.
  split; [reflexivity|].
  destruct (checkHealth_pings_both None Example.fresh eq_refl)
    as (o & w' & E & Hi & _ & _ & Hiff & _).
  exists o, w'. split; [exact E|]. split; [exact Hi|].
  apply Hiff. split; reflexivity.
Defined.

Lemma not_ready_sends_nothing_witness :
  client_ready (client_of (handle_of Ops Metrics (RecordUpdate "k1" "v2" None None))
                  (manager Example.connecting)) = false
  /\ exists w',
       invoke None Json.stringify Json.parse (RecordUpdate "k1" "v2" None None)
         Example.connecting = (Resolved Void, w')
       /\ issued w' = [] /\ keyspace w' = ∅ /\ faults w' = [].
Proof.
  split; [reflexivity|].
  exact (not_ready_sends_nothing None Json.stringify Json.parse
           (RecordUpdate "k1" "v2" None None) Example.connecting eq_refl).
Defined.

Lemma done_setup_is_kept_witness :
  setup_done Example.counted
  /\ no_setup_since Example.counted
       (snd (invoke None Json.stringify Json.parse
               (IncrementLabelStatusCount "dep1" "v3" "Downloaded") Example.counted)).
Proof.
  assert (Hd : setup_done Example.counted) by (exists tt; vm_compute; reflexivity).
  split; [exact Hd|].
  exact (done_setup_is_kept None Json.stringify Json.parse
           (IncrementLabelStatusCount "dep1" "v3" "Downloaded") Example.counted (fun _ => Hd)).
Defined.

Lemma cache_and_metrics_apart_witness :
  (consistent Example.fresh /\ on_database Ops 0 Example.fresh)
  /\ same_outside METRICS_DB (keyspace Example.fresh)
       (keyspace (snd (invoke None Json.stringify Json.parse
                         (RecordUpdate "k1" "v2" None None) Example.fresh))).
Proof.
  assert (Hc : consistent Example.fresh) by exact I.
  assert (Ho : on_database Ops 0 Example.fresh).
  { intros c Hc0. vm_compute in Hc0. injection Hc0 as <-. reflexivity. }
  split; [split; assumption|].
  exact (proj1 (cache_and_metrics_apart None Json.stringify Json.parse
                  (RecordUpdate "k1" "v2" None None) Example.fresh Hc Ho)).
Defined.

Lemma invalidateCache_drops_the_key_witness :
  available Example.warm
  /\ fst (getCachedResponse None Json.parse "v1" "https://host/other" Example.warm)
     = Resolved (response_object Example.other_response)
  /\ fst ((invalidateCache None "v1" >>
           getCachedResponse None Json.parse "v1" "https://host/other") Example.warm)
     = Resolved Js.JsNull.
Proof.
  assert (Ha : available Example.warm).
  { unfold available. vm_compute. repeat split; intros; discriminate. }
  split; [exact Ha|]. split; [vm_compute; reflexivity|].
  exact (proj1 (invalidateCache_drops_the_key None Json.stringify Json.parse
                  Example.warm "v1" Ha) "https://host/other").
Defined.

Lemma aggregator_keeps_to_its_deployments_witness :
  (handle_of Ops Metrics (ClearMetricsForDeploymentKey "dep2") = Metrics
   /\ "dep1" ∉ deployments_of (ClearMetricsForDeploymentKey "dep2"))
  /\ keyspace (snd (invoke None Json.stringify Json.parse
                      (ClearMetricsForDeploymentKey "dep2") Example.counted))
       !! (METRICS_DB, Utilities.getDeploymentKeyLabelsHash "dep1")
     = keyspace Example.counted !! (METRICS_DB, Utilities.getDeploymentKeyLabelsHash "dep1").
Proof.
  assert (Hn : "dep1" ∉ deployments_of (ClearMetricsForDeploymentKey "dep2")).
  { intros H. apply list_elem_of_singleton in H. discriminate. }
  split; [split; [reflexivity | exact Hn]|].
  exact (proj1 (aggregator_keeps_to_its_deployments None Json.stringify Json.parse
                  (ClearMetricsForDeploymentKey "dep2") Example.counted "dep1" METRICS_DB
                  eq_refl Hn)).
Defined.

Lemma aggregator_reads_missing_as_null_witness :
  (available Example.fresh
   /\ Redis.hash_at (keyspace Example.fresh) METRICS_DB
        (Utilities.getDeploymentKeyLabelsHash "dep1") = None)
  /\ fst (getMetricsWithDeploymentKey None "dep1" Example.fresh) = Resolved None.
Proof.
  assert (Ha : available Example.fresh) by store_available.
  split; [split; [exact Ha | reflexivity]|].
  exact (proj1 (aggregator_reads_missing_as_null None Example.fresh "dep1" Ha) eq_refl).
Defined.

Lemma clear_then_read_null_witness :
  (available Example.counted
   /\ Redis.hash_at (keyspace Example.counted) METRICS_DB
        (Utilities.getDeploymentKeyLabelsHash "dep1") = Some {[ "v3:Downloaded" := "3" ]})
  /\ exists w',
       clearMetricsForDeploymentKey None "dep1" Example.counted = (Resolved tt, w')
       /\ fst (getMetricsWithDeploymentKey None "dep1" w') = Resolved None.
Proof.
  assert (Ha : available Example.counted).
  { unfold available. vm_compute. repeat split; intros; discriminate. }
  split; [split; [exact Ha | vm_compute; reflexivity]|].
  destruct (clear_then_read_null None Example.counted "dep1" Ha)
    as (w' & E & _ & _ & Hread & _).
  exists w'. split; [exact E | exact Hread].
Defined.

Lemma update_then_get_label_witness :
  (available Example.fresh
   /\ holds_string (keyspace Example.fresh) METRICS_DB
        (Utilities.getDeploymentKeyClientsHash "dep1") = false)
  /\ exists w',
       updateActiveAppForClient None "dep1" "client1" "v2" (Some "v1") Example.fresh
       = (Resolved tt, w')
       /\ fst (getCurrentActiveLabel None "dep1" "client1" w') = Resolved (Some "v2").
Proof.
  assert (Ha : available Example.fresh) by store_available.
  split; [split; [exact Ha | reflexivity]|].
  destruct (update_then_get_label None Example.fresh "dep1" "client1" "v2" (Some "v1")
              Ha eq_refl) as (w' & E & Hget & _).
  exists w'. split; [exact E | exact Hget].
Defined.

Lemma remove_then_get_label_witness :
  (available Sample.recorded
   /\ fst (getCurrentActiveLabel None "dep1" "client1" Sample.recorded) = Resolved (Some "v1"))
  /\ exists w',
       removeDeploymentKeyClientActiveLabel None "dep1" "client1" Sample.recorded
       = (Resolved tt, w')
       /\ fst (getCurrentActiveLabel None "dep1" "client1" w') = Resolved None.
Proof.
  assert (Ha : available Sample.recorded).
  { unfold available. vm_compute. repeat split; intros; discriminate. }
  split; [split; [exact Ha | vm_compute; reflexivity]|].
  destruct (remove_then_get_label None Sample.recorded "dep1" "client1" Ha)
    as (w' & E & Hget & _).
  exists w'. split; [exact E | exact Hget].
Defined.

Lemma increment_touches_one_counter_witness :
  (Utilities.isValidDeploymentStatus "Downloaded" = true
   /\ ("dep1", "v3:Active") <> ("dep1", "v3" ++ ":" ++ "Downloaded"))
  /\ Redis.counter
       (keyspace (snd (incrementLabelStatusCount None "dep1" "v3" "Downloaded" Example.counted)))
       METRICS_DB (Utilities.getDeploymentKeyLabelsHash "dep1") "v3:Active"
     = Redis.counter (keyspace Example.counted) METRICS_DB
         (Utilities.getDeploymentKeyLabelsHash "dep1") "v3:Active".
Proof.
  assert (Hne : ("dep1", "v3:Active") <> ("dep1", "v3" ++ ":" ++ "Downloaded")).
  { intros H. vm_compute in H. discriminate. }
  split; [split; [reflexivity | exact Hne]|].
  exact (increment_touches_one_counter None Example.counted "dep1" "v3" "Downloaded"
           METRICS_DB "dep1" "v3:Active" eq_refl Hne).
Defined.

Lemma increment_then_read_witness :
  (available Example.counted
   /\ Utilities.isValidDeploymentStatus "Downloaded" = true
   /\ Redis.counter (keyspace Example.counted) METRICS_DB
        (Utilities.getDeploymentKeyLabelsHash "dep1") ("v3" ++ ":" ++ "Downloaded") = Some 3)
  /\ exists w' m,
       incrementLabelStatusCount None "dep1" "v3" "Downloaded" Example.counted
       = (Resolved tt, w')
       /\ fst (getMetricsWithDeploymentKey None "dep1" w') = Resolved (Some m)
       /\ m !! "v3:Downloaded" = Some (Js.JsNum (Js.JsFinite 4)).
Proof.
  assert (Ha : available Example.counted).
  { unfold available. vm_compute. repeat split; intros; discriminate. }
  assert (Hn : Redis.counter (keyspace Example.counted) METRICS_DB
                 (Utilities.getDeploymentKeyLabelsHash "dep1") ("v3" ++ ":" ++ "Downloaded")
               = Some 3) by (vm_compute; reflexivity).
  split; [split; [exact Ha | split; [reflexivity | exact Hn]]|].
  destruct (increment_then_read None Example.counted "dep1" "v3" "Downloaded" 3 Ha eq_refl Hn)
    as (w' & m & E1 & E2 & _ & Hexact).
  exists w', m. split; [exact E1|]. split; [exact E2|].
  apply Hexact. vm_compute. discriminate.
Defined.

Lemma increment_of_non_integer_is_dropped_witness :
  (available Sample.garbled
   /\ Utilities.isValidDeploymentStatus "Downloaded" = true
   /\ Redis.hash_at (keyspace Sample.garbled) METRICS_DB
        (Utilities.getDeploymentKeyLabelsHash "dep1") = Some {[ "v1:Downloaded" := " " ]}
   /\ ({[ "v1:Downloaded" := " " ]} : gmap string string) !! ("v1" ++ ":" ++ "Downloaded")
      = Some " "
   /\ Redis.integer_of_string " " = None)
  /\ exists w',
       incrementLabelStatusCount None "dep1" "v1" "Downloaded" Sample.garbled
       = (Resolved tt, w')
       /\ Redis.hash_at (keyspace w') METRICS_DB (Utilities.getDeploymentKeyLabelsHash "dep1")
          = Some {[ "v1:Downloaded" := " " ]}
       /\ raised w' = [ReplyError "ERR hash value is not an integer"].
Proof.
  assert (Ha : available Sample.garbled) by store_available.
  assert (Hh : Redis.hash_at (keyspace Sample.garbled) METRICS_DB
                 (Utilities.getDeploymentKeyLabelsHash "dep1")
               = Some {[ "v1:Downloaded" := " " ]}) by (vm_compute; reflexivity).
  assert (Hv : ({[ "v1:Downloaded" := " " ]} : gmap string string)
                 !! ("v1" ++ ":" ++ "Downloaded") = Some " ") by (vm_compute; reflexivity).
  split; [auto 8|].
  exact (increment_of_non_integer_is_dropped None Sample.garbled "dep1" "v1" "Downloaded"
           _ " " Ha eq_refl Hh Hv eq_refl).
Defined.

Lemma update_moves_active_count_witness :
  (available Example.fresh
   /\ Js.truthy "v2" = true
   /\ readable (keyspace Example.fresh) (switch_updates "dep1" "v2" (Some "v1")))
  /\ exists w',
       updateActiveAppForClient None "dep1" "client1" "v2" (Some "v1") Example.fresh
       = (Resolved tt, w')
       /\ Redis.counter (keyspace w') METRICS_DB (Utilities.getDeploymentKeyLabelsHash "dep1")
            "v2:Active" = Some 1
       /\ Redis.counter (keyspace w') METRICS_DB (Utilities.getDeploymentKeyLabelsHash "dep1")
            "v1:Active" = Some (-1).
Proof.
  assert (Ha : available Example.fresh) by store_available.
  assert (Hr : readable (keyspace Example.fresh) (switch_updates "dep1" "v2" (Some "v1"))).
  { unfold readable. repeat (apply Forall_cons_2; [vm_compute; eauto|]). apply Forall_nil_2. }
  split; [split; [exact Ha | split; [reflexivity | exact Hr]]|].
  destruct (update_moves_active_count None Example.fresh "dep1" "client1" "v2" (Some "v1")
              Ha eq_refl Hr) as (w' & E & Hcount & _).
  exists w'. split; [exact E|].
  split; rewrite Hcount; vm_compute; reflexivity.
Defined.

Lemma setup_attempt_step_by_step_witness :
  (isEnabled (manager Example.fresh) = true
   /\ _metricsClient (manager Example.fresh) = Some Example.client
   /\ ready Example.client = true
   /\ _setupMetricsClientPromise (manager Example.fresh) = None)
  /\ fst (ensureMetricsSetup None Example.fresh) = Resolved tt
  /\ issued (snd (ensureMetricsSetup None Example.fresh))
     = [(Metrics, Redis.Single (Redis.SELECT METRICS_DB));
        (Metrics, Redis.Single (Redis.SET "health" "health"))].
Proof.
  split; [repeat split|].
  destruct (setup_attempt_step_by_step None Example.fresh Example.client
              eq_refl eq_refl eq_refl eq_refl) as (_ & _ & Hok).
  destruct (Hok eq_refl eq_refl) as (E & Hi & _).
  split; [rewrite E; reflexivity | exact Hi].
Defined.

Lemma reads_change_nothing_witness :
  benign (GetMetricsWithDeploymentKey "dep1") <> Void
  /\ forall db key,
       key <> "health" ->
       keyspace (snd (invoke None Json.stringify Json.parse
                        (GetMetricsWithDeploymentKey "dep1") Example.fresh)) !! (db, key)
       = keyspace Example.fresh !! (db, key).
Proof.
  assert (Hb : benign (GetMetricsWithDeploymentKey "dep1") <> Void) by discriminate.
  split; [exact Hb|].
  exact (proj1 (reads_change_nothing None Json.stringify Json.parse
                  (GetMetricsWithDeploymentKey "dep1") Example.fresh Hb)).
Defined.

(** A client that has the commands, and one that lacks [hgetall]. *)
Example promisified_client_samples :
  (exists this, Promisified.constructor Sample.redisClient = inr this)
  /\ Promisified.constructor (fun name => negb (String.eqb name "hgetall"))
     = inl "Binding a function that does not exist: hgetall".
Proof. split; [eexists|]; vm_compute; reflexivity. Qed.

Lemma available_is_kept_witness :
  available Example.fresh
  /\ available (snd (invoke None Json.stringify Json.parse
                       (RecordUpdate "k1" "v2" (Some "k1") (Some "v1")) Example.fresh))
  /\ setup_done (snd (invoke None Json.stringify Json.parse
                        (RecordUpdate "k1" "v2" (Some "k1") (Some "v1")) Example.fresh)).
Proof.
  assert (Ha : available Example.fresh) by store_available.
  split; [exact Ha|].
  destruct (available_is_kept None Json.stringify Json.parse
              (RecordUpdate "k1" "v2" (Some "k1") (Some "v1")) Example.fresh Ha) as [H1 H2].
  split; [exact H1 | exact (H2 eq_refl)].
Defined.

Lemma cache_keeps_to_its_key_witness :
  (handle_of Ops Metrics (InvalidateCache "v2") = Ops
   /\ "v1" ∉ cache_key (InvalidateCache "v2"))
  /\ keyspace (snd (invoke None Json.stringify Json.parse (InvalidateCache "v2") Example.warm))
       !! (0, "v1")
     = keyspace Example.warm !! (0, "v1").
Proof.
  assert (Hn : "v1" ∉ cache_key (InvalidateCache "v2")).
  { intros H. apply list_elem_of_singleton in H. discriminate. }
  split; [split; [reflexivity | exact Hn]|].
  exact (cache_keeps_to_its_key None Json.stringify Json.parse
           (InvalidateCache "v2") Example.warm 0 "v1" eq_refl Hn).
Defined.

Lemma reports_add_up_witness :
  (available Example.fresh
   /\ Utilities.isValidDeploymentStatus "DeploymentFailed" = true
   /\ Redis.counter (keyspace Example.fresh) METRICS_DB
        (Utilities.getDeploymentKeyLabelsHash "dep1") ("v3" ++ ":" ++ "DeploymentFailed")
      = Some 0)
  /\ exists w',
       times 5 (incrementLabelStatusCount None "dep1" "v3" "DeploymentFailed") Example.fresh
       = (Resolved tt, w')
       /\ Redis.counter (keyspace w') METRICS_DB
            (Utilities.getDeploymentKeyLabelsHash "dep1") ("v3" ++ ":" ++ "DeploymentFailed")
          = Some 5.
Proof.
  assert (Ha : available Example.fresh) by store_available.
  split; [split; [exact Ha | split; reflexivity]|].
  exact (reports_add_up None 5 Example.fresh "dep1" "v3" "DeploymentFailed" 0
           Ha eq_refl eq_refl).
Defined.
